(** * The ID-file codec of xmltransform (isisinterface.py, encoding.py)

    A shallow embedding of [IDFile] (serializer and parser of the ISIS
    "ID format"), of the helpers [format_value] and
    [remove_break_lines_characters], and of [encoding.encode] /
    [encoding.decode], together with the Python built-ins they call.

    Conventions.
    - A Python [str] is a list of Unicode code points ([N]); a [bytes]
      object is a list of byte values ([N] below 256).
    - A Python [int] is a [Z].
    - A [dict] with [str] keys is a [gmap]: Python's [==] on dicts ignores
      insertion order, and so does equality of [gmap]s.  Every place where
      the source iterates over a dict sorts what it collected, so the
      iteration order is not observable.
    - A call that may raise returns a [result]. *)

From Stdlib Require Import ZArith NArith String Ascii DecimalPos DecimalN DecimalZ.
From stdpp Require Import gmap list sorting.

Open Scope N_scope.

(** ** Python values *)

Abbreviation str := (list N).
Abbreviation bytes := (list N).

(** A literal: the code points of an ASCII string. *)
Definition u (x : string) : str := map N_of_ascii (list_ascii_of_string x).
Definition ch (a : ascii) : N := N_of_ascii a.
Arguments u : simpl never.
Arguments ch : simpl never.

(** Closes a goal [c ∉ u "..."]. *)
Ltac not_in_literal :=
  repeat match goal with
  | |- context [u ?s] =>
      let v := eval vm_compute in (u s) in change (u s) with v
  end;
  repeat (apply not_elem_of_cons; split;
          [first [discriminate | assumption | congruence]|]);
  apply not_elem_of_nil.

(** Replaces the literals of the goal by their code points. *)
Ltac lits :=
  repeat match goal with
  | |- context [u ?s] =>
      let v := eval vm_compute in (u s) in change (u s) with v
  | |- context [ch ?c] =>
      let v := eval vm_compute in (ch c) in change (ch c) with v
  end.

Inductive exn :=
  | IndexError | ValueError | KeyError | TypeError | AttributeError
  | UnicodeEncodeError | UnicodeDecodeError
  | FileNotFoundError | FileExistsError | IsADirectoryError.

Inductive result (A : Type) :=
  | Ok (a : A)
  | Raise (e : exn).
Arguments Ok {A} a.
Arguments Raise {A} e.

#[global] Instance result_ret : MRet result := λ A a, Ok a.
#[global] Instance result_bind : MBind result := λ A B f m,
  match m with Ok a => f a | Raise e => Raise e end.

Definition is_ok {A} (r : result A) : bool :=
  match r with Ok _ => true | Raise _ => false end.

(** ** Built-ins on [str] *)

Module Py.

(** [str.isspace] on one code point, the test behind [str.split()] and
    [str.strip()] without arguments. *)
Definition is_space (c : N) : bool :=
  ((9 <=? c) && (c <=? 13)) || ((28 <=? c) && (c <=? 32))
  || (c =? 133) || (c =? 160) || (c =? 5760)
  || ((8192 <=? c) && (c <=? 8202))
  || (c =? 8232) || (c =? 8233) || (c =? 8239) || (c =? 8287) || (c =? 12288).

(** [s.split()]: the maximal runs of non-whitespace. *)
Fixpoint split_ws (s : str) : list str :=
  match s with
  | [] => []
  | c :: s' =>
      if is_space c then split_ws s'
      else match s' with
           | [] => [[c]]
           | d :: _ =>
               if is_space d then [c] :: split_ws s'
               else match split_ws s' with
                    | w :: ws => (c :: w) :: ws
                    | [] => [[c]]
                    end
           end
  end.

(** [sep.join(l)] *)
Fixpoint join (sep : str) (l : list str) : str :=
  match l with
  | [] => []
  | [x] => x
  | x :: l' => x ++ sep ++ join sep l'
  end.

Fixpoint lstrip (s : str) : str :=
  match s with
  | c :: s' => if is_space c then lstrip s' else s
  | [] => []
  end.

Definition rstrip (s : str) : str := rev (lstrip (rev s)).

(** [s.strip()] *)
Definition strip (s : str) : str := rstrip (lstrip s).

(** [s.startswith(p)] *)
Fixpoint startswith (p s : str) : bool :=
  match p, s with
  | [], _ => true
  | a :: p', b :: s' => (a =? b) && startswith p' s'
  | _ :: _, [] => false
  end.

(** [p in s] for two strings: [p] occurs in [s]. *)
Fixpoint contains (p s : str) : bool :=
  startswith p s || match s with [] => false | _ :: s' => contains p s' end.

(** [s.replace(old, new)] for a non-empty [old]: the occurrences of [old]
    are found from the left and do not overlap.  [skip] counts the
    characters of a match that are still to be passed over. *)
Fixpoint replace_from (old new : str) (skip : nat) (s : str) : str :=
  match s with
  | [] => []
  | c :: s' =>
      match skip with
      | S k => replace_from old new k s'
      | O => if startswith old s
             then new ++ replace_from old new (length old - 1) s'
             else c :: replace_from old new 0 s'
      end
  end.

Definition replace (old new s : str) : str := replace_from old new 0 s.

(** [s.split(sep)] for a non-empty [sep]. *)
Fixpoint split_from (sep : str) (skip : nat) (s : str) : list str :=
  match s with
  | [] => [[]]
  | c :: s' =>
      match skip with
      | S k => split_from sep k s'
      | O => if startswith sep s
             then [] :: split_from sep (length sep - 1) s'
             else match split_from sep 0 s' with
                  | w :: ws => (c :: w) :: ws
                  | [] => [[c]]
                  end
      end
  end.

Definition split (sep s : str) : list str := split_from sep 0 s.

(** [s.zfill(width)]: a leading sign stays in front of the zeros. *)
Definition zfill (width : nat) (s : str) : str :=
  let pad := repeat (ch "0") (width - length s) in
  match s with
  | c :: s' => if (c =? ch "+") || (c =? ch "-") then c :: pad ++ s' else pad ++ s
  | [] => pad
  end.

End Py.

(** ** Built-ins on [int] *)

Module PyInt.

Fixpoint uint_digits (d : Decimal.uint) : str :=
  match d with
  | Decimal.Nil => []
  | Decimal.D0 d => ch "0" :: uint_digits d
  | Decimal.D1 d => ch "1" :: uint_digits d
  | Decimal.D2 d => ch "2" :: uint_digits d
  | Decimal.D3 d => ch "3" :: uint_digits d
  | Decimal.D4 d => ch "4" :: uint_digits d
  | Decimal.D5 d => ch "5" :: uint_digits d
  | Decimal.D6 d => ch "6" :: uint_digits d
  | Decimal.D7 d => ch "7" :: uint_digits d
  | Decimal.D8 d => ch "8" :: uint_digits d
  | Decimal.D9 d => ch "9" :: uint_digits d
  end.

(** [str(n)] for an int: decimal, no leading zeros, [-] for a negative. *)
Definition str_of_int (z : Z) : str :=
  match Z.to_int z with
  | Decimal.Pos d => uint_digits d
  | Decimal.Neg d => ch "-" :: uint_digits d
  end.

Definition str_of_N (n : N) : str := uint_digits (N.to_uint n).

Definition digit (c : N) : option (Decimal.uint → Decimal.uint) :=
  if c =? ch "0" then Some Decimal.D0 else
  if c =? ch "1" then Some Decimal.D1 else
  if c =? ch "2" then Some Decimal.D2 else
  if c =? ch "3" then Some Decimal.D3 else
  if c =? ch "4" then Some Decimal.D4 else
  if c =? ch "5" then Some Decimal.D5 else
  if c =? ch "6" then Some Decimal.D6 else
  if c =? ch "7" then Some Decimal.D7 else
  if c =? ch "8" then Some Decimal.D8 else
  if c =? ch "9" then Some Decimal.D9 else None.

Definition is_digit (c : N) : bool := (48 <=? c) && (c <=? 57).

(** The digits of an int literal: at least one digit, and single
    underscores only between digits.  [after_digit] says that the previous
    character was a digit. *)
Fixpoint literal_digits (after_digit : bool) (s : str) : option Decimal.uint :=
  match s with
  | [] => if after_digit then Some Decimal.Nil else None
  | c :: s' =>
      if c =? ch "_" then
        if after_digit then literal_digits false s' else None
      else match digit c with
           | Some D => D <$> literal_digits true s'
           | None => None
           end
  end.

(** [int(s)] for a string: surrounding whitespace is ignored, one sign is
    allowed, the digits are decimal.  Only the ASCII digits are modelled
    (Python also accepts the other Unicode decimal digits; the codec writes
    ASCII digits only). *)
Definition int_of_str (s : str) : result Z :=
  let body := Py.strip s in
  let '(neg, ds) :=
    match body with
    | c :: r => if c =? ch "-" then (true, r)
                else if c =? ch "+" then (false, r) else (false, body)
    | [] => (false, body)
    end in
  match literal_digits false ds with
  | Some d => let n := Z.of_N (N.of_uint d) in Ok (if neg then (- n)%Z else n)
  | None => Raise ValueError
  end.

(** [int(s)] and [int(s, 16)] on a run of digits that a regular expression
    has matched: the result is not negative and nothing is raised. *)
Definition N_of_decimal (s : str) : N :=
  match int_of_str s with
  | Ok z => Z.to_N z
  | Raise _ => 0
  end.

Definition hex_value (c : N) : option N :=
  if (48 <=? c) && (c <=? 57) then Some (c - 48)
  else if (97 <=? c) && (c <=? 102) then Some (c - 87)
  else if (65 <=? c) && (c <=? 70) then Some (c - 55)
  else None.

Definition N_of_hex (s : str) : N :=
  fold_left (λ acc c, 16 * acc + default 0 (hex_value c)) s 0.

End PyInt.

(** ** [sorted] *)

Module PySort.

(** Comparison of two strings: lexicographic on the code points. *)
Fixpoint str_leb (a b : str) : bool :=
  match a, b with
  | [], _ => true
  | _ :: _, [] => false
  | x :: a', y :: b' => (x <? y) || ((x =? y) && str_leb a' b')
  end.

Definition str_le (a b : str) : Prop := str_leb a b = true.

#[global] Instance str_le_dec a b : Decision (str_le a b).
Proof. unfold str_le. apply _. Defined.

(** [sorted(l)] for a list of strings and for a list of ints.  The order is
    total and antisymmetric, so the result is the one ascending
    rearrangement of [l], whichever sorting algorithm computes it. *)
Definition sorted_str (l : list str) : list str := merge_sort str_le l.
Definition sorted_int (l : list Z) : list Z := merge_sort Z.le l.

End PySort.

(** ** [html.unescape] *)

Module Html.

Fixpoint take_while (f : N → bool) (s : str) : str :=
  match s with
  | c :: s' => if f c then c :: take_while f s' else []
  | [] => []
  end.

Definition is_hex (c : N) : bool :=
  match PyInt.hex_value c with Some _ => true | None => false end.

(** The class [[^\t\n\f <&#;]] of the characters of a reference name. *)
Definition is_name_char (c : N) : bool :=
  negb ((c =? 9) || (c =? 10) || (c =? 12) || (c =? 32)
        || (c =? ch "<") || (c =? ch "&") || (c =? ch "#") || (c =? ch ";")).

(** The table [_invalid_charrefs]: numeric references that HTML5 maps to
    another character. *)
Definition invalid_charrefs : list (N * N) :=
  [ (0x00, 0xfffd); (0x0d, 0x0d); (0x80, 0x20ac); (0x81, 0x81);
    (0x82, 0x201a); (0x83, 0x0192); (0x84, 0x201e); (0x85, 0x2026);
    (0x86, 0x2020); (0x87, 0x2021); (0x88, 0x02c6); (0x89, 0x2030);
    (0x8a, 0x0160); (0x8b, 0x2039); (0x8c, 0x0152); (0x8d, 0x8d);
    (0x8e, 0x017d); (0x8f, 0x8f); (0x90, 0x90); (0x91, 0x2018);
    (0x92, 0x2019); (0x93, 0x201c); (0x94, 0x201d); (0x95, 0x2022);
    (0x96, 0x2013); (0x97, 0x2014); (0x98, 0x02dc); (0x99, 0x2122);
    (0x9a, 0x0161); (0x9b, 0x203a); (0x9c, 0x0153); (0x9d, 0x9d);
    (0x9e, 0x017e); (0x9f, 0x0178) ].

Fixpoint assoc (k : N) (l : list (N * N)) : option N :=
  match l with
  | (k', v) :: l' => if k =? k' then Some v else assoc k l'
  | [] => None
  end.

(** The set [_invalid_codepoints]: references that are dropped. *)
Definition invalid_codepoint (n : N) : bool :=
  ((0x1 <=? n) && (n <=? 0x8)) || ((0xe <=? n) && (n <=? 0x1f))
  || ((0x7f <=? n) && (n <=? 0x9f)) || ((0xfdd0 <=? n) && (n <=? 0xfdef))
  || (n =? 0xb)
  || ((n <=? 0x10ffff) && (0xfffe <=? N.land n 0xffff)).

(** [_replace_charref] on a numeric reference. *)
Definition numeric_charref (num : N) : str :=
  match assoc num invalid_charrefs with
  | Some c => [c]
  | None =>
      if ((0xD800 <=? num) && (num <=? 0xDFFF)) || (0x10FFFF <? num) then [0xFFFD]
      else if invalid_codepoint num then []
      else [num]
  end.

(** The loop of [_replace_charref] that looks for the longest known prefix
    [s[:x]], for [x] from [len(s)-1] down to 2. *)
Fixpoint longest_name (names : str → option str) (s : str) (x : nat)
  : option str :=
  match x with
  | S x' =>
      if (2 <=? x)%nat then
        match names (take x s) with
        | Some r => Some (r ++ drop x s)
        | None => longest_name names s x'
        end
      else None
  | O => None
  end.

(** [_replace_charref] on a named reference [s] (the text after the [&]). *)
Definition named_charref (names : str → option str) (s : str) : str :=
  match names s with
  | Some r => r
  | None =>
      match longest_name names s (length s - 1) with
      | Some r => r
      | None => ch "&" :: s
      end
  end.

Definition semicolon (s : str) : nat :=
  match s with c :: _ => if c =? ch ";" then 1%nat else 0%nat | [] => 0%nat end.

(** One match of the pattern
    [&(#[0-9]+;?|#[xX][0-9a-fA-F]+;?|[^\t\n\f <&#;]{1,32};?)] right after an
    ampersand: the length of the group and its replacement.  The three
    alternatives are tried in this order. *)
Definition charref (names : str → option str) (s : str) : option (nat * str) :=
  let named :=
    let name := take_while is_name_char (take 32 s) in
    match name with
    | [] => None
    | _ => let n := (length name + semicolon (drop (length name) s))%nat in
           Some (n, named_charref names (take n s))
    end in
  match s with
  | c :: r =>
      if c =? ch "#" then
        let ds := take_while PyInt.is_digit r in
        match ds with
        | _ :: _ =>
            Some ((1 + length ds + semicolon (drop (length ds) r))%nat,
                  numeric_charref (PyInt.N_of_decimal ds))
        | [] =>
            match r with
            | x :: r' =>
                if (x =? ch "x") || (x =? ch "X") then
                  let hs := take_while is_hex r' in
                  match hs with
                  | _ :: _ =>
                      Some ((2 + length hs + semicolon (drop (length hs) r'))%nat,
                            numeric_charref (PyInt.N_of_hex hs))
                  | [] => None
                  end
                else None
            | [] => None
            end
        end
      else named
  | [] => None
  end.

(** [re.sub] with this pattern: the text is scanned from the left, a
    replacement is not scanned again. *)
Fixpoint unescape_from (names : str → option str) (skip : nat) (s : str) : str :=
  match s with
  | [] => []
  | c :: s' =>
      match skip with
      | S k => unescape_from names k s'
      | O =>
          if c =? ch "&" then
            match charref names s' with
            | Some (n, r) => r ++ unescape_from names n s'
            | None => c :: unescape_from names 0 s'
            end
          else c :: unescape_from names 0 s'
      end
  end.

(** Modelled from the Python documentation: the table [html.entities.html5]
    of the named references.  The library table has 2231 entries; the ones
    listed here are the references of the XML predefined entities and the
    names that decode to a circumflex or to a blank.  Numeric references
    do not use the table; the lemmas on [unescape_from] and [unescape_with]
    below hold for every table, and the theorems on streams rest on them
    alone. *)
Definition html5 (s : str) : option str :=
  if decide (s = u "amp;") then Some (u "&") else
  if decide (s = u "amp") then Some (u "&") else
  if decide (s = u "lt;") then Some (u "<") else
  if decide (s = u "lt") then Some (u "<") else
  if decide (s = u "gt;") then Some (u ">") else
  if decide (s = u "gt") then Some (u ">") else
  if decide (s = u "quot;") then Some [34] else
  if decide (s = u "quot") then Some [34] else
  if decide (s = u "apos;") then Some (u "'") else
  if decide (s = u "Hat;") then Some (u "^") else
  if decide (s = u "nbsp;") then Some [160] else
  if decide (s = u "nbsp") then Some [160] else None.

(** [html.unescape(s)]; the source returns [s] at once when it holds no
    ampersand. *)
Definition unescape_with (names : str → option str) (s : str) : str :=
  if negb (existsb (N.eqb (ch "&")) s) then s else unescape_from names 0 s.

Definition unescape (s : str) : str := unescape_with html5 s.

End Html.

(** ** encoding.py *)

Module Encoding.

Inductive codec := Latin1 | Utf8.
Inductive errors := Strict | XmlCharRefReplace.

(** What [content] may be: a [str] or a [bytes] object. *)
Inductive text :=
  | PStr (s : str)
  | PBytes (b : bytes).

(** The numeric character reference [&#NNNN;] of a code point. *)
Definition charref_of (c : N) : bytes :=
  u "&#" ++ PyInt.str_of_N c ++ u ";".

Definition utf8_of (c : N) : bytes :=
  if c <? 0x80 then [c]
  else if c <? 0x800 then [0xC0 + c / 64; 0x80 + c mod 64]
  else if c <? 0x10000 then
    [0xE0 + c / 4096; 0x80 + (c / 64) mod 64; 0x80 + c mod 64]
  else [0xF0 + c / 262144; 0x80 + (c / 4096) mod 64;
        0x80 + (c / 64) mod 64; 0x80 + c mod 64].

Definition encodable (enc : codec) (c : N) : bool :=
  match enc with
  | Latin1 => c <? 256
  | Utf8 => negb ((0xD800 <=? c) && (c <=? 0xDFFF))
  end.

Definition encode_char (enc : codec) (c : N) : bytes :=
  match enc with
  | Latin1 => [c]
  | Utf8 => utf8_of c
  end.

(** [s.encode(enc, errors)] *)
Fixpoint str_encode (enc : codec) (err : errors) (s : str) : result bytes :=
  match s with
  | [] => Ok []
  | c :: s' =>
      if encodable enc c then
        b ← str_encode enc err s'; Ok (encode_char enc c ++ b)
      else match err with
           | Strict => Raise UnicodeEncodeError
           | XmlCharRefReplace =>
               b ← str_encode enc err s'; Ok (charref_of c ++ b)
           end
  end.

Definition is_cont (b : N) : bool := (0x80 <=? b) && (b <=? 0xBF).

Fixpoint utf8_decode (b : bytes) : result str :=
  match b with
  | [] => Ok []
  | b0 :: r =>
      if b0 <? 0x80 then s ← utf8_decode r; Ok (b0 :: s)
      else if (0xC2 <=? b0) && (b0 <=? 0xDF) then
        match r with
        | b1 :: r' =>
            if is_cont b1 then
              s ← utf8_decode r'; Ok (((b0 - 0xC0) * 64 + (b1 - 0x80)) :: s)
            else Raise UnicodeDecodeError
        | _ => Raise UnicodeDecodeError
        end
      else if (0xE0 <=? b0) && (b0 <=? 0xEF) then
        match r with
        | b1 :: b2 :: r' =>
            if is_cont b1 && is_cont b2
               && negb ((b0 =? 0xE0) && (b1 <? 0xA0))
               && negb ((b0 =? 0xED) && (0x9F <? b1)) then
              s ← utf8_decode r';
              Ok (((b0 - 0xE0) * 4096 + (b1 - 0x80) * 64 + (b2 - 0x80)) :: s)
            else Raise UnicodeDecodeError
        | _ => Raise UnicodeDecodeError
        end
      else if (0xF0 <=? b0) && (b0 <=? 0xF4) then
        match r with
        | b1 :: b2 :: b3 :: r' =>
            if is_cont b1 && is_cont b2 && is_cont b3
               && negb ((b0 =? 0xF0) && (b1 <? 0x90))
               && negb ((b0 =? 0xF4) && (0x8F <? b1)) then
              s ← utf8_decode r';
              Ok (((b0 - 0xF0) * 262144 + (b1 - 0x80) * 4096
                   + (b2 - 0x80) * 64 + (b3 - 0x80)) :: s)
            else Raise UnicodeDecodeError
        | _ => Raise UnicodeDecodeError
        end
      else Raise UnicodeDecodeError
  end.

(** [b.decode(enc)]: every byte is a character of iso-8859-1. *)
Definition bytes_decode (enc : codec) (b : bytes) : result str :=
  match enc with
  | Latin1 => Ok b
  | Utf8 => utf8_decode b
  end.

(** [decode(content, encoding)]: a [str] has no [decode] attribute and is
    returned as it is. *)
Definition decode (content : text) (encoding : codec) : result text :=
  match content with
  | PBytes b => s ← bytes_decode encoding b; Ok (PStr s)
  | PStr _ => Ok content
  end.

(** [encode(content, encoding)]: a [bytes] object has no [encode] attribute
    and is returned as it is; a [UnicodeEncodeError] leads to the second
    attempt, with [xmlcharrefreplace]. *)
Definition encode (content : text) (encoding : codec) : result text :=
  match content with
  | PBytes _ => Ok content
  | PStr s =>
      match str_encode encoding Strict s with
      | Ok b => Ok (PBytes b)
      | Raise UnicodeEncodeError =>
          b ← str_encode encoding XmlCharRefReplace s; Ok (PBytes b)
      | Raise e => Raise e
      end
  end.

End Encoding.

(** ** The record model

    [Record = Dict[str, Union[str, list]]] (main.py).  A field is one
    occurrence or a list of occurrences; an occurrence is a string or a dict
    of subfields, whose key ["_"] holds the main value.  A tuple is the
    value that takes the [TypeError] branches of [format_value] and
    [_tag_occ]. *)

Inductive subvalue :=
  | SStr (s : str)
  | STuple (t : list str).

Inductive occurrence :=
  | OStr (s : str)
  | ODict (d : gmap str subvalue)
  | OTuple (t : list str).

Inductive field :=
  | FOcc (o : occurrence)
  | FList (l : list occurrence).

Abbreviation record := (gmap str field).

#[global] Instance exn_eq_dec : EqDecision exn.
Proof. solve_decision. Defined.
#[global] Instance result_eq_dec {A} `{EqDecision A} : EqDecision (result A).
Proof. solve_decision. Defined.
#[global] Instance subvalue_eq_dec : EqDecision subvalue.
Proof. solve_decision. Defined.
#[global] Instance occurrence_eq_dec : EqDecision occurrence.
Proof. solve_decision. Defined.
#[global] Instance field_eq_dec : EqDecision field.
Proof. solve_decision. Defined.

(** Truth value of an object ([if data], [if not data], [x or y]). *)
Definition subvalue_true (v : subvalue) : bool :=
  match v with
  | SStr [] | STuple [] => false
  | _ => true
  end.

Definition occurrence_true (o : occurrence) : bool :=
  match o with
  | OStr [] | OTuple [] => false
  | ODict d => negb (bool_decide (d = ∅))
  | _ => true
  end.

Definition field_true (f : field) : bool :=
  match f with
  | FOcc o => occurrence_true o
  | FList [] => false
  | FList _ => true
  end.

(** ** The file system, as far as [IDFile.read] and [IDFile.write] use it

    Paths are compared as they are written.  A world holds the directories,
    the contents of the files and what was printed.  The world is flat: the
    parents of a directory are not tracked, and nothing fails for lack of
    rights or of room.  Lines end as on POSIX: writing leaves a line feed as
    it is. *)

Module OS.

Record world := World {
  dirs : gset str;
  files : gmap str bytes;
  stdout : list (str * exn)
}.

Fixpoint rstrip_slash (r : str) : str :=
  match r with
  | c :: r' => if c =? ch "/" then rstrip_slash r' else r
  | [] => []
  end.

Fixpoint upto_slash (r : str) : str :=
  match r with
  | c :: r' => if c =? ch "/" then r else upto_slash r'
  | [] => []
  end.

(** [os.path.dirname(p)] (posixpath): the part before the last slash,
    without its trailing slashes unless it is made of slashes only.  Both
    helpers work on the reversed path. *)
Definition dirname (p : str) : str :=
  let head := upto_slash (rev p) in
  match rstrip_slash head with
  | [] => rev head
  | h => rev h
  end.

Definition isdir (path : str) (w : world) : bool :=
  bool_decide (path ∈ dirs w).

(** [os.makedirs(path)], called for a path that is not a directory. *)
Definition makedirs (path : str) (w : world) : result world :=
  match path with
  | [] => Raise FileNotFoundError
  | _ => if bool_decide (is_Some (files w !! path)) then Raise FileExistsError
         else Ok (World ({[ path ]} ∪ dirs w) (files w) (stdout w))
  end.

(** [open(filename, "w")]: the file is created or truncated. *)
Definition open_w (filename : str) (w : world) : result world :=
  if bool_decide (filename ∈ dirs w) then Raise IsADirectoryError
  else if bool_decide (dirname filename ∈ dirs w)
  then Ok (World (dirs w) (<[ filename := [] ]> (files w)) (stdout w))
  else Raise FileNotFoundError.

(** What [fp.write] and closing the file leave in it. *)
Definition store (filename : str) (b : bytes) (w : world) : world :=
  World (dirs w) (<[ filename := b ]> (files w)) (stdout w).

Definition print (line : str * exn) (w : world) : world :=
  World (dirs w) (files w) (stdout w ++ [line]).

(** Reading in text mode: [\r\n] and [\r] become [\n]. *)
Fixpoint universal_newlines (s : str) : str :=
  match s with
  | [] => []
  | c :: s' =>
      if c =? 13 then
        10 :: match s' with
              | d :: s'' => if d =? 10 then universal_newlines s''
                            else universal_newlines s'
              | [] => []
              end
      else c :: universal_newlines s'
  end.

End OS.

(** [read_file(filename, encode)] *)
Definition read_file (filename : str) (encode : Encoding.codec) (w : OS.world)
  : result str :=
  if bool_decide (filename ∈ OS.dirs w) then Raise IsADirectoryError
  else match OS.files w !! filename with
       | None => Raise FileNotFoundError
       | Some b => s ← Encoding.bytes_decode encode b; Ok (OS.universal_newlines s)
       end.

(** ** isisinterface.py: the helpers *)

Definition PRESERVECIRC : str := u "[PRESERVECIRC]".

(** [content or ""] is [content] for a string. *)
Definition remove_break_lines_characters (content : str) : str :=
  Py.join (u " ") (Py.split_ws content).

(** [content += ""] leaves a string as it is and raises [TypeError] for a
    tuple, which is then joined. *)
Definition format_value (content : subvalue) : str :=
  let content :=
    match content with
    | SStr s => s
    | STuple t => Py.join (u ", ") t
    end in
  Py.replace (u "^") PRESERVECIRC
    (Py.strip (remove_break_lines_characters content)).

(** ** isisinterface.py: class IDFile *)

Module IDFile.

Definition MAX_DIGITS_QTD : nat := 6.

(** [index in range(1, 10 ** MAX_DIGITS_QTD)] *)
Definition VALID_ID_RANGE (index : Z) : bool :=
  ((1 <=? index) && (index <? 10 ^ Z.of_nat MAX_DIGITS_QTD))%Z.

(** The formatter, when there is one, is a function from the text of a
    record to a text. *)
Record self := { content_formatter : option (str → str) }.

(** [IDFile()], as [UCISIS] builds it. *)
Definition new : self := {| content_formatter := None |}.

Definition _format_id (index : Z) : result str :=
  if VALID_ID_RANGE index
  then Ok (u "!ID " ++ Py.zfill MAX_DIGITS_QTD (PyInt.str_of_int index) ++ [10])
  else Raise IndexError.

Definition _format_subfield (subf : str) (subf_value : subvalue) : str :=
  if subvalue_true subf_value
     && Py.contains subf (u "abcdefghijklmnopqrstuvwxyz123456789")
  then u "^" ++ subf ++ format_value subf_value
  else [].

Definition _format_subfields (subf_and_value_list : gmap str subvalue) : str :=
  let first :=
    format_value
      (match subf_and_value_list !! u "_" with
       | Some v => if subvalue_true v then v else SStr []
       | None => SStr []
       end) in
  let values :=
    map (λ kv, _format_subfield kv.1 kv.2) (map_to_list subf_and_value_list) in
  let value := concat (PySort.sorted_str values) in
  first ++ value.

Definition _tag_content (tag : str) (value : str) : result str :=
  t ← PyInt.int_of_str tag;
  if negb ((0 <? t) && (t <=? 999))%Z then Raise ValueError
  else match value with
       | [] => Ok []
       | _ => Ok (u "!v" ++ Py.zfill 3 tag ++ u "!" ++ value ++ [10])
       end.

Definition _tag_occ (tag : str) (data : occurrence) : result str :=
  if negb (occurrence_true data) then Ok []
  else match data with
       | OStr s => _tag_content tag (_format_subfields {[ u "_" := SStr s ]})
       | ODict d => _tag_content tag (_format_subfields d)
       | OTuple _ => Raise TypeError
       end.

Definition _tag_data (tag : str) (data : field) : result (list str) :=
  if negb (field_true data) then Ok []
  else
    let data := match data with FList l => l | FOcc o => [o] end in
    mapM (_tag_occ tag) data.

Definition _format_record (s : self) (rec : record) : result str :=
  if negb (bool_decide (rec = ∅)) then
    tags ← mapM PyInt.int_of_str (map fst (map_to_list rec));
    items ← mapM (λ tag_i,
                    let tag := PyInt.str_of_int tag_i in
                    match rec !! tag with
                    | Some data => _tag_data tag data
                    | None => Raise KeyError
                    end) (PySort.sorted_int tags);
    let result := concat (concat items) in
    Ok (match content_formatter s with
        | Some f => f result
        | None => result
        end)
  else Ok [].

(** The loop of [_format_file]; [index] is the number of the records done. *)
Fixpoint _format_file_from (s : self) (index : Z) (records : list record)
  : result (list str) :=
  match records with
  | [] => Ok []
  | item :: rest =>
      let index := (index + 1)%Z in
      a ← _format_id index;
      b ← _format_record s item;
      r ← _format_file_from s index rest;
      Ok ((a ++ b) :: r)
  end.

Definition _format_file (s : self) (records : list record) : result str :=
  r ← _format_file_from s 0 records; Ok (concat r).

(** The loop [for subf in subfields[1:]: d.update({subf[0]: subf[1:]})];
    [subf[0]] raises [IndexError] on an empty string. *)
Fixpoint _get_field_data_loop (d : gmap str subvalue) (subfields : list str)
  : result (gmap str subvalue) :=
  match subfields with
  | [] => Ok d
  | [] :: _ => Raise IndexError
  | (c :: v) :: rest => _get_field_data_loop (<[ [c] := SStr v ]> d) rest
  end.

Definition _get_field_data (field_content : str) : result occurrence :=
  let subfields := Py.split (u "^") field_content in
  let subfields := map (Py.replace PRESERVECIRC (u "^")) subfields in
  match subfields with
  | [x] => Ok (OStr x)
  | first :: rest =>
      let d := match first with
               | [] => ∅
               | _ => {[ u "_" := SStr first ]}
               end in
      d ← _get_field_data_loop d rest; Ok (ODict d)
  | [] => Raise IndexError
  end.

(** The first loop of [_get_record_data]: the occurrences met so far, by
    tag. *)
Fixpoint _get_record_data_loop (data : gmap str (list occurrence))
    (fields : list str) : result (gmap str (list occurrence)) :=
  match fields with
  | [] => Ok data
  | field :: rest =>
      tag_i ← PyInt.int_of_str (take 3 field);
      let field_tag := PyInt.str_of_int tag_i in
      let field_content := Py.strip (drop 4 field) in
      field_data ← _get_field_data field_content;
      let occs := default [] (data !! field_tag) in
      _get_record_data_loop (<[ field_tag := occs ++ [field_data] ]> data) rest
  end.

(** The second loop: a tag with one occurrence keeps the occurrence itself. *)
Definition collapse (tag_content : list occurrence) : field :=
  match tag_content with
  | [o] => FOcc o
  | _ => FList tag_content
  end.

Definition _get_record_data (rec : str) : result record :=
  let fields := drop 1 (Py.split (10 :: u "!v") rec) in
  match _get_record_data_loop ∅ fields with
  | Ok data => Ok (collapse <$> data)
  | Raise e => Raise e
  end.

(** [read], from the text of the file on. *)
Definition read_content (iso_content : str) : result (list record) :=
  utf8_content ← Encoding.decode (Encoding.PStr iso_content) Encoding.Utf8;
  match utf8_content with
  | Encoding.PStr utf8_content =>
      let utf8_content := Html.unescape utf8_content in
      let utf8_content := Py.replace (u "\^") PRESERVECIRC utf8_content in
      let records := Py.split (u "!ID ") utf8_content in
      mapM _get_record_data (drop 1 records)
  | Encoding.PBytes _ => Raise TypeError
  end.


(** [write], up to the text that is handed to [fp.write]. *)
Definition write_content (s : self) (records : list record) : result Encoding.text :=
  content ← _format_file s records;
  let content := Html.unescape content in
  let content := Py.replace PRESERVECIRC (u "\^") content in
  content ← Encoding.encode (Encoding.PStr content) Encoding.Latin1;
  Encoding.decode content Encoding.Latin1.

(** [write]: the directory is made first, the content is computed next, the
    file is opened last; a failure to open or to encode is printed. *)
Definition write (s : self) (filename : str) (records : list record)
    (w : OS.world) : result unit * OS.world :=
  let path := OS.dirname filename in
  match (if OS.isdir path w then Ok w else OS.makedirs path w) with
  | Raise e => (Raise e, w)
  | Ok w =>
      match write_content s records with
      | Raise e => (Raise e, w)
      | Ok content =>
          match OS.open_w filename w with
          | Raise e => (Ok (), OS.print (filename, e) w)
          | Ok w =>
              match content with
              | Encoding.PBytes _ => (Raise TypeError, w)
              | Encoding.PStr content =>
                  match Encoding.str_encode Encoding.Latin1 Encoding.Strict content with
                  | Ok b => (Ok (), OS.store filename b w)
                  | Raise e => (Ok (), OS.print (filename, e) w)
                  end
              end
          end
      end
  end.

End IDFile.

(** * Vocabulary of the statements *)

(** Whether a string starts with a character that is not a blank. *)
Definition clean_head (s : str) : bool :=
  match s with c :: _ => negb (Py.is_space c) | [] => true end.

(** The value [subf_and_value_list.get("_") or ""] of [_format_subfields]. *)
Definition main_value (d : gmap str subvalue) : subvalue :=
  match d !! u "_" with
  | Some v => if subvalue_true v then v else SStr []
  | None => SStr []
  end.

(** The rendered token of one entry of a subfield dict. *)
Definition token (kv : str * subvalue) : str :=
  IDFile._format_subfield kv.1 kv.2.

(** The subfield codes: [a] to [z] and [1] to [9]. *)
Definition is_subfield_code (c : N) : bool :=
  ((97 <=? c) && (c <=? 122)) || ((49 <=? c) && (c <=? 57)).

(** [0 < tag <= 999] *)
Definition tag_in_range (t : Z) : bool := ((0 <? t) && (t <=? 999))%Z.


(** The occurrences of a field, as [_tag_data] walks through them. *)
Definition occurrences (f : field) : list occurrence :=
  match f with
  | FOcc o => [o]
  | FList l => l
  end.


(** A field without any occurrence that counts as true: an empty string,
    list or dict, or a list of such. *)
Definition field_void (f : field) : bool :=
  forallb (λ o, negb (occurrence_true o)) (occurrences f).

(** An occurrence that [_tag_occ] accepts: not a non-empty tuple. *)
Definition occurrence_typed (o : occurrence) : bool :=
  match o with
  | OTuple (_ :: _) => false
  | _ => true
  end.

Definition field_typed (f : field) : bool := forallb occurrence_typed (occurrences f).

(** The int that a key of a record stands for, and whether the key is the
    decimal writing [str(int(key))] of that int. *)
Definition key_int (k : str) : Z :=
  match PyInt.int_of_str k with Ok t => t | Raise _ => 0%Z end.

Definition canonical_key (k : str) : bool :=
  match PyInt.int_of_str k with
  | Ok t => bool_decide (PyInt.str_of_int t = k)
  | Raise _ => false
  end.

(** The tags of a record in the order in which [_format_record] emits them. *)
Definition tags (r : record) : list Z :=
  PySort.sorted_int (map key_int (map fst (map_to_list r))).

Definition field_of (r : record) (k : str) : field := default (FList []) (r !! k).

(** A check on every field of a record. *)
Definition record_all (P : str → field → bool) (r : record) : bool :=
  forallb (λ kv, P kv.1 kv.2) (map_to_list r).

(** The text of an occurrence, and the line [_tag_content] makes of it. *)
Definition render (o : occurrence) : str :=
  if occurrence_true o then
    match o with
    | OStr s => format_value (SStr s)
    | ODict d => IDFile._format_subfields d
    | OTuple _ => []
    end
  else [].

Definition line (tag value : str) : str :=
  match value with
  | [] => []
  | _ => u "!v" ++ Py.zfill 3 tag ++ u "!" ++ value ++ [10]
  end.

Definition field_lines (tag : str) (f : field) : str :=
  concat (map (λ o, line tag (render o)) (occurrences f)).

(** The exceptions that a result may carry. *)
Definition raises_only {A} (P : exn → Prop) (r : result A) : Prop :=
  match r with
  | Ok _ => True
  | Raise e => P e
  end.

(** The two exceptions of the range checks: [IndexError] for the record
    number, [ValueError] for the tag. *)
Definition range_error (e : exn) : Prop := e = IndexError ∨ e = ValueError.

(** The [!ID] line of the record number [index]. *)
Definition id_line (index : Z) : str :=
  u "!ID " ++ Py.zfill IDFile.MAX_DIGITS_QTD (PyInt.str_of_int index) ++ [10].

(** The lines of the fields of a record whose keys are canonical. *)
Definition record_lines (r : record) : str :=
  concat (map (λ t, field_lines (PyInt.str_of_int t) (field_of r (PyInt.str_of_int t)))
              (tags r)).

(** A record whose keys are canonical and whose occurrences are strings or
    dicts. *)
Definition record_typed (r : record) : bool :=
  record_all (λ k v, canonical_key k && field_typed v) r.

(** What the first loop of [_get_record_data] reads off one field: the tag
    and the occurrence. *)
Definition field_tag_and_data (field : str) : result (str * occurrence) :=
  tag_i ← PyInt.int_of_str (take 3 field);
  field_data ← IDFile._get_field_data (Py.strip (drop 4 field));
  Ok (PyInt.str_of_int tag_i, field_data).

(** The occurrences found for a tag, in the order of the stream. *)
Definition occurrences_of (tag : str) (parsed : list (str * occurrence))
  : list occurrence :=
  map snd (filter (λ p, p.1 = tag) parsed).

Definition accumulate (data : gmap str (list occurrence)) (p : str * occurrence)
  : gmap str (list occurrence) :=
  <[ p.1 := default [] (data !! p.1) ++ [p.2] ]> data.

(** No occurrence of [sep] starts inside [a] when [a] is followed by [s]. *)
Fixpoint free (sep a s : str) : bool :=
  match a with
  | [] => true
  | c :: a' => negb (Py.startswith sep (a ++ s)) && free sep a' s
  end.

(** ** Records that survive a round trip *)

(** The placeholder substitution of [format_value]. *)
Definition escape_circ (v : str) : str := Py.replace (u "^") PRESERVECIRC v.

(** The text after [encoding.encode(content, "iso-8859-1")]: a character
    outside iso-8859-1 is replaced by its numeric reference. *)
Definition charrefs (s : str) : str :=
  concat (map (λ c, if c <? 256 then [c] else Encoding.charref_of c) s).

(** A character that goes through the stream unharmed: not an ampersand, a
    carriage return or a backslash, and either in iso-8859-1 or a character
    that [html.unescape] gives back for its numeric reference. *)
Definition plain_char (c : N) : bool :=
  negb (c =? ch "&") && negb (c =? 13) && negb (c =? 92)
  && ((c <? 256) || bool_decide (Html.numeric_charref c = [c])).

(** A string value that goes through unharmed: not empty, already
    normalized, made of plain characters, without the text of the
    placeholder and without the record marker. *)
Definition wf_text (v : str) : bool :=
  negb (bool_decide (v = []))
  && bool_decide (remove_break_lines_characters v = v)
  && forallb plain_char v
  && negb (Py.contains PRESERVECIRC v)
  && negb (Py.contains (u "!ID ") v).

(** A main value, or a field without subfields: it comes right after the
    [!] that closes the tag, so it must not start with [ID ] either. *)
Definition wf_main (v : str) : bool :=
  wf_text v && negb (Py.startswith (u "ID ") v).

Definition wf_entry (kv : str * subvalue) : bool :=
  match kv with
  | (k, SStr v) =>
      if bool_decide (k = u "_") then wf_main v
      else wf_text v
           && match k with [c] => is_subfield_code c | _ => false end
  | (_, STuple _) => false
  end.

(** A subfield dict needs one subfield at least: with a main value alone it
    is read back as a string. *)
Definition wf_occurrence (o : occurrence) : bool :=
  match o with
  | OStr s => wf_main s
  | ODict d =>
      forallb wf_entry (map_to_list d)
      && existsb (λ kv, negb (bool_decide (kv.1 = u "_"))) (map_to_list d)
  | OTuple _ => false
  end.

Definition wf_field (f : field) : bool :=
  match f with
  | FOcc o => wf_occurrence o
  | FList l => negb (bool_decide (l = [])) && forallb wf_occurrence l
  end.

Definition wf_record (r : record) : bool :=
  record_all (λ k v, canonical_key k && tag_in_range (key_int k) && wf_field v) r.

Definition wf_records (records : list record) : bool :=
  forallb wf_record records && (Z.of_nat (length records) <=? 999999)%Z.

(** What the parser makes of a field: a list of one occurrence comes back as
    the occurrence. *)
Definition scalar_collapse (f : field) : field :=
  match f with
  | FList [o] => FOcc o
  | _ => f
  end.

(** [parse(serialize(records))], on the text that [write] hands to the file. *)
Definition roundtrip (records : list record) : result (list record) :=
  match IDFile.write_content IDFile.new records with
  | Ok (Encoding.PStr s) => IDFile.read_content s
  | Ok (Encoding.PBytes _) => Raise TypeError
  | Raise e => Raise e
  end.

(** A word of [str.split()]: not empty and without a blank. *)
Definition word (w : str) : Prop := w ≠ [] ∧ Forall (λ c, Py.is_space c = false) w.

(** The text of a string subvalue, and the segment [code + value] that one
    subfield leaves between two circumflexes. *)
Definition text (v : subvalue) : str :=
  match v with
  | SStr s => s
  | STuple _ => []
  end.

Definition segment (kv : str * subvalue) : str := kv.1 ++ escape_circ (text kv.2).

(** A subfield that [wf_entry] accepts. *)
Definition subfield_entry (kv : str * subvalue) : Prop :=
  ∃ c v, kv = ([c], SStr v) ∧ is_subfield_code c = true ∧ wf_text v = true.

Definition put (d : gmap str subvalue) (kv : str * subvalue) : gmap str subvalue :=
  <[ kv.1 := kv.2 ]> d.

(** A character of the text of a value, as the stream carries it: none of
    [&], carriage return, backslash and line feed, and either in iso-8859-1
    or given back by [html.unescape] for its numeric reference. *)
Definition value_char (c : N) : Prop :=
  c ≠ 38 ∧ c ≠ 13 ∧ c ≠ 92 ∧ c ≠ 10
  ∧ (c < 256 ∨ Html.numeric_charref c = [c]).

(** The subfields of the text of an occurrence. *)
Definition subfields_text (L : list (str * subvalue)) : str :=
  concat (map (λ kv, 94 :: segment kv) L).

(** The text of a field between [!v] and the end of the line. *)
Definition field_text (p : str * occurrence) : str :=
  Py.zfill 3 p.1 ++ 33 :: render p.2.

(** The tags and occurrences of a record, in the order of the stream. *)
Definition pairs (r : record) : list (str * occurrence) :=
  flat_map (λ t, map (λ o, (PyInt.str_of_int t, o))
                     (occurrences (field_of r (PyInt.str_of_int t))))
           (tags r).

(** The last piece of a split record keeps the end of its line. *)
Fixpoint mark_last (l : list str) : list str :=
  match l with
  | [] => []
  | [f] => [f ++ [10]]
  | f :: l' => f :: mark_last l'
  end.

(** The text of the record number [index + 1] after its marker [!ID ], and
    those of the records that follow. *)
Definition body (index : Z) (r : record) : str :=
  Py.zfill 6 (PyInt.str_of_int index) ++ 10 :: record_lines r.

Fixpoint bodies_from (index : Z) (records : list record) : list str :=
  match records with
  | [] => []
  | r :: rest => body (index + 1) r :: bodies_from (index + 1) rest
  end.

(** The check behind [tag_facts], for the tags 1 to 999. *)
Definition tag_check (t : Z) : bool :=
  let z := Py.zfill 3 (PyInt.str_of_int t) in
  bool_decide (length z = 3%nat) && bool_decide (PyInt.int_of_str z = Ok t).

(** A character of the whole stream before the placeholder becomes [\^]:
    like [value_char], but the line feed is allowed. *)
Definition stream_char (c : N) : Prop :=
  c ≠ 38 ∧ c ≠ 13 ∧ c ≠ 92 ∧ (c < 256 ∨ Html.numeric_charref c = [c]).


(** ** Records without an ampersand *)







(** ** Vocabulary of the further properties *)

(** A Unicode scalar value: a code point that is not a surrogate. *)
Definition unicode_scalar (c : N) : bool :=
  (c <? 0xD800) || ((0xE000 <=? c) && (c <? 0x110000)).

(** The UTF-8 bytes of a string. *)
Definition utf8_bytes (s : str) : bytes := concat (map Encoding.utf8_of s).

(** The number of circumflexes of a text. *)
Definition count_circ (s : str) : nat := length (filter (λ c, c = 94) s).

(** The test of [_format_subfield]: the value counts as true and the key
    occurs in the string of the codes. *)
Definition emitted (kv : str * subvalue) : bool :=
  subvalue_true kv.2 && Py.contains kv.1 (u "abcdefghijklmnopqrstuvwxyz123456789").

(** A record that [_format_record] accepts: canonical keys, tags of 1..999,
    occurrences that are strings or dicts. *)
Definition serializable (r : record) : bool :=
  record_all (λ k v, canonical_key k && tag_in_range (key_int k) && field_typed v) r.

(** What a formatter, if there is one, makes of the text of a record. *)
Definition formatted (s : IDFile.self) (t : str) : str :=
  match IDFile.content_formatter s with
  | Some f => f t
  | None => t
  end.

(** Two results of [_tag_data] that [_format_record] cannot tell apart: the
    same exception, or items with the same text. *)
Definition same_text (a b : result (list str)) : Prop :=
  match a, b with
  | Ok x, Ok y => concat x = concat y
  | Raise e, Raise e' => e = e'
  | _, _ => False
  end.



(** ** main.py: the validations *)

Module Main.

Inductive ValidationSeverityError := Warning | Blocking | Fatal.

Record ValidationDict := {
  failed : bool;
  reason : str;
  severity : ValidationSeverityError
}.

(** What a caller passes as keyword arguments: [None], a string, a list of strings,
    or a dict of these. *)
Inductive item :=
  | INone
  | IStr (s : str)
  | IList (l : list str).

Inductive value :=
  | VItem (i : item)
  | VDict (d : gmap str item).

Abbreviation kwargs := (gmap str value).

(** [ArticleTitleValidation.check], on its keyword arguments; the severity is the one that
    [__init__] sets.  Only a string has [strip]. *)
Definition ArticleTitleValidation_check (kw : kwargs) : result (option ValidationDict) :=
  match default (VItem (IStr [])) (kw !! u "title") with
  | VItem (IStr title) =>
      if (length (Py.strip title) =? 0)%nat
      then Ok (Some {| failed := true;
                       reason := u "Title cannot be blank";
                       severity := Blocking |})
      else Ok None
  | _ => Raise AttributeError
  end.

(** [ArticleAuthorsValidation.check]: only a dict has [get],
    and [None] has no [len]. *)
Definition ArticleAuthorsValidation_check (kw : kwargs) : result (option ValidationDict) :=
  match default (VDict ∅) (kw !! u "article") with
  | VDict article =>
      let failure :=
        Ok (Some {| failed := true;
                    reason := u "The article shoud have at least one author";
                    severity := Blocking |}) in
      match default (IList []) (article !! u "authors") with
      | INone => Raise TypeError
      | IStr authors => if (length authors =? 0)%nat then failure else Ok None
      | IList authors => if (length authors =? 0)%nat then failure else Ok None
      end
  | VItem _ => Raise AttributeError
  end.

End Main.

(** ** isisinterface.py: class UCISIS, the part that writes ID files *)

Module UCISIS.


End UCISIS.

(** The text of a file before the passes of [write]: the records, numbered
    from 1. *)
Definition numbered (s : IDFile.self) (records : list record) : str :=
  concat (imap (λ i r, id_line (Z.of_nat (S i))
                       ++ (if bool_decide (r = ∅) then []
                           else formatted s (record_lines r))) records).

(** The lines of an occurrence, of a record and of a file, without the line
    feeds that end them. *)
Definition occurrence_line (k : str) (o : occurrence) : list str :=
  match render o with
  | [] => []
  | v => [u "!v" ++ Py.zfill 3 k ++ u "!" ++ v]
  end.

Definition record_line_list (r : record) : list str :=
  flat_map (λ t, flat_map (occurrence_line (PyInt.str_of_int t))
                          (occurrences (field_of r (PyInt.str_of_int t))))
           (tags r).

Definition file_lines (records : list record) : list str :=
  concat (imap (λ i r, (u "!ID " ++ Py.zfill 6 (PyInt.str_of_int (Z.of_nat (S i))))
                       :: record_line_list r) records).

(** A text made of lines, each ended by a line feed. *)
Definition terminated (lines : list str) : str := concat (map (λ l, l ++ [10]) lines).

(** * Properties *)

(** ** The error monad *)

Lemma bind_Ok {A B} (m : result A) (f : A → result B) b :
  m ≫= f = Ok b ↔ ∃ a, m = Ok a ∧ f a = Ok b.
Proof.
  destruct m as [a|e]; simpl; split.
  - intros H; exists a; auto.
  - intros (a' & [= ->] & H); exact H.
  - discriminate.
  - intros (a' & [=] & _).
Qed.

Lemma mapM_Ok_map {A B} (f : A → result B) (g : A → B) l :
  (∀ x, x ∈ l → f x = Ok (g x)) → mapM f l = Ok (map g l).
Proof.
  induction l as [|x l IH]; intros H; [reflexivity|].
  cbn. rewrite (H x) by constructor. cbn.
  rewrite IH by (intros y Hy; apply H; now constructor). reflexivity.
Qed.

Lemma mapM_is_ok {A B} (f : A → result B) l :
  (∀ x, x ∈ l → is_ok (f x) = true) → is_ok (mapM f l) = true.
Proof.
  induction l as [|x l IH]; intros H; [reflexivity|].
  cbn. specialize (H x (list_elem_of_here _ _)) as Hx.
  destruct (f x) as [y|]; [|discriminate]. cbn.
  specialize (IH (λ y Hy, H y (list_elem_of_further _ _ _ Hy))).
  destruct (mapM f l); [reflexivity|discriminate].
Qed.

Lemma mapM_Raise_elem {A B} (f : A → result B) l x :
  x ∈ l → is_ok (f x) = false → is_ok (mapM f l) = false.
Proof.
  induction l as [|y l IH]; intros Hin Hx; [inversion Hin|].
  cbn. destruct (f y) as [b|] eqn:Hy; [|reflexivity]. cbn.
  assert (x ∈ l) as Hl.
  { apply elem_of_cons in Hin as [->|]; [|assumption].
    rewrite Hy in Hx. discriminate. }
  specialize (IH Hl Hx). destruct (mapM f l); [discriminate|reflexivity].
Qed.

Lemma mapM_fmap_Ok {A B} (g : B → result A) (h : A → B) l :
  (∀ x, x ∈ l → g (h x) = Ok x) → mapM g (map h l) = Ok l.
Proof.
  induction l as [|x l IH]; intros H; [reflexivity|].
  cbn. rewrite (H x) by constructor. cbn.
  rewrite IH by (intros y Hy; apply H; now constructor). reflexivity.
Qed.

Lemma mapM_app_Ok {A B} (f : A → result B) l1 l2 r1 r2 :
  mapM f l1 = Ok r1 → mapM f l2 = Ok r2 → mapM f (l1 ++ l2) = Ok (r1 ++ r2).
Proof.
  revert r1. induction l1 as [|x l1 IH]; intros r1 H1 H2.
  - injection H1 as <-. exact H2.
  - cbn in *. destruct (f x) as [y|]; [|discriminate]. cbn in *.
    destruct (mapM f l1) as [r|] eqn:E; [|discriminate]. cbn in *.
    injection H1 as <-. rewrite (IH r eq_refl H2). reflexivity.
Qed.

(** ** The order of [sorted] *)

Section sorting.
Import PySort.

#[local] Instance str_le_total : Total str_le.
Proof.
  intros a. unfold str_le. induction a as [|x a IH]; intros [|y b]; cbn; auto.
  destruct (N.ltb_spec x y), (N.ltb_spec y x), (N.eqb_spec x y),
    (N.eqb_spec y x); cbn; auto; try lia.
Qed.

#[local] Instance str_le_trans : Transitive str_le.
Proof.
  intros a. unfold str_le.
  induction a as [|x a IH]; intros [|y b] [|z c]; cbn; auto; try discriminate.
  destruct (N.ltb_spec x y), (N.ltb_spec y z), (N.ltb_spec x z),
    (N.eqb_spec x y), (N.eqb_spec y z), (N.eqb_spec x z);
    cbn; auto; try lia; try discriminate.
  apply IH.
Qed.

#[local] Instance str_le_antisymm : AntiSymm eq str_le.
Proof.
  intros a. unfold str_le.
  induction a as [|x a IH]; intros [|y b]; cbn; auto; try discriminate.
  destruct (N.ltb_spec x y), (N.ltb_spec y x), (N.eqb_spec x y),
    (N.eqb_spec y x); cbn; try lia; try discriminate.
  intros H1 H2. subst. f_equal. now apply IH.
Qed.

#[local] Instance Z_le_antisymm : AntiSymm eq Z.le.
Proof. intros x y; lia. Qed.

Lemma sorted_str_Permutation l : sorted_str l ≡ₚ l.
Proof. apply merge_sort_Permutation. Qed.

Lemma sorted_str_Sorted l : Sorted str_le (sorted_str l).
Proof. apply Sorted_merge_sort, _. Qed.

Lemma sorted_str_proper l1 l2 : l1 ≡ₚ l2 → sorted_str l1 = sorted_str l2.
Proof.
  intros H. apply (Sorted_unique str_le); try apply sorted_str_Sorted.
  now rewrite !sorted_str_Permutation.
Qed.


Lemma sorted_int_Permutation l : sorted_int l ≡ₚ l.
Proof. apply merge_sort_Permutation. Qed.

Lemma sorted_int_Sorted l : Sorted Z.le (sorted_int l).
Proof. apply Sorted_merge_sort, _. Qed.

Lemma sorted_int_proper l1 l2 : l1 ≡ₚ l2 → sorted_int l1 = sorted_int l2.
Proof.
  intros H. apply (Sorted_unique Z.le); try apply sorted_int_Sorted.
  now rewrite !sorted_int_Permutation.
Qed.

Lemma concat_concat_map {A} (g : A → list str) l :
  concat (concat (map g l)) = concat (map (λ x, concat (g x)) l).
Proof.
  induction l as [|x l IH]; [reflexivity|].
  cbn. now rewrite concat_app, IH.
Qed.

Lemma concat_all_nil (l : list str) : Forall (λ x, x = []) l → concat l = [].
Proof. induction 1 as [|x l -> _ IH]; [reflexivity|exact IH]. Qed.
End sorting.

(** ** Strings *)

Section strings.
Import Py.

Lemma lstrip_clean s : clean_head s = true → lstrip s = s.
Proof. destruct s as [|c s]; cbn; [auto|]. now destruct (is_space c). Qed.

Lemma rstrip_clean s : clean_head (rev s) = true → rstrip s = s.
Proof. intros H. unfold rstrip. rewrite lstrip_clean by exact H. apply rev_involutive. Qed.

Lemma strip_clean s :
  clean_head s = true → clean_head (rev s) = true → strip s = s.
Proof. intros H1 H2. unfold strip. rewrite lstrip_clean by exact H1. now apply rstrip_clean. Qed.

Lemma clean_head_Forall s :
  Forall (λ c, is_space c = false) s → clean_head s = true.
Proof. destruct 1 as [|c s Hc _]; cbn; [reflexivity|]. now rewrite Hc. Qed.

Lemma strip_no_space s : Forall (λ c, is_space c = false) s → strip s = s.
Proof.
  intros H. apply strip_clean; apply clean_head_Forall; [exact H|].
  now apply Forall_rev.
Qed.
End strings.

Section ints.
Import PyInt.

Lemma uint_digits_is_digit d : Forall (λ c, is_digit c = true) (uint_digits d).
Proof. induction d; cbn; constructor; auto. Qed.


Lemma is_digit_not_space c : is_digit c = true → Py.is_space c = false.
Proof.
  unfold is_digit, Py.is_space. intros H.
  apply andb_true_iff in H as [H1%N.leb_le H2%N.leb_le].
  repeat match goal with
  | |- context [N.leb ?a ?b] => destruct (N.leb_spec a b); try lia
  | |- context [N.eqb ?a ?b] => destruct (N.eqb_spec a b); try lia
  end; reflexivity.
Qed.

Lemma literal_digits_uint d : literal_digits true (uint_digits d) = Some d.
Proof. induction d; cbn; lits; cbn; [reflexivity|..]; now rewrite IHd. Qed.

Lemma int_of_uint_digits d :
  d ≠ Decimal.Nil → int_of_str (uint_digits d) = Ok (Z.of_N (N.of_uint d)).
Proof.
  intros Hd. unfold int_of_str.
  rewrite strip_no_space.
  2:{ eapply Forall_impl; [apply uint_digits_is_digit|]. apply is_digit_not_space. }
  destruct d; [congruence|..]; cbn -[N.of_uint]; lits; cbn -[N.of_uint];
    now rewrite literal_digits_uint.
Qed.

Lemma int_of_minus_uint_digits d :
  d ≠ Decimal.Nil →
  int_of_str (ch "-" :: uint_digits d) = Ok (- Z.of_N (N.of_uint d))%Z.
Proof.
  intros Hd. unfold int_of_str.
  rewrite strip_no_space.
  2:{ constructor; [reflexivity|].
      eapply Forall_impl; [apply uint_digits_is_digit|]. apply is_digit_not_space. }
  lits. cbn -[N.of_uint].
  destruct d; [congruence|..]; cbn -[N.of_uint]; lits; cbn -[N.of_uint];
    now rewrite literal_digits_uint.
Qed.

Lemma int_of_str_of_int t : int_of_str (str_of_int t) = Ok t.
Proof.
  unfold str_of_int. destruct t as [|p|p]; cbn [Z.to_int].
  - reflexivity.
  - rewrite int_of_uint_digits by apply DecimalPos.Unsigned.to_uint_nonnil.
    unfold N.of_uint. now rewrite DecimalPos.Unsigned.of_to.
  - rewrite int_of_minus_uint_digits by apply DecimalPos.Unsigned.to_uint_nonnil.
    unfold N.of_uint. now rewrite DecimalPos.Unsigned.of_to.
Qed.
End ints.

(** ** Subfields *)

Section subfields.
Import IDFile.

Lemma contains_code c :
  Py.contains [c] (u "abcdefghijklmnopqrstuvwxyz123456789") = is_subfield_code c.
Proof.
  lits. cbn. unfold is_subfield_code.
  repeat match goal with
  | |- context [N.eqb c ?n] =>
      destruct (N.eqb_spec c n) as [->|]; [reflexivity|]
  end.
  cbn.
  repeat match goal with
  | |- context [N.leb ?a ?b] => destruct (N.leb_spec a b); try lia
  end; reflexivity.
Qed.


Lemma format_subfields_unfold d :
  _format_subfields d =
  format_value (main_value d) ++ concat (PySort.sorted_str (map token (map_to_list d))).
Proof. reflexivity. Qed.

Lemma format_subfields_listing d items :
  items ≡ₚ map_to_list d →
  _format_subfields d =
  format_value (main_value d) ++ concat (PySort.sorted_str (map token items)).
Proof.
  intros H. rewrite format_subfields_unfold. do 2 f_equal.
  apply sorted_str_proper. now rewrite H.
Qed.




End subfields.

(** ** Fields *)

Section fields.
Import IDFile.

Lemma record_all_lookup (P : str → field → bool) (r : record) k v :
  record_all P r = true → r !! k = Some v → P k v = true.
Proof.
  unfold record_all. rewrite forallb_forall. intros H Hk.
  apply (H (k, v)). apply list_elem_of_In, elem_of_map_to_list, Hk.
Qed.

Lemma canonical_key_spec k :
  canonical_key k = true →
  PyInt.int_of_str k = Ok (key_int k) ∧ PyInt.str_of_int (key_int k) = k.
Proof.
  unfold canonical_key, key_int. destruct (PyInt.int_of_str k); [|discriminate].
  intros H%bool_decide_eq_true. auto.
Qed.

Lemma canonical_key_str_of_int t : canonical_key (PyInt.str_of_int t) = true.
Proof.
  unfold canonical_key. rewrite int_of_str_of_int. now apply bool_decide_eq_true.
Qed.

Lemma key_int_str_of_int t : key_int (PyInt.str_of_int t) = t.
Proof. unfold key_int. now rewrite int_of_str_of_int. Qed.

Lemma tag_content_in_range tag value :
  canonical_key tag = true → tag_in_range (key_int tag) = true →
  _tag_content tag value = Ok (line tag value).
Proof.
  intros [Hk _]%canonical_key_spec Hr. unfold _tag_content, tag_in_range in *.
  rewrite Hk. cbn. rewrite Hr. cbn. now destruct value.
Qed.

Lemma tag_content_out_of_range tag value :
  canonical_key tag = true → tag_in_range (key_int tag) = false →
  _tag_content tag value = Raise ValueError.
Proof.
  intros [Hk _]%canonical_key_spec Hr. unfold _tag_content, tag_in_range in *.
  rewrite Hk. cbn. now rewrite Hr.
Qed.

Lemma format_subfields_main_only s :
  _format_subfields {[ u "_" := SStr s ]} = format_value (SStr s).
Proof.
  assert (Py.contains (u "_") (u "abcdefghijklmnopqrstuvwxyz123456789") = false)
    as Hc by reflexivity.
  rewrite format_subfields_unfold, map_to_list_singleton. cbn [map].
  unfold token, _format_subfield. cbn [fst snd]. rewrite Hc, andb_false_r.
  change (PySort.sorted_str [[]]) with [@nil N].
  unfold main_value. rewrite lookup_singleton_eq. cbn [concat app].
  rewrite app_nil_r. now destruct s.
Qed.

Lemma tag_occ_falsy tag o : occurrence_true o = false → _tag_occ tag o = Ok [].
Proof. intros H. unfold _tag_occ. now rewrite H. Qed.

Lemma tag_occ_content tag o :
  occurrence_true o = true → occurrence_typed o = true →
  _tag_occ tag o = _tag_content tag (render o).
Proof.
  intros H Ht. unfold _tag_occ, render. rewrite H. cbn.
  destruct o as [s|d|[|]]; try discriminate; [|reflexivity].
  now rewrite format_subfields_main_only.
Qed.

Lemma tag_occ_in_range tag o :
  canonical_key tag = true → tag_in_range (key_int tag) = true →
  occurrence_typed o = true →
  _tag_occ tag o = Ok (line tag (render o)).
Proof.
  intros Hk Hr Ht. destruct (occurrence_true o) eqn:E.
  - rewrite tag_occ_content by assumption. now apply tag_content_in_range.
  - rewrite tag_occ_falsy by assumption. unfold render. now rewrite E.
Qed.

Lemma tag_data_occurrences tag f g :
  (∀ o, o ∈ occurrences f → _tag_occ tag o = Ok (g o)) →
  ∃ items, _tag_data tag f = Ok items
           ∧ concat items = concat (map g (occurrences f)).
Proof.
  intros H. unfold _tag_data. destruct (field_true f) eqn:E; cbn.
  - exists (map g (occurrences f)). split; [|reflexivity].
    replace (match f with FOcc o => [o] | FList l => l end) with (occurrences f)
      by now destruct f.
    now apply mapM_Ok_map.
  - exists []. split; [reflexivity|].
    destruct f as [o|[|]]; try discriminate; [|reflexivity].
    cbn in *. specialize (H o (list_elem_of_here _ _)).
    rewrite tag_occ_falsy in H by exact E. injection H as <-. reflexivity.
Qed.

Lemma tag_data_in_range tag f :
  canonical_key tag = true → tag_in_range (key_int tag) = true →
  field_typed f = true →
  ∃ items, _tag_data tag f = Ok items ∧ concat items = field_lines tag f.
Proof.
  intros Hk Hr Ht. apply tag_data_occurrences. intros o Ho.
  apply tag_occ_in_range; try assumption.
  unfold field_typed in Ht. rewrite forallb_forall in Ht.
  apply Ht, list_elem_of_In, Ho.
Qed.

Lemma tag_data_void tag f :
  field_void f = true →
  ∃ items, _tag_data tag f = Ok items ∧ concat items = [].
Proof.
  intros Hv. unfold field_void in Hv. rewrite forallb_forall in Hv.
  destruct (tag_data_occurrences tag f (λ _, [])) as (items & H1 & H2).
  - intros o Ho. apply tag_occ_falsy.
    specialize (Hv o (proj1 (list_elem_of_In _ _) Ho)).
    now apply negb_true_iff in Hv.
  - exists items. split; [exact H1|]. rewrite H2.
    apply concat_all_nil, Forall_forall. intros x Hx.
    apply list_elem_of_fmap in Hx as (? & -> & _). reflexivity.
Qed.

Lemma tag_data_out_of_range tag f :
  canonical_key tag = true → tag_in_range (key_int tag) = false →
  field_typed f = true → field_void f = false →
  _tag_data tag f = Raise ValueError.
Proof.
  intros Hk Hr Ht Hv. unfold _tag_data.
  assert (field_true f = true) as ->.
  { destruct f as [o|[|]]; cbn in *; try discriminate; [|reflexivity].
    rewrite andb_true_r in Hv. now apply negb_false_iff in Hv. }
  cbn.
  replace (match f with FOcc o => [o] | FList l => l end) with (occurrences f)
    by now destruct f.
  unfold field_typed, field_void in *.
  induction (occurrences f) as [|o l IH]; [discriminate|].
  cbn in Ht, Hv. apply andb_true_iff in Ht as [Ho Hl].
  cbn. destruct (occurrence_true o) eqn:E.
  - rewrite tag_occ_content, tag_content_out_of_range by assumption. reflexivity.
  - rewrite tag_occ_falsy by assumption. cbn in *. now rewrite IH.
Qed.
End fields.

(** ** Records and files *)

Section records.
Import IDFile.

Lemma raises_only_bind {A B} P (m : result A) (f : A → result B) :
  raises_only P m → (∀ a, m = Ok a → raises_only P (f a)) →
  raises_only P (m ≫= f).
Proof. destruct m; cbn; auto. Qed.

Lemma raises_only_mapM {A B} P (f : A → result B) l :
  (∀ x, x ∈ l → raises_only P (f x)) → raises_only P (mapM f l).
Proof.
  induction l as [|x l IH]; intros H; [exact I|].
  cbn. apply raises_only_bind; [apply H; constructor|]. intros y _.
  apply raises_only_bind; [|intros; exact I].
  apply IH. intros z Hz. apply H. now constructor.
Qed.

Lemma mapM_int_of_str l r :
  mapM PyInt.int_of_str l = Ok r → r = map key_int l.
Proof.
  revert r. induction l as [|k l IH]; intros r H.
  - now injection H as <-.
  - cbn in H.
    destruct (PyInt.int_of_str k) as [t|] eqn:Ek; [|discriminate]. cbn in H.
    destruct (mapM PyInt.int_of_str l) as [r'|]; [|discriminate].
    injection H as <-. cbn [map]. f_equal; [|now apply IH].
    unfold key_int. now rewrite Ek.
Qed.

Lemma mapM_int_of_str_canonical l :
  (∀ k, k ∈ l → canonical_key k = true) →
  mapM PyInt.int_of_str l = Ok (map key_int l).
Proof.
  intros H. apply mapM_Ok_map. intros k Hk.
  now destruct (canonical_key_spec k (H k Hk)).
Qed.

Lemma elem_of_tags (r : record) t :
  t ∈ tags r → ∃ k v, r !! k = Some v ∧ key_int k = t.
Proof.
  unfold tags. rewrite sorted_int_Permutation.
  intros (k & -> & ([k' v] & -> & Hkv)%list_elem_of_fmap)%list_elem_of_fmap.
  exists k', v. split; [|reflexivity]. now apply elem_of_map_to_list.
Qed.

Lemma tags_elem_of (r : record) k v : r !! k = Some v → key_int k ∈ tags r.
Proof.
  intros H. unfold tags. rewrite sorted_int_Permutation.
  apply list_elem_of_fmap. exists k. split; [reflexivity|].
  apply list_elem_of_fmap. exists (k, v). split; [reflexivity|].
  now apply elem_of_map_to_list.
Qed.

Lemma field_of_lookup (r : record) k v : r !! k = Some v → field_of r k = v.
Proof. intros H. unfold field_of. now rewrite H. Qed.

Lemma format_record_empty s : _format_record s ∅ = Ok [].
Proof. reflexivity. Qed.

Lemma format_record_unfold (r : record) :
  _format_record new r =
  tags ← mapM PyInt.int_of_str (map fst (map_to_list r));
  items ← mapM (λ tag_i,
                  let tag := PyInt.str_of_int tag_i in
                  match r !! tag with
                  | Some data => _tag_data tag data
                  | None => Raise KeyError
                  end) (PySort.sorted_int tags);
  Ok (concat (concat items)).
Proof.
  unfold _format_record. case_bool_decide as E; [|reflexivity].
  subst r. rewrite map_to_list_empty. reflexivity.
Qed.

Lemma format_record_lines (r : record) (h : str → field → str) :
  (∀ k v, r !! k = Some v →
     canonical_key k = true
     ∧ ∃ items, _tag_data k v = Ok items ∧ concat items = h k v) →
  _format_record new r =
  Ok (concat (map (λ t, h (PyInt.str_of_int t) (field_of r (PyInt.str_of_int t)))
                  (tags r))).
Proof.
  intros H. rewrite format_record_unfold.
  rewrite mapM_int_of_str_canonical.
  2:{ intros k ([k' v] & -> & Hkv%elem_of_map_to_list)%list_elem_of_fmap.
      now destruct (H _ _ Hkv). }
  cbn. fold (tags r).
  set (g := λ t, match _tag_data (PyInt.str_of_int t)
                       (field_of r (PyInt.str_of_int t)) with
                 | Ok items => items | Raise _ => [] end).
  rewrite (mapM_Ok_map _ g).
  - cbn. f_equal. rewrite concat_concat_map. f_equal.
    apply map_ext_in. intros t Ht%list_elem_of_In.
    destruct (elem_of_tags _ _ Ht) as (k & v & Hkv & <-).
    destruct (H _ _ Hkv) as (Hc & items & Hi & Hh).
    unfold g. destruct (canonical_key_spec _ Hc) as [_ ->].
    rewrite (field_of_lookup _ _ _ Hkv), Hi. exact Hh.
  - intros t Ht. destruct (elem_of_tags _ _ Ht) as (k & v & Hkv & <-).
    destruct (H _ _ Hkv) as (Hc & items & Hi & Hh).
    unfold g. destruct (canonical_key_spec _ Hc) as [_ ->].
    rewrite (field_of_lookup _ _ _ Hkv), Hkv, Hi. reflexivity.
Qed.

Lemma format_record_raise (s : self) (r : record) k v :
  r !! k = Some v → canonical_key k = true →
  is_ok (_tag_data k v) = false →
  is_ok (_format_record s r) = false.
Proof.
  intros Hkv Hc Hf. unfold _format_record.
  case_bool_decide as E; [subst r; now rewrite lookup_empty in Hkv|]. cbn.
  destruct (mapM PyInt.int_of_str _) as [ts|] eqn:Ets; [|reflexivity]. cbn.
  apply mapM_int_of_str in Ets as ->. fold (tags r).
  match goal with |- is_ok (?m ≫= _) = false =>
    assert (is_ok m = false) as Hm end.
  { apply (mapM_Raise_elem _ _ (key_int k)); [now apply (tags_elem_of r k v)|].
    destruct (canonical_key_spec _ Hc) as [_ ->]. now rewrite Hkv. }
  match goal with |- is_ok (?m ≫= _) = false => destruct m end;
    [discriminate|reflexivity].
Qed.
End records.

Section files.
Import IDFile.

Lemma format_id_valid index :
  (1 ≤ index ≤ 999999)%Z → _format_id index = Ok (id_line index).
Proof.
  intros H. unfold _format_id, VALID_ID_RANGE.
  destruct (Z.leb_spec 1 index); [|lia].
  destruct (Z.ltb_spec index (10 ^ Z.of_nat MAX_DIGITS_QTD)); [reflexivity|].
  change (10 ^ Z.of_nat MAX_DIGITS_QTD)%Z with 1000000%Z in *. lia.
Qed.

Lemma format_id_invalid index :
  (999999 < index)%Z → _format_id index = Raise IndexError.
Proof.
  intros H. unfold _format_id, VALID_ID_RANGE.
  destruct (Z.ltb_spec index (10 ^ Z.of_nat MAX_DIGITS_QTD)) as [H'|];
    [|now rewrite andb_false_r].
  change (10 ^ Z.of_nat MAX_DIGITS_QTD)%Z with 1000000%Z in *. lia.
Qed.

Lemma format_file_from_too_long s index records :
  (index ≤ 999999 < index + Z.of_nat (length records))%Z →
  is_ok (_format_file_from s index records) = false.
Proof.
  revert index. induction records as [|r records IH]; intros index H.
  - cbn in H. lia.
  - cbn [_format_file_from].
    destruct (Z.le_gt_cases (index + 1) 999999) as [Hi|Hi].
    + destruct (_format_id (index + 1)); [|reflexivity]. cbn.
      destruct (_format_record s r); [|reflexivity]. cbn.
      rewrite length_cons in H.
      specialize (IH (index + 1)%Z ltac:(lia)).
      destruct (_format_file_from s (index + 1) records); [discriminate|reflexivity].
    + rewrite format_id_invalid by lia. reflexivity.
Qed.

Lemma format_file_from_raise s index records r :
  r ∈ records → is_ok (_format_record s r) = false →
  is_ok (_format_file_from s index records) = false.
Proof.
  revert index. induction records as [|r' records IH]; intros index Hin Hr.
  - inversion Hin.
  - cbn [_format_file_from].
    destruct (_format_id (index + 1)); [|reflexivity]. cbn.
    destruct (_format_record s r') eqn:E; [|reflexivity]. cbn.
    apply elem_of_cons in Hin as [->|Hin]; [rewrite E in Hr; discriminate|].
    specialize (IH (index + 1)%Z Hin Hr).
    destruct (_format_file_from s (index + 1) records); [discriminate|reflexivity].
Qed.

Lemma is_ok_format_file s records :
  is_ok (_format_file s records) = is_ok (_format_file_from s 0 records).
Proof. unfold _format_file. now destruct (_format_file_from s 0 records). Qed.

Lemma int_of_str_raises s : raises_only (eq ValueError) (PyInt.int_of_str s).
Proof.
  unfold PyInt.int_of_str.
  destruct (match Py.strip s with [] => _ | _ => _ end) as [neg ds].
  now destruct (PyInt.literal_digits false ds).
Qed.

Lemma tag_content_raises tag value :
  raises_only (eq ValueError) (_tag_content tag value).
Proof.
  unfold _tag_content. apply raises_only_bind; [apply int_of_str_raises|].
  intros t _. destruct (negb _); [reflexivity|]. now destruct value.
Qed.

Lemma tag_data_raises tag f :
  field_typed f = true → raises_only (eq ValueError) (_tag_data tag f).
Proof.
  intros Ht. unfold _tag_data. destruct (negb (field_true f)); [exact I|].
  replace (match f with FOcc o => [o] | FList l => l end) with (occurrences f)
    by now destruct f.
  apply raises_only_mapM. intros o Ho.
  unfold field_typed in Ht. rewrite forallb_forall in Ht.
  specialize (Ht o (proj1 (list_elem_of_In _ _) Ho)).
  unfold _tag_occ. destruct (negb (occurrence_true o)) eqn:E; [exact I|].
  destruct o as [x|d|[|]]; try apply tag_content_raises; discriminate.
Qed.

Lemma format_record_raises (s : self) (r : record) :
  record_typed r = true → raises_only (eq ValueError) (_format_record s r).
Proof.
  intros Hr. unfold _format_record. destruct (negb _); [|exact I].
  apply raises_only_bind.
  { apply raises_only_mapM. intros; apply int_of_str_raises. }
  intros ts Hts%mapM_int_of_str. subst ts. fold (tags r).
  apply raises_only_bind; [|intros; exact I].
  apply raises_only_mapM. intros t Ht.
  destruct (elem_of_tags _ _ Ht) as (k & v & Hkv & <-).
  pose proof (record_all_lookup _ _ _ _ Hr Hkv) as [Hc Hty]%andb_true_iff.
  cbn. destruct (canonical_key_spec _ Hc) as [_ ->]. rewrite Hkv.
  now apply tag_data_raises.
Qed.

Lemma format_file_from_raises s index records :
  Forall (λ r, record_typed r = true) records →
  raises_only range_error (_format_file_from s index records).
Proof.
  intros H. revert index. induction H as [|r records Hr _ IH]; intros index.
  - exact I.
  - cbn [_format_file_from]. apply raises_only_bind.
    { unfold _format_id. destruct (VALID_ID_RANGE _); [exact I|now left]. }
    intros a _. apply raises_only_bind.
    { pose proof (format_record_raises s r Hr) as Hv.
      destruct (_format_record s r); [exact I|]. right. now symmetry. }
    intros b _. apply raises_only_bind; [apply IH|]. intros; exact I.
Qed.

Lemma format_file_raises s records :
  Forall (λ r, record_typed r = true) records →
  raises_only range_error (_format_file s records).
Proof.
  intros H. unfold _format_file. apply raises_only_bind; [|intros; exact I].
  now apply format_file_from_raises.
Qed.

Lemma write_content_raise s records e :
  _format_file s records = Raise e → write_content s records = Raise e.
Proof. intros H. unfold write_content. now rewrite H. Qed.

Lemma write_raise s filename records w e :
  _format_file s records = Raise e →
  ∃ e' w', write s filename records w = (Raise e', w')
           ∧ OS.files w' = OS.files w ∧ OS.stdout w' = OS.stdout w.
Proof.
  intros H%write_content_raise. unfold write. rewrite H.
  destruct (OS.isdir (OS.dirname filename) w); [now exists e, w|].
  unfold OS.makedirs. destruct (OS.dirname filename) as [|c p].
  - now exists FileNotFoundError, w.
  - case_bool_decide; [now exists FileExistsError, w|].
    eexists e, _. split; [reflexivity|]. now split.
Qed.
End files.

(** ** The parser *)

Section parser.
Import IDFile.

Lemma get_record_data_loop_spec fields data :
  _get_record_data_loop data fields =
  match mapM field_tag_and_data fields with
  | Ok parsed => Ok (foldl accumulate data parsed)
  | Raise e => Raise e
  end.
Proof.
  revert data. induction fields as [|f fields IH]; intros data; [reflexivity|].
  cbn [_get_record_data_loop mapM].
  destruct (PyInt.int_of_str (take 3 f)) as [t|] eqn:E1.
  2:{ assert (field_tag_and_data f = Raise e) as ->; [|reflexivity].
      unfold field_tag_and_data. now rewrite E1. }
  destruct (_get_field_data (Py.strip (drop 4 f))) as [o|] eqn:E2.
  2:{ assert (field_tag_and_data f = Raise e) as ->; [|reflexivity].
      unfold field_tag_and_data. rewrite E1. cbn. now rewrite E2. }
  assert (field_tag_and_data f = Ok (PyInt.str_of_int t, o)) as ->.
  { unfold field_tag_and_data. rewrite E1. cbn. now rewrite E2. }
  cbn. rewrite IH. now destruct (mapM field_tag_and_data fields).
Qed.

Lemma occurrences_of_cons tag p parsed :
  occurrences_of tag (p :: parsed) =
  if decide (p.1 = tag) then p.2 :: occurrences_of tag parsed
  else occurrences_of tag parsed.
Proof.
  unfold occurrences_of. rewrite filter_cons. now case_decide.
Qed.

Lemma foldl_accumulate_lookup parsed data tag :
  foldl accumulate data parsed !! tag =
  match occurrences_of tag parsed with
  | [] => data !! tag
  | occs => Some (default [] (data !! tag) ++ occs)
  end.
Proof.
  revert data. induction parsed as [|p parsed IH]; intros data; [reflexivity|].
  cbn [foldl]. rewrite IH, occurrences_of_cons. unfold accumulate.
  case_decide as E.
  - subst tag. rewrite lookup_insert_eq. cbn.
    destruct (occurrences_of p.1 parsed); [reflexivity|].
    now rewrite <- app_assoc.
  - now rewrite lookup_insert_ne.
Qed.

Lemma collapse_lookup parsed tag :
  (collapse <$> foldl accumulate ∅ parsed) !! tag =
  match occurrences_of tag parsed with
  | [] => None
  | [o] => Some (FOcc o)
  | occs => Some (FList occs)
  end.
Proof.
  rewrite lookup_fmap, foldl_accumulate_lookup, lookup_empty.
  now destruct (occurrences_of tag parsed) as [|o [|]].
Qed.
End parser.

(** ** Scanning: [startswith], [replace], [split] *)

Section scanning.
Import Py.

Lemma startswith_app p s : startswith p (p ++ s) = true.
Proof. induction p as [|a p IH]; cbn; [reflexivity|]. now rewrite N.eqb_refl. Qed.

Lemma startswith_nil_r p : startswith p [] = bool_decide (p = []).
Proof. now destruct p. Qed.

Lemma startswith_head a p c s : c ≠ a → startswith (a :: p) (c :: s) = false.
Proof. intros H. cbn. destruct (N.eqb_spec a c); [congruence|reflexivity]. Qed.

Lemma contains_cons p c s :
  contains p (c :: s) = startswith p (c :: s) || contains p s.
Proof. reflexivity. Qed.

Lemma contains_false_cons p c s :
  contains p (c :: s) = false → startswith p (c :: s) = false ∧ contains p s = false.
Proof. rewrite contains_cons. now intros ?%orb_false_iff. Qed.

Lemma replace_from_skip old new k s :
  replace_from old new k s = replace_from old new 0 (drop k s).
Proof.
  revert k. induction s as [|c s IH]; intros [|k]; try reflexivity.
  cbn [replace_from drop]. apply IH.
Qed.

Lemma replace_nil old new : replace old new [] = [].
Proof. reflexivity. Qed.

Lemma replace_cons_no old new c s :
  startswith old (c :: s) = false →
  replace old new (c :: s) = c :: replace old new s.
Proof. intros H. unfold replace. cbn [replace_from]. now rewrite H. Qed.

Lemma replace_prefix old new s :
  old ≠ [] → replace old new (old ++ s) = new ++ replace old new s.
Proof.
  intros H. unfold replace. destruct old as [|a old]; [congruence|].
  pose proof (startswith_app (a :: old) s) as Hs.
  cbn [app replace_from] in *. rewrite Hs.
  f_equal. rewrite replace_from_skip. cbn [length].
  replace (S (length old) - 1)%nat with (length old) by lia.
  now rewrite drop_app_length.
Qed.

Lemma replace_Forall (Q : N → Prop) old new s :
  Forall Q new → Forall Q s → Forall Q (replace old new s).
Proof.
  intros Hn. unfold replace. generalize 0%nat.
  induction s as [|c s IH]; intros k Hs; [constructor|].
  apply Forall_cons in Hs as [Hc Hs]. cbn [replace_from].
  destruct k; [|now apply IH].
  destruct (startswith old (c :: s)).
  - apply Forall_app. split; [exact Hn|now apply IH].
  - constructor; [exact Hc|now apply IH].
Qed.

Lemma split_from_skip sep k s :
  split_from sep k s = split_from sep 0 (drop k s).
Proof.
  revert k. induction s as [|c s IH]; intros [|k]; try reflexivity.
  cbn [split_from drop]. apply IH.
Qed.

Lemma split_nil sep : split sep [] = [[]].
Proof. reflexivity. Qed.

Lemma split_cons_no sep c s :
  startswith sep (c :: s) = false →
  split sep (c :: s) =
  match split sep s with w :: ws => (c :: w) :: ws | [] => [[c]] end.
Proof. intros H. unfold split. cbn [split_from]. now rewrite H. Qed.

Lemma split_prefix sep s :
  sep ≠ [] → split sep (sep ++ s) = [] :: split sep s.
Proof.
  intros H. unfold split. destruct sep as [|a sep]; [congruence|].
  pose proof (startswith_app (a :: sep) s) as Hs.
  cbn [app split_from] in *. rewrite Hs.
  f_equal. rewrite split_from_skip. cbn [length].
  replace (S (length sep) - 1)%nat with (length sep) by lia.
  now rewrite drop_app_length.
Qed.

Lemma split_from_nonempty sep k s : split_from sep k s ≠ [].
Proof.
  revert k. induction s as [|c s IH]; intros k; [discriminate|].
  cbn [split_from]. destruct k; [|apply IH].
  destruct (startswith sep (c :: s)); [discriminate|].
  now destruct (split_from sep 0 s).
Qed.

Lemma split_app_free sep a s :
  free sep a s = true →
  split sep (a ++ s) =
  match split sep s with w :: ws => (a ++ w) :: ws | [] => [a] end.
Proof.
  induction a as [|c a IH]; intros H.
  - cbn [app]. pose proof (split_from_nonempty sep 0 s) as Hn.
    unfold split. now destruct (split_from sep 0 s).
  - cbn [free] in H. apply andb_true_iff in H as [H1%negb_true_iff H2].
    cbn [app] in *. rewrite split_cons_no by exact H1.
    rewrite (IH H2). now destruct (split sep s).
Qed.

Lemma free_head sep a s :
  match sep with
  | [] => False
  | x :: _ => Forall (λ c, c ≠ x) a
  end → free sep a s = true.
Proof.
  destruct sep as [|x sep]; [tauto|].
  induction 1 as [|c a Hc _ IH]; [reflexivity|].
  cbn [free app]. now rewrite startswith_head, IH.
Qed.
End scanning.

(** ** Normalized values *)

Section normalized.
Import Py.

Lemma split_ws_cons c s :
  split_ws (c :: s) =
  if is_space c then split_ws s
  else match s with
       | [] => [[c]]
       | d :: _ =>
           if is_space d then [c] :: split_ws s
           else match split_ws s with
                | w :: ws => (c :: w) :: ws
                | [] => [[c]]
                end
       end.
Proof. reflexivity. Qed.

Lemma split_ws_words s : Forall word (split_ws s).
Proof.
  induction s as [|c s IH]; [constructor|].
  rewrite split_ws_cons. destruct (is_space c) eqn:Ec; [exact IH|].
  assert (word [c]) as Hc by (split; [discriminate|now constructor]).
  destruct s as [|d s']; [now constructor|].
  destruct (is_space d); [now constructor|].
  destruct (split_ws (d :: s')) as [|w ws]; [now constructor|].
  apply Forall_cons in IH as [[Hw1 Hw2] Hws]. constructor; [|exact Hws].
  split; [discriminate|now constructor].
Qed.

Lemma join_cons sep x l :
  join sep (x :: l) = match l with [] => x | _ => x ++ sep ++ join sep l end.
Proof. reflexivity. Qed.

Lemma clean_head_app a b : a ≠ [] → clean_head (a ++ b) = clean_head a.
Proof. now destruct a. Qed.

Lemma word_clean w : word w → clean_head w = true ∧ clean_head (rev w) = true.
Proof.
  intros [_ H]. split; apply clean_head_Forall; [exact H|now apply Forall_rev].
Qed.

Lemma join_words ws :
  Forall word ws →
  let j := join (u " ") ws in
  (ws ≠ [] → j ≠ [])
  ∧ clean_head j = true ∧ clean_head (rev j) = true
  ∧ Forall (λ c, is_space c = false ∨ c = 32) j.
Proof.
  induction 1 as [|w ws Hw Hws IH]; [now repeat split|].
  cbn zeta in *. rewrite join_cons. destruct Hw as [Hn Hw].
  destruct ws as [|w' ws].
  - repeat split; [intros _; exact Hn|now apply clean_head_Forall
                  |apply clean_head_Forall; now apply Forall_rev|].
    eapply Forall_impl; [exact Hw|]. now left.
  - destruct IH as (Hj & H1 & H2 & H3). specialize (Hj ltac:(discriminate)).
    repeat split.
    + intros _. now destruct w.
    + rewrite clean_head_app by exact Hn. now apply clean_head_Forall.
    + rewrite !rev_app_distr. rewrite <- app_assoc.
      rewrite clean_head_app; [exact H2|].
      intros E. apply Hj. apply (f_equal (@rev N)) in E.
      now rewrite rev_involutive in E.
    + apply Forall_app. split.
      * eapply Forall_impl; [exact Hw|]. now left.
      * apply Forall_app. split; [|exact H3]. constructor; [now right|constructor].
Qed.

Lemma normalized_facts s :
  let j := remove_break_lines_characters s in
  strip j = j ∧ clean_head j = true ∧ clean_head (rev j) = true
  ∧ Forall (λ c, is_space c = false ∨ c = 32) j.
Proof.
  cbn zeta. unfold remove_break_lines_characters.
  destruct (join_words _ (split_ws_words s)) as (_ & H1 & H2 & H3).
  repeat split; try assumption. now apply strip_clean.
Qed.
End normalized.

(** ** The placeholder of the circumflex *)

Section placeholder.
Import Py.

Lemma escape_circ_nil : escape_circ [] = [].
Proof. reflexivity. Qed.

Lemma escape_circ_cons c v :
  escape_circ (c :: v) =
  if c =? 94 then PRESERVECIRC ++ escape_circ v else c :: escape_circ v.
Proof.
  unfold escape_circ, replace. cbn [replace_from]. lits. cbn [startswith length].
  rewrite andb_true_r, N.eqb_sym. now destruct (c =? 94).
Qed.

Lemma escape_circ_Forall (Q : N → Prop) v :
  Forall Q PRESERVECIRC → Forall Q v → Forall Q (escape_circ v).
Proof. apply replace_Forall. Qed.

Lemma escape_circ_no_circ v : Forall (λ c, c ≠ 94) (escape_circ v).
Proof.
  induction v as [|c v IH]; [constructor|]. rewrite escape_circ_cons.
  destruct (N.eqb_spec c 94).
  - apply Forall_app. split; [|exact IH].
    unfold PRESERVECIRC. lits. repeat constructor; discriminate.
  - now constructor.
Qed.

Lemma escape_circ_nonempty v : v ≠ [] → escape_circ v ≠ [].
Proof.
  destruct v as [|c v]; [congruence|]. intros _. rewrite escape_circ_cons.
  now destruct (c =? 94).
Qed.

(** A pattern without [^] and without [[] matches the escaped text where it
    matches the text. *)
Lemma startswith_escape p s :
  Forall (λ c, c ≠ 94 ∧ c ≠ 91) p →
  startswith p (escape_circ s) = startswith p s.
Proof.
  intros Hp. revert s. induction Hp as [|a p [Ha1 Ha2] _ IH]; intros s; [reflexivity|].
  destruct s as [|c s]; [reflexivity|]. rewrite escape_circ_cons.
  destruct (N.eqb_spec c 94) as [->|Hc].
  - unfold PRESERVECIRC. lits. cbn [app startswith].
    destruct (N.eqb_spec a 91); [congruence|].
    destruct (N.eqb_spec a 94); [congruence|]. reflexivity.
  - cbn [startswith]. now rewrite IH.
Qed.

Lemma contains_app_head x p a t :
  Forall (λ c, c ≠ x) a → contains (x :: p) (a ++ t) = contains (x :: p) t.
Proof.
  induction 1 as [|c a Hc _ IH]; [reflexivity|].
  cbn [app]. now rewrite contains_cons, startswith_head, IH.
Qed.

Lemma contains_escape x p v :
  Forall (λ c, c ≠ 94 ∧ c ≠ 91) (x :: p) →
  Forall (λ c, c ≠ x) PRESERVECIRC →
  contains (x :: p) v = false → contains (x :: p) (escape_circ v) = false.
Proof.
  intros Hp Hx. induction v as [|c v IH]; intros H; [exact H|].
  apply contains_false_cons in H as [H1 H2]. rewrite escape_circ_cons.
  destruct (N.eqb_spec c 94) as [->|Hc].
  - rewrite contains_app_head by exact Hx. now apply IH.
  - rewrite contains_cons, IH by exact H2. rewrite orb_false_r.
    rewrite <- H1. rewrite <- (startswith_escape (x :: p) (c :: v)) by exact Hp.
    rewrite escape_circ_cons. now destruct (N.eqb_spec c 94).
Qed.

Lemma unescape_escape_circ v :
  contains PRESERVECIRC v = false →
  replace PRESERVECIRC (u "^") (escape_circ v) = v.
Proof.
  induction v as [|c v IH]; intros H; [reflexivity|].
  apply contains_false_cons in H as [H1 H2]. rewrite escape_circ_cons.
  destruct (N.eqb_spec c 94) as [->|Hc].
  - rewrite replace_prefix by discriminate. now rewrite IH.
  - rewrite replace_cons_no; [now rewrite IH|].
    rewrite <- H1. unfold PRESERVECIRC. lits. cbn [startswith]. f_equal.
    apply (startswith_escape [80;82;69;83;69;82;86;69;67;73;82;67;93]).
    repeat constructor; discriminate.
Qed.

Lemma replace_cases old new s :
  old ≠ [] →
  s = []
  ∨ (∃ s', s = old ++ s' ∧ replace old new s = new ++ replace old new s')
  ∨ (∃ c s', s = c :: s' ∧ startswith old s = false
             ∧ replace old new s = c :: replace old new s').
Proof.
  intros Ho. destruct s as [|c s]; [now left|]. right.
  destruct (startswith old (c :: s)) eqn:E.
  - left. exists (drop (length old) (c :: s)).
    assert (c :: s = old ++ drop (length old) (c :: s)) as Hs.
    { clear Ho. revert E. generalize (c :: s). clear.
      induction old as [|a old IH]; intros [|b t] E; try discriminate; [reflexivity..|].
      cbn in E. apply andb_true_iff in E as [->%N.eqb_eq E].
      cbn. f_equal. now apply IH. }
    split; [exact Hs|]. rewrite Hs at 1. now apply replace_prefix.
  - right. exists c, s. repeat split. now apply replace_cons_no.
Qed.

(** Without a backslash in the text, turning the placeholder into [\^] and
    [\^] back into the placeholder gives the text again. *)
Lemma unescape_escape_backslash s :
  Forall (λ c, c ≠ 92) s →
  replace (u "\^") PRESERVECIRC (replace PRESERVECIRC (u "\^") s) = s.
Proof.
  remember (length s) as n eqn:Hn. revert s Hn.
  induction n as [n IH] using lt_wf_ind. intros s -> Hs.
  destruct (replace_cases PRESERVECIRC (u "\^") s) as [->|[(s' & -> & ->)|(c & s' & -> & E & ->)]];
    [discriminate|reflexivity|..].
  - rewrite replace_prefix by discriminate. f_equal.
    apply Forall_app in Hs as [_ Hs].
    apply (IH (length s')); [|reflexivity|exact Hs].
    rewrite length_app. change (length PRESERVECIRC) with 14%nat. lia.
  - apply Forall_cons in Hs as [Hc Hs].
    rewrite replace_cons_no.
    + f_equal. apply (IH (length s')); [cbn; lia|reflexivity|exact Hs].
    + lits. now apply startswith_head.
Qed.
End placeholder.

(** ** The detour through iso-8859-1 and the numeric references *)

Section charrefs.
Import Encoding Html.

Lemma str_encode_xml s :
  str_encode Latin1 XmlCharRefReplace s = Ok (charrefs s).
Proof.
  induction s as [|c s IH]; [reflexivity|].
  cbn [str_encode encodable encode_char]. rewrite IH. unfold charrefs. cbn.
  now destruct (c <? 256).
Qed.

Lemma str_encode_strict s :
  str_encode Latin1 Strict s =
  if forallb (λ c, c <? 256) s then Ok s else Raise UnicodeEncodeError.
Proof.
  induction s as [|c s IH]; [reflexivity|].
  cbn [str_encode encodable encode_char forallb]. rewrite IH.
  destruct (c <? 256); [|reflexivity]. cbn. now destruct (forallb _ s).
Qed.

Lemma charrefs_latin1 s : forallb (λ c, c <? 256) s = true → charrefs s = s.
Proof.
  induction s as [|c s IH]; [reflexivity|]. cbn [forallb].
  intros [Hc Hs]%andb_true_iff. unfold charrefs in *. cbn. rewrite Hc.
  cbn. now rewrite IH.
Qed.

Lemma encode_latin1 s : encode (PStr s) Latin1 = Ok (PBytes (charrefs s)).
Proof.
  unfold encode. rewrite str_encode_strict.
  destruct (forallb _ s) eqn:E; [now rewrite charrefs_latin1|].
  now rewrite str_encode_xml.
Qed.

Lemma charrefs_cons c s :
  charrefs (c :: s) = (if c <? 256 then [c] else charref_of c) ++ charrefs s.
Proof. reflexivity. Qed.

Lemma charref_of_chars c :
  Forall (λ x, x = 38 ∨ x = 35 ∨ x = 59 ∨ PyInt.is_digit x = true) (charref_of c).
Proof.
  unfold charref_of. lits. constructor; [now left|]. constructor; [now right; left|].
  apply Forall_app. split; [|constructor; [now right; right; left|constructor]].
  eapply Forall_impl; [apply uint_digits_is_digit|]. cbn. tauto.
Qed.

Lemma charrefs_Forall (Q : N → Prop) s :
  Q 38 → Q 35 → Q 59 → (∀ x, PyInt.is_digit x = true → Q x) →
  Forall (λ c, c < 256 → Q c) s → Forall Q (charrefs s).
Proof.
  intros H1 H2 H3 H4. induction 1 as [|c s Hc _ IH]; [constructor|].
  rewrite charrefs_cons. apply Forall_app. split; [|exact IH].
  destruct (N.ltb_spec c 256); [constructor; [auto|constructor]|].
  eapply Forall_impl; [apply charref_of_chars|]. cbn.
  intros x [->|[->|[->|Hx]]]; auto.
Qed.

Lemma charrefs_bytes s : forallb (λ c, c <? 256) (charrefs s) = true.
Proof.
  apply forallb_forall. intros x Hx%list_elem_of_In. revert x Hx.
  apply Forall_forall, charrefs_Forall; try reflexivity.
  - intros x [_ Hx%N.leb_le]%andb_true_iff. apply N.ltb_lt. lia.
  - apply Forall_forall. intros c _ Hc. now apply N.ltb_lt.
Qed.

Lemma unescape_from_skip names k s :
  unescape_from names k s = unescape_from names 0 (drop k s).
Proof.
  revert k. induction s as [|c s IH]; intros [|k]; try reflexivity.
  cbn [unescape_from drop]. apply IH.
Qed.

Lemma unescape_from_no_amp names s :
  Forall (λ c, c ≠ 38) s → unescape_from names 0 s = s.
Proof.
  induction 1 as [|c s Hc _ IH]; [reflexivity|].
  cbn [unescape_from]. lits. destruct (N.eqb_spec c 38); [congruence|]. now rewrite IH.
Qed.

Lemma unescape_with_from names s :
  unescape_with names s = unescape_from names 0 s.
Proof.
  unfold unescape_with. destruct (existsb _ s) eqn:E; [reflexivity|]. cbn.
  symmetry. apply unescape_from_no_amp, Forall_forall. intros c Hc%list_elem_of_In ->.
  assert (existsb (N.eqb (ch "&")) s = true) as E'; [|congruence].
  apply existsb_exists. now exists 38.
Qed.

Lemma unescape_no_amp s : Forall (λ c, c ≠ 38) s → unescape s = s.
Proof. intros H. unfold unescape. rewrite unescape_with_from. now apply unescape_from_no_amp. Qed.

Lemma drop_past {A} (a : list A) x r : drop (S (length a)) (a ++ x :: r) = r.
Proof. induction a as [|y a IH]; [reflexivity|exact IH]. Qed.

Lemma take_while_digits ds rest :
  Forall (λ c, PyInt.is_digit c = true) ds →
  take_while PyInt.is_digit (ds ++ 59 :: rest) = ds.
Proof. induction 1 as [|c ds Hc _ IH]; [reflexivity|]. cbn. now rewrite Hc, IH. Qed.

Lemma N_of_decimal_str_of_N c : PyInt.N_of_decimal (PyInt.str_of_N c) = c.
Proof.
  unfold PyInt.N_of_decimal, PyInt.str_of_N. rewrite int_of_uint_digits.
  - now rewrite N2Z.id, DecimalN.Unsigned.of_to.
  - destruct c; [discriminate|apply DecimalPos.Unsigned.to_uint_nonnil].
Qed.

Lemma str_of_N_nonempty c : PyInt.str_of_N c ≠ [].
Proof.
  unfold PyInt.str_of_N.
  assert (N.to_uint c ≠ Decimal.Nil) as H
    by (destruct c; [discriminate|apply DecimalPos.Unsigned.to_uint_nonnil]).
  now destruct (N.to_uint c).
Qed.

Lemma charref_decimal names c rest :
  charref names (35 :: PyInt.str_of_N c ++ 59 :: rest)
  = Some (2 + length (PyInt.str_of_N c), numeric_charref c)%nat.
Proof.
  pose proof (str_of_N_nonempty c) as Hn.
  pose proof (N_of_decimal_str_of_N c) as Hd.
  pose proof (take_while_digits (PyInt.str_of_N c) rest
                (uint_digits_is_digit (N.to_uint c))) as Ht.
  unfold charref. lits. cbn [N.eqb Pos.eqb].
  rewrite Ht. destruct (PyInt.str_of_N c) as [|x ds] eqn:E; [congruence|].
  rewrite Hd. rewrite drop_app_length. cbn [semicolon]. rewrite N.eqb_refl.
  do 2 f_equal. lia.
Qed.

Lemma unescape_charrefs names s :
  Forall (λ c, c ≠ 38 ∧ (c < 256 ∨ numeric_charref c = [c])) s →
  unescape_with names (charrefs s) = s.
Proof.
  intros H. rewrite unescape_with_from.
  induction H as [|c s [Hc Hr] _ IH]; [reflexivity|].
  rewrite charrefs_cons. destruct (N.ltb_spec c 256) as [Hlt|Hge].
  - cbn [app unescape_from]. lits.
    destruct (N.eqb_spec c 38); [congruence|]. now rewrite IH.
  - destruct Hr as [Hr|Hr]; [lia|].
    unfold charref_of. lits. cbn [app unescape_from N.eqb Pos.eqb].
    rewrite <- app_assoc. cbn [app].
    rewrite charref_decimal, Hr. cbn [app]. f_equal.
    cbn [Nat.add unescape_from].
    rewrite (unescape_from_skip names (S _)), drop_past. exact IH.
Qed.

Lemma unescape_charrefs_plain s :
  forallb plain_char s = true → unescape (charrefs s) = s.
Proof.
  intros H. apply unescape_charrefs, Forall_forall. intros c Hc%list_elem_of_In.
  rewrite forallb_forall in H. specialize (H c Hc). unfold plain_char in H.
  apply andb_true_iff in H as [[[H1 _]%andb_true_iff _]%andb_true_iff H2].
  split.
  - intros ->. discriminate.
  - apply orb_true_iff in H2 as [H2%N.ltb_lt|H2%bool_decide_eq_true]; auto.
Qed.
End charrefs.

(** ** Reading an occurrence back *)

Section occurrence.
Import Py IDFile.

Lemma wf_text_facts v :
  wf_text v = true →
  v ≠ [] ∧ remove_break_lines_characters v = v ∧ forallb plain_char v = true
  ∧ contains PRESERVECIRC v = false ∧ contains (u "!ID ") v = false.
Proof.
  unfold wf_text. intros H. repeat (apply andb_true_iff in H as [H ?]).
  apply negb_true_iff, bool_decide_eq_false in H.
  repeat split; try assumption; try (now apply negb_true_iff).
  now apply (bool_decide_eq_true _).
Qed.

Lemma wf_main_facts v :
  wf_main v = true → wf_text v = true ∧ startswith (u "ID ") v = false.
Proof. unfold wf_main. intros [H1 H2%negb_true_iff]%andb_true_iff. auto. Qed.

Lemma format_value_wf v : wf_text v = true → format_value (SStr v) = escape_circ v.
Proof.
  intros (_ & Hn & _)%wf_text_facts. unfold format_value, escape_circ.
  destruct (normalized_facts v) as [Hs _]. cbn zeta in Hs. rewrite Hs. now rewrite Hn.
Qed.

Lemma split_circ_free a : Forall (λ c, c ≠ 94) a → split (u "^") a = [a].
Proof.
  intros H. rewrite <- (app_nil_r a) at 1. rewrite split_app_free.
  - now rewrite split_nil, app_nil_r.
  - apply free_head. lits. exact H.
Qed.

Lemma split_circ_app a rest :
  Forall (λ c, c ≠ 94) a → split (u "^") (a ++ 94 :: rest) = a :: split (u "^") rest.
Proof.
  intros H. rewrite split_app_free by (apply free_head; lits; exact H).
  change (94 :: rest) with (u "^" ++ rest). rewrite split_prefix by discriminate.
  now rewrite app_nil_r.
Qed.

Lemma split_circ_segments m (segs : list str) :
  Forall (λ c, c ≠ 94) m → Forall (Forall (λ c, c ≠ 94)) segs →
  split (u "^") (m ++ concat (map (cons 94) segs)) = m :: segs.
Proof.
  intros Hm Hs. revert m Hm. induction Hs as [|x segs Hx _ IH]; intros m Hm.
  - cbn. rewrite app_nil_r. now apply split_circ_free.
  - cbn [map concat app]. rewrite split_circ_app by exact Hm. f_equal. now apply IH.
Qed.

Lemma get_field_data_loop_put d0 L :
  Forall subfield_entry L →
  _get_field_data_loop d0 (map (λ kv, kv.1 ++ text kv.2) L) = Ok (foldl put d0 L).
Proof.
  intros H. revert d0. induction H as [|kv L (c & v & -> & _) _ IH]; intros d0;
    [reflexivity|].
  cbn [map foldl fst snd text app _get_field_data_loop]. apply IH.
Qed.

Lemma foldl_put_lookup L d0 k :
  NoDup L.*1 →
  (∀ v, (k, v) ∈ L → foldl put d0 L !! k = Some v)
  ∧ (k ∉ L.*1 → foldl put d0 L !! k = d0 !! k).
Proof.
  intros H. revert d0. induction L as [|[k1 v1] L IH]; intros d0.
  - split; [intros v Hv; inversion Hv|reflexivity].
  - cbn in H. apply NoDup_cons in H as [H1 H2]. specialize (IH H2).
    cbn [foldl]. change (put d0 (k1, v1)) with (<[k1:=v1]> d0). split.
    + intros v [[= Ek Ev]|Hv]%elem_of_cons.
      * subst k1 v1.
        destruct (IH (<[k:=v]> d0)) as [_ Hn]. rewrite (Hn H1).
        apply lookup_insert_eq.
      * now apply IH.
    + intros [Hk1 Hk]%not_elem_of_cons.
      destruct (IH (<[k1:=v1]> d0)) as [_ Hn]. rewrite (Hn Hk).
      now apply lookup_insert_ne.
Qed.
End occurrence.

Section occurrence_dict.
Import Py IDFile.

Lemma wf_entry_cases kv :
  wf_entry kv = true →
  (∃ m, kv = (u "_", SStr m) ∧ wf_main m = true)
  ∨ (kv.1 ≠ u "_" ∧ subfield_entry kv).
Proof.
  destruct kv as [k [v|t]]; [|discriminate]. cbn [wf_entry].
  case_bool_decide as Hk.
  - subst k. intros H. left. now exists v.
  - intros [Hv Hc]%andb_true_iff. right. split; [exact Hk|].
    destruct k as [|c [|]]; try discriminate. now exists c, v.
Qed.

Lemma token_main v : token (u "_", v) = [].
Proof.
  unfold token, _format_subfield. cbn [fst snd].
  replace (contains (u "_") (u "abcdefghijklmnopqrstuvwxyz123456789")) with false
    by reflexivity.
  now rewrite andb_false_r.
Qed.

Lemma token_subfield kv : subfield_entry kv → token kv = 94 :: segment kv.
Proof.
  intros (c & v & -> & Hc & Hv). unfold token, _format_subfield, segment.
  cbn [fst snd text]. rewrite contains_code, Hc, format_value_wf by exact Hv.
  destruct (wf_text_facts v Hv) as (Hn & _). now destruct v.
Qed.

Lemma tokens_segments L :
  Forall (λ kv, wf_entry kv = true) L →
  concat (map token L)
  = concat (map (λ kv, 94 :: segment kv) (filter (λ kv, kv.1 ≠ u "_") L))
  ∧ Forall subfield_entry (filter (λ kv, kv.1 ≠ u "_") L).
Proof.
  induction 1 as [|kv L Hkv _ [IH1 IH2]]; [split; [reflexivity|constructor]|].
  rewrite filter_cons. cbn [map concat].
  destruct (wf_entry_cases kv Hkv) as [(m & -> & Hm)|[Hk He]].
  - rewrite token_main. cbn [fst]. rewrite decide_False by (intros H; now apply H).
    now split.
  - rewrite decide_True by exact Hk. cbn [map concat].
    rewrite (token_subfield kv He), IH1. split; [reflexivity|now constructor].
Qed.

Lemma code_not_bracket c : is_subfield_code c = true → c ≠ 91 ∧ c ≠ 94.
Proof.
  unfold is_subfield_code.
  intros [[?%N.leb_le ?%N.leb_le]%andb_true_iff|[?%N.leb_le ?%N.leb_le]%andb_true_iff]%orb_true_iff;
    lia.
Qed.

Lemma segment_facts kv :
  subfield_entry kv →
  Forall (λ c, c ≠ 94) (segment kv)
  ∧ replace PRESERVECIRC (u "^") (segment kv) = kv.1 ++ text kv.2.
Proof.
  intros (c & v & -> & Hc & Hv). unfold segment. cbn [fst snd text app].
  destruct (code_not_bracket c Hc) as [H1 H2].
  destruct (wf_text_facts v Hv) as (_ & _ & _ & Hp & _). split.
  - constructor; [exact H2|apply escape_circ_no_circ].
  - rewrite replace_cons_no.
    + now rewrite unescape_escape_circ.
    + unfold PRESERVECIRC. lits. now apply startswith_head.
Qed.

Lemma main_text (d : gmap str subvalue) :
  Forall (λ kv, wf_entry kv = true) (map_to_list d) →
  ∃ m, (m = [] ∧ d !! u "_" = None ∨ wf_main m = true ∧ d !! u "_" = Some (SStr m))
       ∧ format_value (main_value d) = escape_circ m.
Proof.
  intros H. unfold main_value. destruct (d !! u "_") as [sv|] eqn:E.
  - rewrite Forall_forall in H.
    specialize (H (u "_", sv) (proj2 (elem_of_map_to_list _ _ _) E)).
    destruct (wf_entry_cases _ H) as [(m & [= ->] & Hm)|[Hk _]]; [|now cbn in Hk].
    exists m. split; [now right|].
    destruct (wf_main_facts m Hm) as [Ht _].
    destruct (wf_text_facts m Ht) as (Hn & _).
    assert (subvalue_true (SStr m) = true) as -> by now destruct m.
    now apply format_value_wf.
  - exists []. split; [now left|reflexivity].
Qed.
End occurrence_dict.

Section occurrence_shape.
Import Py IDFile.

Lemma get_field_data_segments m L :
  (m = [] ∨ wf_main m = true) → (L = [] → m ≠ []) →
  Forall subfield_entry L →
  _get_field_data (escape_circ m ++ concat (map (λ kv, 94 :: segment kv) L))
  = match L with
    | [] => Ok (OStr m)
    | _ => Ok (ODict (foldl put (match m with
                                 | [] => ∅
                                 | _ => {[ u "_" := SStr m ]}
                                 end) L))
    end.
Proof.
  intros Hm HL He. unfold _get_field_data.
  rewrite <- (map_map segment (cons 94)).
  rewrite split_circ_segments.
  2: apply escape_circ_no_circ.
  2:{ apply Forall_fmap. eapply Forall_impl; [exact He|].
      intros kv Hkv. now destruct (segment_facts kv Hkv). }
  cbn [map].
  assert (replace PRESERVECIRC (u "^") (escape_circ m) = m) as ->.
  { destruct Hm as [->|Hm]; [reflexivity|].
    destruct (wf_main_facts m Hm) as [Ht _].
    destruct (wf_text_facts m Ht) as (_ & _ & _ & Hp & _).
    now apply unescape_escape_circ. }
  rewrite map_map.
  rewrite (map_ext_Forall _ (λ kv, kv.1 ++ text kv.2)).
  2:{ eapply Forall_impl; [exact He|].
      intros kv Hkv. now destruct (segment_facts kv Hkv). }
  destruct L as [|kv L]; [reflexivity|].
  rewrite get_field_data_loop_put by exact He.
  destruct (map _ (kv :: L)) eqn:E; [discriminate|]. reflexivity.
Qed.

Lemma foldl_put_dict (d : gmap str subvalue) m L :
  (m = [] ∧ d !! u "_" = None ∨ wf_main m = true ∧ d !! u "_" = Some (SStr m)) →
  L ≡ₚ filter (λ kv, kv.1 ≠ u "_") (map_to_list d) →
  foldl put (match m with [] => ∅ | _ => {[ u "_" := SStr m ]} end) L = d.
Proof.
  intros Hm HL. apply map_eq. intros k.
  assert (NoDup L.*1) as Hnd.
  { rewrite HL. eapply sublist_NoDup; [apply (NoDup_fst_map_to_list d)|].
    apply fmap_sublist, sublist_filter. }
  destruct (foldl_put_lookup L
              (match m with [] => ∅ | _ => {[ u "_" := SStr m ]} end) k Hnd)
    as [Hin Hout].
  assert (∀ k' v, (k', v) ∈ L ↔ d !! k' = Some v ∧ k' ≠ u "_") as Hmem.
  { intros k' v. rewrite HL, list_elem_of_filter, elem_of_map_to_list. cbn. tauto. }
  destruct (decide (k = u "_")) as [->|Hk].
  - rewrite Hout.
    + destruct Hm as [[-> ->]|[Hw ->]]; [apply lookup_empty|].
      destruct (wf_main_facts m Hw) as [Ht _].
      destruct (wf_text_facts m Ht) as (Hn & _).
      destruct m; [congruence|]. apply lookup_singleton_eq.
    + intros ([k v] & E & Hkv%Hmem)%list_elem_of_fmap. cbn in E. subst k. tauto.
  - destruct (d !! k) as [v|] eqn:E.
    + apply Hin, Hmem. auto.
    + rewrite Hout.
      * destruct m; [apply lookup_empty|now apply lookup_singleton_ne].
      * intros ([k' v] & E' & Hkv%Hmem)%list_elem_of_fmap. cbn in E'. subst k'.
        rewrite E in Hkv. now destruct Hkv.
Qed.

(** The text of a well-formed occurrence: the escaped main value and the
    subfields, each behind its circumflex; [_get_field_data] reads the
    occurrence back from it. *)
Lemma render_shape o :
  wf_occurrence o = true →
  ∃ m L, render o = escape_circ m ++ concat (map (λ kv, 94 :: segment kv) L)
         ∧ (m = [] ∨ wf_main m = true) ∧ (L = [] → m ≠ [])
         ∧ Forall subfield_entry L
         ∧ _get_field_data (render o) = Ok o.
Proof.
  destruct o as [v|d|t]; [..|discriminate]; cbn [wf_occurrence]; intros H.
  - destruct (wf_main_facts v H) as [Ht _].
    destruct (wf_text_facts v Ht) as (Hn & _).
    assert (render (OStr v) = escape_circ v ++ concat (map (λ kv, 94 :: segment kv) []))
      as Hr.
    { unfold render. cbn [occurrence_true]. destruct v; [congruence|].
      rewrite format_value_wf by exact Ht. cbn. now rewrite app_nil_r. }
    exists v, []. repeat split; auto.
    rewrite Hr. now rewrite get_field_data_segments by auto.
  - apply andb_true_iff in H as [Hall Hex].
    rewrite forallb_forall in Hall. apply existsb_exists in Hex as (kv0 & Hin0 & Hk0).
    assert (Forall (λ kv, wf_entry kv = true) (map_to_list d)) as Hwf
      by (apply Forall_forall; intros kv Hkv; now apply Hall, list_elem_of_In).
    assert (d ≠ ∅) as Hne.
    { intros ->. rewrite map_to_list_empty in Hin0. inversion Hin0. }
    assert (render (ODict d) = _format_subfields d) as Hr.
    { unfold render. cbn [occurrence_true]. now rewrite bool_decide_eq_false_2. }
    rewrite Hr, format_subfields_unfold.
    destruct (Permutation_map_inv token _ (sorted_str_Permutation (map token (map_to_list d))))
      as (L' & HT & HP).
    rewrite HT.
    assert (Forall (λ kv, wf_entry kv = true) L') as Hwf' by now rewrite <- HP.
    destruct (tokens_segments L' Hwf') as [Hc He]. rewrite Hc.
    destruct (main_text d Hwf) as (m & Hm & ->).
    set (L := filter (λ kv, kv.1 ≠ u "_") L') in *.
    assert (L ≠ []) as HL.
    { assert (kv0 ∈ L) as Hk; [|intros E; rewrite E in Hk; inversion Hk].
      apply list_elem_of_filter. split.
      - apply negb_true_iff, bool_decide_eq_false in Hk0. exact Hk0.
      - rewrite <- HP. now apply list_elem_of_In. }
    exists m, L. repeat split; try assumption.
    + destruct Hm as [[-> _]|[Hm _]]; auto.
    + intros E. congruence.
    + rewrite get_field_data_segments; try assumption.
      * destruct L as [|kv L0] eqn:EL; [congruence|]. rewrite <- EL.
        do 2 f_equal. apply foldl_put_dict; [exact Hm|].
        unfold L. now rewrite HP.
      * destruct Hm as [[-> _]|[Hm _]]; auto.
      * intros E. congruence.
Qed.
End occurrence_shape.

(** ** The characters of a rendered occurrence *)

Section occurrence_text.
Import Py IDFile.

Lemma startswith_app_sep p a c b :
  c ∉ p → startswith p (a ++ c :: b) = startswith p a.
Proof.
  revert a. induction p as [|x p IH]; intros a Hc; [reflexivity|].
  apply not_elem_of_cons in Hc as [Hx Hc].
  destruct a as [|y a]; cbn [app startswith].
  - destruct (N.eqb_spec x c); [congruence|reflexivity].
  - now rewrite IH.
Qed.

Lemma contains_sep p a c b :
  c ∉ p → contains p (a ++ c :: b) = contains p a || contains p b.
Proof.
  intros Hc. induction a as [|y a IH].
  - cbn [app]. rewrite contains_cons.
    destruct p as [|x p]; [reflexivity|].
    apply not_elem_of_cons in Hc as [Hx _].
    rewrite startswith_head by congruence. reflexivity.
  - cbn [app]. rewrite !contains_cons, IH.
    change (y :: a ++ c :: b) with ((y :: a) ++ c :: b).
    rewrite startswith_app_sep by exact Hc. now rewrite orb_assoc.
Qed.

Lemma escape_circ_app a b : escape_circ (a ++ b) = escape_circ a ++ escape_circ b.
Proof.
  induction a as [|c a IH]; [reflexivity|]. cbn [app].
  rewrite !escape_circ_cons, IH. destruct (c =? 94); [now rewrite app_assoc|reflexivity].
Qed.

Lemma escape_circ_clean v :
  clean_head v = true → clean_head (rev v) = true →
  clean_head (escape_circ v) = true ∧ clean_head (rev (escape_circ v)) = true.
Proof.
  intros H1 H2. split.
  - destruct v as [|c v]; [reflexivity|]. rewrite escape_circ_cons.
    destruct (c =? 94); [reflexivity|exact H1].
  - destruct (rev v) as [|c r] eqn:E.
    + apply (f_equal (@rev N)) in E. rewrite rev_involutive in E. now subst v.
    + apply (f_equal (@rev N)) in E. rewrite rev_involutive in E. subst v.
      cbn [rev]. rewrite escape_circ_app, rev_app_distr.
      rewrite escape_circ_cons, escape_circ_nil.
      destruct (c =? 94); [reflexivity|exact H2].
Qed.

Lemma value_char_placeholder : Forall value_char PRESERVECIRC.
Proof.
  unfold PRESERVECIRC. lits.
  repeat (constructor; [unfold value_char; repeat split; (discriminate || (left; reflexivity))|]).
  constructor.
Qed.

Lemma wf_text_chars v :
  wf_text v = true →
  Forall value_char v ∧ clean_head v = true ∧ clean_head (rev v) = true.
Proof.
  intros (_ & Hn & Hp & _)%wf_text_facts.
  destruct (normalized_facts v) as (_ & H1 & H2 & H3). cbn zeta in *.
  rewrite Hn in *. repeat split; try assumption.
  apply Forall_forall. intros c Hc. rewrite forallb_forall in Hp.
  specialize (Hp c (proj1 (list_elem_of_In _ _) Hc)).
  rewrite Forall_forall in H3. specialize (H3 c Hc).
  unfold plain_char in Hp.
  apply andb_true_iff in Hp as [[[Ha Hr]%andb_true_iff Hb]%andb_true_iff Hl].
  apply negb_true_iff, N.eqb_neq in Ha, Hr, Hb.
  repeat split; try assumption.
  - intros ->. destruct H3; discriminate.
  - apply orb_true_iff in Hl as [Hl%N.ltb_lt|Hl%bool_decide_eq_true]; auto.
Qed.

Lemma escaped_text_facts v :
  wf_text v = true →
  let e := escape_circ v in
  e ≠ [] ∧ Forall value_char e ∧ contains (u "!ID ") e = false
  ∧ clean_head e = true ∧ clean_head (rev e) = true.
Proof.
  intros H. cbn zeta.
  destruct (wf_text_facts v H) as (Hn & _ & _ & _ & Hid).
  destruct (wf_text_chars v H) as (Hc & H1 & H2).
  destruct (escape_circ_clean v H1 H2) as [H3 H4].
  repeat split; try assumption.
  - now apply escape_circ_nonempty.
  - apply escape_circ_Forall; [apply value_char_placeholder|exact Hc].
  - revert Hid. lits. apply contains_escape.
    + repeat constructor; discriminate.
    + unfold PRESERVECIRC. lits. repeat constructor; discriminate.
Qed.

Lemma subfields_text_cons kv L :
  subfields_text (kv :: L) = 94 :: segment kv ++ subfields_text L.
Proof. reflexivity. Qed.

Lemma subfields_text_facts L :
  Forall subfield_entry L →
  Forall value_char (subfields_text L)
  ∧ contains (u "!ID ") (subfields_text L) = false
  ∧ (L ≠ [] → clean_head (rev (subfields_text L)) = true).
Proof.
  induction 1 as [|kv L (c & v & -> & Hc & Hv) _ (IH1 & IH2 & IH3)].
  { split; [constructor|]. split; [reflexivity|congruence]. }
  rewrite subfields_text_cons. unfold segment. cbn [fst snd text app].
  destruct (escaped_text_facts v Hv) as (Hn & Hch & Hid & _ & Hcl).
  destruct (code_not_bracket c Hc) as [Hb Hcirc].
  assert (value_char c ∧ c ≠ 33 ∧ c ≠ 73 ∧ c ≠ 68 ∧ c ≠ 32) as (Hvc & ? & ? & ? & ?).
  { unfold is_subfield_code in Hc. unfold value_char.
    apply orb_true_iff in Hc as [[?%N.leb_le ?%N.leb_le]%andb_true_iff
                                |[?%N.leb_le ?%N.leb_le]%andb_true_iff];
      repeat split; try lia; left; lia. }
  repeat split.
  - constructor; [unfold value_char; repeat split; (discriminate || (left; reflexivity))|].
    constructor; [exact Hvc|]. apply Forall_app. now split.
  - change (94 :: c :: escape_circ v ++ subfields_text L)
      with ([] ++ 94 :: c :: escape_circ v ++ subfields_text L).
    rewrite contains_sep by not_in_literal.
    change (c :: escape_circ v ++ subfields_text L)
      with ([] ++ c :: escape_circ v ++ subfields_text L).
    rewrite contains_sep by not_in_literal.
    destruct L as [|kv' L'].
    + cbn [subfields_text map concat]. rewrite app_nil_r, Hid. reflexivity.
    + rewrite subfields_text_cons in *.
      rewrite contains_sep by not_in_literal. rewrite Hid.
      change (94 :: segment kv' ++ subfields_text L')
        with ([] ++ 94 :: segment kv' ++ subfields_text L') in IH2.
      rewrite contains_sep in IH2 by not_in_literal. exact IH2.
  - intros _. destruct L as [|kv' L'].
    + cbn [subfields_text map concat]. rewrite app_nil_r.
      change (94 :: c :: escape_circ v) with ([94; c] ++ escape_circ v).
      rewrite rev_app_distr. rewrite clean_head_app; [exact Hcl|].
      intros E. apply Hn. apply (f_equal (@rev N)) in E.
      now rewrite rev_involutive in E.
    + change (94 :: c :: escape_circ v ++ subfields_text (kv' :: L'))
        with ((94 :: c :: escape_circ v) ++ subfields_text (kv' :: L')).
      rewrite rev_app_distr. rewrite clean_head_app; [apply IH3; discriminate|].
      rewrite subfields_text_cons. intros E. apply (f_equal (@rev N)) in E.
      rewrite rev_involutive in E. discriminate.
Qed.
End occurrence_text.

Section render_facts.
Import Py IDFile.

Lemma strip_newline s :
  s ≠ [] → clean_head s = true → clean_head (rev s) = true →
  strip s = s ∧ strip (s ++ [10]) = s.
Proof.
  intros Hn H1 H2. split; [now apply strip_clean|].
  unfold strip. rewrite lstrip_clean by now rewrite clean_head_app.
  unfold rstrip. rewrite rev_app_distr. cbn [rev app lstrip].
  change (is_space 10) with true. cbn iota.
  rewrite lstrip_clean by exact H2. apply rev_involutive.
Qed.

Lemma render_facts o :
  wf_occurrence o = true →
  render o ≠ [] ∧ Forall value_char (render o)
  ∧ contains (u "!ID ") (33 :: render o) = false
  ∧ strip (render o) = render o ∧ strip (render o ++ [10]) = render o
  ∧ _get_field_data (render o) = Ok o.
Proof.
  intros (m & L & -> & Hm & HL & He & Hg)%render_shape.
  fold (subfields_text L) in *.
  destruct (subfields_text_facts L He) as (T1 & T2 & T3).
  assert (m ≠ [] → wf_text m = true ∧ startswith (u "ID ") m = false) as Hm'.
  { intros Hn. destruct Hm as [->|Hm]; [congruence|]. now apply wf_main_facts. }
  assert (escape_circ m ++ subfields_text L ≠ []) as Hne.
  { destruct L as [|kv L]; [|rewrite subfields_text_cons; now destruct (escape_circ m)].
    specialize (HL eq_refl). destruct (Hm' HL) as [Ht _].
    destruct (escaped_text_facts m Ht) as (Hn & _). now destruct (escape_circ m). }
  assert (Forall value_char (escape_circ m)) as Hch.
  { destruct m as [|c m]; [constructor|].
    destruct (Hm' ltac:(discriminate)) as [Ht _].
    now destruct (escaped_text_facts _ Ht) as (_ & ? & _). }
  assert (contains (u "!ID ") (33 :: escape_circ m) = false) as Hid.
  { destruct m as [|c m]; [reflexivity|].
    destruct (Hm' ltac:(discriminate)) as [Ht Hs].
    destruct (escaped_text_facts _ Ht) as (_ & _ & Hid & _).
    rewrite contains_cons, Hid, orb_false_r.
    change (u "!ID ") with (33 :: u "ID "). cbn [startswith].
    rewrite N.eqb_refl. cbn [andb].
    rewrite startswith_escape; [exact Hs|]. lits. repeat constructor; discriminate. }
  assert (clean_head (escape_circ m ++ subfields_text L) = true) as Hc1.
  { destruct m as [|c m].
    - destruct L as [|kv L]; [now specialize (HL eq_refl)|reflexivity].
    - destruct (Hm' ltac:(discriminate)) as [Ht _].
      destruct (escaped_text_facts _ Ht) as (Hn & _ & _ & Hcl & _).
      now rewrite clean_head_app. }
  assert (clean_head (rev (escape_circ m ++ subfields_text L)) = true) as Hc2.
  { rewrite rev_app_distr. destruct L as [|kv L].
    - specialize (HL eq_refl). destruct (Hm' HL) as [Ht _].
      now destruct (escaped_text_facts _ Ht) as (_ & _ & _ & _ & ?).
    - rewrite clean_head_app; [apply T3; discriminate|].
      rewrite subfields_text_cons. intros E. apply (f_equal (@rev N)) in E.
      rewrite rev_involutive in E. discriminate. }
  destruct (strip_newline _ Hne Hc1 Hc2) as [S1 S2].
  repeat split; try assumption.
  - apply Forall_app. now split.
  - destruct L as [|kv L]; [cbn [subfields_text map concat]; now rewrite app_nil_r|].
    rewrite subfields_text_cons in *.
    change (33 :: escape_circ m ++ 94 :: segment kv ++ subfields_text L)
      with ((33 :: escape_circ m) ++ 94 :: segment kv ++ subfields_text L).
    rewrite contains_sep by not_in_literal. rewrite Hid.
    change (94 :: segment kv ++ subfields_text L)
      with ([] ++ 94 :: segment kv ++ subfields_text L) in T2.
    rewrite contains_sep in T2 by not_in_literal. exact T2.
Qed.
End render_facts.

(** ** Lines *)

Section lines.
Import Py IDFile.

Lemma tag_check_all : forallb tag_check (map Z.of_nat (seq 1 999)) = true.
Proof. vm_compute. reflexivity. Qed.

Lemma zfill_digits n s :
  Forall (λ c, PyInt.is_digit c = true) s →
  Forall (λ c, PyInt.is_digit c = true) (zfill n s).
Proof.
  intros H. unfold zfill.
  assert (Forall (λ c, PyInt.is_digit c = true) (repeat (ch "0") (n - length s))) as Hp.
  { apply Forall_forall. intros c Hc%list_elem_of_In%repeat_spec. now subst c. }
  destruct H as [|c s Hc Hs]; [exact Hp|].
  assert ((c =? ch "+") || (c =? ch "-") = false) as ->.
  { lits. unfold PyInt.is_digit in Hc.
    apply andb_true_iff in Hc as [?%N.leb_le ?%N.leb_le].
    destruct (N.eqb_spec c 43), (N.eqb_spec c 45); first [lia|reflexivity]. }
  apply Forall_app. split; [exact Hp|now constructor].
Qed.

Lemma str_of_int_digits t :
  (0 ≤ t)%Z → Forall (λ c, PyInt.is_digit c = true) (PyInt.str_of_int t).
Proof.
  intros H. unfold PyInt.str_of_int. destruct t; try lia; apply uint_digits_is_digit.
Qed.

Lemma tag_facts k :
  canonical_key k = true → tag_in_range (key_int k) = true →
  length (zfill 3 k) = 3%nat
  ∧ Forall (λ c, PyInt.is_digit c = true) (zfill 3 k)
  ∧ PyInt.int_of_str (zfill 3 k) = Ok (key_int k).
Proof.
  intros [_ Hk]%canonical_key_spec Hr.
  unfold tag_in_range in Hr. apply andb_true_iff in Hr as [H1%Z.ltb_lt H2%Z.leb_le].
  pose proof tag_check_all as Hall. rewrite forallb_forall in Hall.
  assert (tag_check (key_int k) = true) as Hc.
  { apply Hall, in_map_iff. exists (Z.to_nat (key_int k)). split; [lia|].
    apply in_seq. lia. }
  unfold tag_check in Hc. rewrite Hk in Hc.
  apply andb_true_iff in Hc as [Hl%bool_decide_eq_true Hi%bool_decide_eq_true].
  split; [exact Hl|]. split; [|exact Hi].
  rewrite <- Hk at 1. apply zfill_digits, str_of_int_digits. lia.
Qed.

Lemma digit_facts c :
  PyInt.is_digit c = true →
  value_char c ∧ c ≠ 33 ∧ c ≠ 73 ∧ c ≠ 68 ∧ c ≠ 32.
Proof.
  unfold PyInt.is_digit, value_char.
  intros [?%N.leb_le ?%N.leb_le]%andb_true_iff.
  repeat split; first [lia | left; lia].
Qed.

Lemma field_tag_and_data_wf k o tail :
  canonical_key k = true → tag_in_range (key_int k) = true →
  wf_occurrence o = true → tail = [] ∨ tail = [10] →
  field_tag_and_data (field_text (k, o) ++ tail) = Ok (k, o).
Proof.
  intros Hk Hr Ho Ht. destruct (tag_facts k Hk Hr) as (Hl & _ & Hi).
  destruct (render_facts o Ho) as (_ & _ & _ & S1 & S2 & Hg).
  destruct (canonical_key_spec k Hk) as [_ Hs].
  unfold field_tag_and_data, field_text. cbn [fst snd].
  rewrite <- app_assoc. rewrite take_app_length' by now symmetry. rewrite Hi. cbn.
  replace 4%nat with (length (zfill 3 k) + 1)%nat by lia.
  rewrite <- drop_drop, drop_app_length. cbn [app drop]. rewrite drop_0.
  assert (strip (render o ++ tail) = render o) as ->.
  { destruct Ht as [->| ->]; [now rewrite app_nil_r|exact S2]. }
  rewrite Hg. cbn. now rewrite Hs.
Qed.

Lemma field_text_facts k o :
  canonical_key k = true → tag_in_range (key_int k) = true →
  wf_occurrence o = true →
  Forall value_char (field_text (k, o))
  ∧ contains (u "!ID ") (u "!v" ++ field_text (k, o)) = false
  ∧ line k (render o) = u "!v" ++ field_text (k, o) ++ [10].
Proof.
  intros Hk Hr Ho. destruct (tag_facts k Hk Hr) as (_ & Hd & _).
  destruct (render_facts o Ho) as (Hn & Hc & Hid & _).
  unfold field_text. cbn [fst snd]. repeat split.
  - apply Forall_app. split.
    + eapply Forall_impl; [exact Hd|]. intros c Hc'. now apply digit_facts.
    + constructor; [|exact Hc].
      unfold value_char. repeat split; (discriminate || (left; reflexivity)).
  - change (u "!v" ++ zfill 3 k ++ 33 :: render o)
      with ([33] ++ 118 :: zfill 3 k ++ 33 :: render o).
    rewrite contains_sep by not_in_literal.
    change (contains (u "!ID ") [33]) with false. cbn [orb].
    change (u "!ID ") with (33 :: u "ID ") in *.
    rewrite contains_app_head; [exact Hid|].
    eapply Forall_impl; [exact Hd|]. intros c Hc'. now apply digit_facts.
  - unfold line. destruct (render o) eqn:E; [congruence|].
    now rewrite <- !app_assoc.
Qed.
End lines.

(** ** Reading a record back *)

Section record_roundtrip.
Import Py IDFile.

Lemma wf_record_lookup (r : record) k f :
  wf_record r = true → r !! k = Some f →
  canonical_key k = true ∧ tag_in_range (key_int k) = true ∧ wf_field f = true.
Proof.
  intros H Hk. pose proof (record_all_lookup _ _ _ _ H Hk) as Hf.
  apply andb_true_iff in Hf as [[? ?]%andb_true_iff ?]. auto.
Qed.

Lemma wf_field_occurrences f :
  wf_field f = true →
  occurrences f ≠ []
  ∧ Forall (λ o, wf_occurrence o = true) (occurrences f)
  ∧ field_typed f = true
  ∧ collapse (occurrences f) = scalar_collapse f.
Proof.
  intros H.
  assert (occurrences f ≠ [] ∧ Forall (λ o, wf_occurrence o = true) (occurrences f))
    as [Hn Hall].
  { destruct f as [o|l]; cbn in *.
    - split; [discriminate|]. now repeat constructor.
    - apply andb_true_iff in H as [Hn%negb_true_iff%bool_decide_eq_false Hl].
      split; [exact Hn|]. apply Forall_forall. intros o Ho%list_elem_of_In.
      rewrite forallb_forall in Hl. now apply Hl. }
  repeat split; try assumption.
  - unfold field_typed. apply forallb_forall. intros o Ho%list_elem_of_In.
    rewrite Forall_forall in Hall. specialize (Hall o Ho).
    now destruct o as [| |[|]].
  - destruct f as [o|[|o [|o' l]]]; first [reflexivity|now cbn in Hn].
Qed.

Lemma format_record_wf (r : record) :
  wf_record r = true → _format_record new r = Ok (record_lines r).
Proof.
  intros H. apply format_record_lines. intros k f Hk.
  destruct (wf_record_lookup r k f H Hk) as (Hc & Hr & Hf).
  split; [exact Hc|]. apply tag_data_in_range; try assumption.
  now destruct (wf_field_occurrences f Hf) as (_ & _ & ? & _).
Qed.

Lemma pairs_wf (r : record) :
  wf_record r = true →
  Forall (λ p, canonical_key p.1 = true ∧ tag_in_range (key_int p.1) = true
               ∧ wf_occurrence p.2 = true) (pairs r).
Proof.
  intros H. apply Forall_forall. intros [k o] Hp. unfold pairs in Hp.
  apply list_elem_of_In, in_flat_map in Hp as (t & Ht%list_elem_of_In & Hp).
  apply in_map_iff in Hp as (o' & [= <- <-] & Ho%list_elem_of_In).
  destruct (elem_of_tags r t Ht) as (k & f & Hk & <-).
  destruct (wf_record_lookup r k f H Hk) as (Hc & Hr & Hf).
  destruct (canonical_key_spec k Hc) as [_ Hs]. rewrite Hs in *.
  rewrite (field_of_lookup r k f Hk) in Ho.
  destruct (wf_field_occurrences f Hf) as (_ & Hall & _).
  rewrite Forall_forall in Hall. cbn. auto.
Qed.

Lemma concat_map_flat_map {A B} (h : B → str) (g : A → list B) l :
  concat (map h (flat_map g l)) = concat (map (λ x, concat (map h (g x))) l).
Proof.
  induction l as [|x l IH]; [reflexivity|].
  cbn. now rewrite map_app, concat_app, IH.
Qed.

Lemma record_lines_pairs (r : record) :
  wf_record r = true →
  record_lines r
  = concat (map (λ f, u "!v" ++ f ++ [10]) (map field_text (pairs r))).
Proof.
  intros H. rewrite map_map.
  rewrite (map_ext_Forall _ (λ p, line p.1 (render p.2))).
  - unfold pairs. rewrite concat_map_flat_map. unfold record_lines, field_lines.
    f_equal. apply map_ext. intros t. now rewrite map_map.
  - eapply Forall_impl; [apply (pairs_wf r H)|]. intros [k o] (Hc & Hr & Ho).
    cbn [fst snd] in *. symmetry.
    now destruct (field_text_facts k o Hc Hr Ho) as (_ & _ & ?).
Qed.

Lemma split_fields a flds :
  Forall (λ c, c ≠ 10) a → Forall (Forall (λ c, c ≠ 10)) flds →
  split (10 :: u "!v") (a ++ 10 :: concat (map (λ f, u "!v" ++ f ++ [10]) flds))
  = match flds with
    | [] => [a ++ [10]]
    | _ => a :: mark_last flds
    end.
Proof.
  intros Ha Hf. revert a Ha. induction Hf as [|f flds Hf0 _ IH]; intros a Ha.
  - cbn [map concat]. rewrite split_app_free by now apply free_head.
    reflexivity.
  - cbn [map concat]. rewrite split_app_free by now apply free_head.
    change (10 :: (u "!v" ++ f ++ [10]) ++ concat (map (λ f, u "!v" ++ f ++ [10]) flds))
      with ((10 :: u "!v") ++ (f ++ [10]) ++ concat (map (λ f, u "!v" ++ f ++ [10]) flds)).
    rewrite split_prefix by discriminate. rewrite app_nil_r. f_equal.
    rewrite <- app_assoc. cbn [app]. rewrite (IH f Hf0).
    now destruct flds.
Qed.

Lemma mapM_mark_last (g : str → result (str * occurrence)) flds :
  (∀ f, f ∈ flds → g (f ++ [10]) = g f) →
  mapM g (mark_last flds) = mapM g flds.
Proof.
  induction flds as [|f flds IH]; intros H; [reflexivity|].
  destruct flds as [|f' flds].
  - cbn. now rewrite H by constructor.
  - change (mark_last (f :: f' :: flds)) with (f :: mark_last (f' :: flds)).
    cbn [mapM]. rewrite IH; [reflexivity|]. intros x Hx. apply H. now constructor.
Qed.
End record_roundtrip.

Section record_groups.
Import Py IDFile.

Lemma str_of_int_inj t1 t2 :
  PyInt.str_of_int t1 = PyInt.str_of_int t2 → t1 = t2.
Proof.
  intros H. apply (f_equal key_int) in H. now rewrite !key_int_str_of_int in H.
Qed.

Lemma NoDup_tags (r : record) :
  record_all (λ k _, canonical_key k) r = true → NoDup (tags r).
Proof.
  intros H. unfold tags. rewrite sorted_int_Permutation.
  apply (NoDup_fmap_2_strong key_int); [|apply (NoDup_fst_map_to_list r)].
  intros k1 k2 ([k1' f1] & -> & H1%elem_of_map_to_list)%list_elem_of_fmap
                ([k2' f2] & -> & H2%elem_of_map_to_list)%list_elem_of_fmap E.
  cbn in *.
  destruct (canonical_key_spec _ (record_all_lookup _ _ _ _ H H1)) as [_ <-].
  destruct (canonical_key_spec _ (record_all_lookup _ _ _ _ H H2)) as [_ <-].
  now rewrite E.
Qed.

Lemma occurrences_of_app k l1 l2 :
  occurrences_of k (l1 ++ l2) = occurrences_of k l1 ++ occurrences_of k l2.
Proof. unfold occurrences_of. now rewrite filter_app, map_app. Qed.

Lemma occurrences_of_tagged k k' (l : list occurrence) :
  occurrences_of k (map (λ o, (k', o)) l) = if decide (k' = k) then l else [].
Proof.
  induction l as [|o l IH]; [now destruct (decide _)|].
  cbn [map]. rewrite occurrences_of_cons, IH. cbn [fst snd].
  now destruct (decide (k' = k)).
Qed.

Lemma occurrences_of_flat_map (g : Z → list occurrence) ts t0 :
  NoDup ts →
  occurrences_of (PyInt.str_of_int t0)
    (flat_map (λ t, map (λ o, (PyInt.str_of_int t, o)) (g t)) ts)
  = if decide (t0 ∈ ts) then g t0 else [].
Proof.
  induction 1 as [|t ts Ht _ IH]; [reflexivity|].
  cbn [flat_map]. rewrite occurrences_of_app, occurrences_of_tagged, IH.
  destruct (decide (t = t0)) as [->|Hne].
  - rewrite decide_True by reflexivity. rewrite (decide_False (P := t0 ∈ ts)) by exact Ht.
    rewrite decide_True by constructor. apply app_nil_r.
  - rewrite decide_False by (intros E%str_of_int_inj; congruence).
    cbn [app]. destruct (decide (t0 ∈ ts)) as [Hin|Hout].
    + rewrite decide_True; [reflexivity|now constructor].
    + rewrite decide_False; [reflexivity|].
      intros [E|E]%elem_of_cons; congruence.
Qed.

Lemma occurrences_of_none k (g : Z → list occurrence) ts :
  (∀ t, t ∈ ts → PyInt.str_of_int t ≠ k) →
  occurrences_of k (flat_map (λ t, map (λ o, (PyInt.str_of_int t, o)) (g t)) ts) = [].
Proof.
  induction ts as [|t ts IH]; intros H; [reflexivity|].
  cbn [flat_map]. rewrite occurrences_of_app, occurrences_of_tagged, IH.
  - rewrite decide_False; [reflexivity|]. apply H. constructor.
  - intros t' Ht'. apply H. now constructor.
Qed.

Lemma occurrences_of_pairs (r : record) k :
  wf_record r = true →
  occurrences_of k (pairs r)
  = match r !! k with Some f => occurrences f | None => [] end.
Proof.
  intros H.
  assert (record_all (λ k _, canonical_key k) r = true) as Hcan.
  { apply forallb_forall. intros [k' f] Hk'%list_elem_of_In%elem_of_map_to_list.
    now destruct (wf_record_lookup r k' f H Hk'). }
  destruct (r !! k) as [f|] eqn:E.
  - destruct (wf_record_lookup r k f H E) as (Hc & _ & _).
    destruct (canonical_key_spec k Hc) as [_ Hs].
    rewrite <- Hs at 1. unfold pairs.
    rewrite (occurrences_of_flat_map
               (λ t, occurrences (field_of r (PyInt.str_of_int t))))
      by now apply NoDup_tags.
    rewrite decide_True by now apply (tags_elem_of r k f).
    now rewrite Hs, (field_of_lookup r k f E).
  - unfold pairs. apply occurrences_of_none. intros t Ht Hk.
    destruct (elem_of_tags r t Ht) as (k' & f & Hk' & <-).
    destruct (wf_record_lookup r k' f H Hk') as (Hc & _ & _).
    destruct (canonical_key_spec k' Hc) as [_ Hs]. congruence.
Qed.

(** [_get_record_data] on the text of a well-formed record, behind any record
    number: the record comes back, a list of one occurrence as the
    occurrence. *)
Lemma get_record_data_body (r : record) idx :
  wf_record r = true → Forall (λ c, c ≠ 10) idx →
  _get_record_data (idx ++ 10 :: record_lines r) = Ok (scalar_collapse <$> r).
Proof.
  intros H Hidx. pose proof (pairs_wf r H) as Hp.
  unfold _get_record_data. rewrite get_record_data_loop_spec.
  rewrite (record_lines_pairs r H), split_fields.
  2: exact Hidx.
  2:{ apply Forall_fmap. eapply Forall_impl; [exact Hp|].
      intros [k o] (Hc & Hr & Ho). destruct (field_text_facts k o Hc Hr Ho) as (Hv & _).
      eapply Forall_impl; [exact Hv|]. intros c Hvc. apply Hvc. }
  assert (drop 1 (match map field_text (pairs r) with
                  | [] => [idx ++ [10]]
                  | _ => idx :: mark_last (map field_text (pairs r))
                  end) = mark_last (map field_text (pairs r))) as ->
    by now destruct (map field_text (pairs r)).
  rewrite mapM_mark_last.
  2:{ intros f ([k o] & -> & Hko)%list_elem_of_fmap.
      rewrite Forall_forall in Hp. destruct (Hp _ Hko) as (Hc & Hr & Ho).
      cbn [fst snd] in *. rewrite (field_tag_and_data_wf k o [10]) by auto.
      rewrite <- (app_nil_r (field_text (k, o))) at 1.
      now rewrite (field_tag_and_data_wf k o []) by auto. }
  rewrite (mapM_fmap_Ok field_tag_and_data field_text).
  2:{ intros [k o] Hko. rewrite Forall_forall in Hp.
      destruct (Hp _ Hko) as (Hc & Hr & Ho). cbn [fst snd] in *.
      rewrite <- (app_nil_r (field_text (k, o))).
      now apply field_tag_and_data_wf; auto. }
  f_equal. apply map_eq. intros k.
  rewrite collapse_lookup, occurrences_of_pairs, lookup_fmap by exact H.
  destruct (r !! k) as [f|] eqn:E; [|reflexivity]. cbn.
  destruct (wf_record_lookup r k f H E) as (_ & _ & Hf).
  destruct (wf_field_occurrences f Hf) as (Hn & _ & _ & Hcol).
  rewrite <- Hcol. unfold collapse.
  destruct (occurrences f) as [|o [|o' l]]; [congruence|reflexivity..].
Qed.
End record_groups.

(** ** Reading a file back *)

Section file_roundtrip.
Import Py IDFile.

Lemma value_stream_char c : value_char c → stream_char c.
Proof. unfold value_char, stream_char. tauto. Qed.

Lemma contains_none x p a : Forall (λ c, c ≠ x) a → contains (x :: p) a = false.
Proof.
  intros H. rewrite <- (app_nil_r a). now rewrite contains_app_head.
Qed.

Lemma lines_facts (ps : list (str * occurrence)) :
  Forall (λ p, canonical_key p.1 = true ∧ tag_in_range (key_int p.1) = true
               ∧ wf_occurrence p.2 = true) ps →
  let t := concat (map (λ f, u "!v" ++ f ++ [10]) (map field_text ps)) in
  contains (u "!ID ") t = false ∧ Forall stream_char t.
Proof.
  cbn zeta. induction 1 as [|[k o] ps (Hc & Hr & Ho) _ [IH1 IH2]];
    [split; [reflexivity|constructor]|].
  cbn [fst snd] in *. destruct (field_text_facts k o Hc Hr Ho) as (Hv & Hid & _).
  cbn [map concat]. split.
  - rewrite <- !app_assoc. rewrite (app_assoc (u "!v")). cbn [app].
    rewrite contains_sep by not_in_literal. now rewrite Hid, IH1.
  - apply Forall_app. split; [|exact IH2].
    change (u "!v" ++ field_text (k, o) ++ [10])
      with (33 :: 118 :: field_text (k, o) ++ [10]).
    assert (stream_char 33 ∧ stream_char 118 ∧ stream_char 10) as (? & ? & ?)
      by (unfold stream_char; repeat split; (discriminate || (left; reflexivity))).
    constructor; [assumption|]. constructor; [assumption|].
    apply Forall_app. split.
    + eapply Forall_impl; [exact Hv|]. apply value_stream_char.
    + constructor; [assumption|constructor].
Qed.

Lemma body_facts (r : record) index :
  wf_record r = true → (0 ≤ index)%Z →
  contains (u "!ID ") (body index r) = false
  ∧ Forall stream_char (body index r)
  ∧ _get_record_data (body index r) = Ok (scalar_collapse <$> r).
Proof.
  intros H Hi. unfold body.
  pose proof (zfill_digits 6 _ (str_of_int_digits index Hi)) as Hd.
  destruct (lines_facts (pairs r) (pairs_wf r H)) as [L1 L2]. cbn zeta in *.
  rewrite <- (record_lines_pairs r H) in L1, L2.
  repeat split.
  - change (u "!ID ") with (33 :: u "ID ") in *. rewrite contains_app_head.
    + change (10 :: record_lines r) with ([] ++ 10 :: record_lines r).
      rewrite contains_sep by not_in_literal. exact L1.
    + eapply Forall_impl; [exact Hd|]. intros c Hc. now apply digit_facts.
  - apply Forall_app. split.
    + eapply Forall_impl; [exact Hd|]. intros c Hc.
      now apply value_stream_char, digit_facts.
    + constructor; [|exact L2].
      unfold stream_char; repeat split; (discriminate || (left; reflexivity)).
  - apply get_record_data_body; [exact H|].
    eapply Forall_impl; [exact Hd|]. intros c Hc.
    destruct (digit_facts c Hc) as [Hv _]. apply Hv.
Qed.

Lemma format_file_from_wf index records :
  Forall (λ r, wf_record r = true) records →
  (0 ≤ index)%Z → (index + Z.of_nat (length records) ≤ 999999)%Z →
  _format_file_from new index records
  = Ok (map (app (u "!ID ")) (bodies_from index records)).
Proof.
  intros H. revert index. induction H as [|r records Hr _ IH]; intros index H0 Hl;
    [reflexivity|].
  rewrite length_cons in Hl. cbn [_format_file_from bodies_from map].
  rewrite format_id_valid by lia. cbn. rewrite (format_record_wf r Hr). cbn.
  rewrite IH by lia. cbn. do 2 f_equal.
  unfold id_line, body. now rewrite <- !app_assoc.
Qed.

Lemma bodies_from_facts index records :
  Forall (λ r, wf_record r = true) records → (0 ≤ index)%Z →
  Forall (λ b, contains (u "!ID ") b = false ∧ Forall stream_char b)
         (bodies_from index records)
  ∧ mapM _get_record_data (bodies_from index records)
    = Ok (map (fmap scalar_collapse) records).
Proof.
  intros H. revert index. induction H as [|r records Hr _ IH]; intros index H0;
    [split; [constructor|reflexivity]|].
  cbn [bodies_from]. destruct (body_facts r (index + 1) Hr ltac:(lia)) as (B1 & B2 & B3).
  destruct (IH (index + 1)%Z ltac:(lia)) as [I1 I2]. split.
  - constructor; [now split|exact I1].
  - cbn [mapM]. rewrite B3. cbn. rewrite I2. reflexivity.
Qed.

Lemma free_marker b rest :
  contains (u "!ID ") b = false →
  rest = [] ∨ (∃ rest', rest = 33 :: rest') →
  free (u "!ID ") b rest = true.
Proof.
  intros Hb Hr. induction b as [|c b IH]; [reflexivity|].
  apply contains_false_cons in Hb as [H1 H2].
  cbn [free]. rewrite (IH H2), andb_true_r. apply negb_true_iff.
  revert H1. lits. clear IH H2.
  destruct b as [|c1 [|c2 [|c3 b]]];
    destruct Hr as [->|(rest' & ->)]; cbn; intros H;
    rewrite ?andb_false_r; try reflexivity; exact H.
Qed.

Lemma split_records bodies :
  Forall (λ b, contains (u "!ID ") b = false) bodies →
  split (u "!ID ") (concat (map (app (u "!ID ")) bodies)) = [] :: bodies.
Proof.
  induction 1 as [|b bodies Hb _ IH]; [reflexivity|].
  cbn [map concat]. rewrite <- app_assoc, split_prefix by discriminate.
  rewrite split_app_free.
  - rewrite IH. now rewrite app_nil_r.
  - apply free_marker; [exact Hb|].
    destruct bodies as [|b' bodies]; [now left|right].
    cbn [map concat]. now eexists.
Qed.
End file_roundtrip.

Section stream_roundtrip.
Import Py IDFile.

Lemma wf_records_facts records :
  wf_records records = true →
  Forall (λ r, wf_record r = true) records
  ∧ (0 + Z.of_nat (length records) ≤ 999999)%Z.
Proof.
  unfold wf_records. intros [H1 H2%Z.leb_le]%andb_true_iff. split; [|lia].
  apply Forall_forall. intros r Hr%list_elem_of_In.
  rewrite forallb_forall in H1. now apply H1.
Qed.


Lemma write_content_Ok s records content :
  _format_file s records = Ok content →
  write_content s records
  = Ok (Encoding.PStr (charrefs (replace PRESERVECIRC (u "\^") (Html.unescape content)))).
Proof.
  intros H. unfold write_content. rewrite H. cbn [mbind result_bind].
  rewrite encode_latin1. reflexivity.
Qed.

(** The text that a well-formed sequence of records puts in the file, and
    what [read] makes of it. *)
Lemma stream_wf records :
  wf_records records = true →
  ∃ content,
    _format_file new records = Ok content
    ∧ Html.unescape content = content
    ∧ write_content new records
      = Ok (Encoding.PStr (charrefs (replace PRESERVECIRC (u "\^") content)))
    ∧ Html.unescape (charrefs (replace PRESERVECIRC (u "\^") content))
      = replace PRESERVECIRC (u "\^") content
    ∧ replace (u "\^") PRESERVECIRC (replace PRESERVECIRC (u "\^") content)
      = content
    ∧ Forall (λ c, c ≠ 13) (charrefs (replace PRESERVECIRC (u "\^") content))
    ∧ read_content (charrefs (replace PRESERVECIRC (u "\^") content))
      = Ok (map (fmap scalar_collapse) records).
Proof.
  intros [Hwf Hlen]%wf_records_facts.
  pose proof (format_file_from_wf 0 records Hwf ltac:(lia) Hlen) as Hf.
  destruct (bodies_from_facts 0 records Hwf ltac:(lia)) as [Hb Hm].
  set (bodies := bodies_from 0 records) in *.
  set (content := concat (map (app (u "!ID ")) bodies)).
  assert (Forall stream_char content) as Hch.
  { unfold content. apply Forall_concat, Forall_fmap.
    eapply Forall_impl; [exact Hb|]. intros b [_ Hs]. cbn.
    apply Forall_app. split; [|exact Hs]. lits.
    repeat (constructor;
            [unfold stream_char; repeat split; (discriminate || (left; reflexivity))|]).
    constructor. }
  set (stream := replace PRESERVECIRC (u "\^") content).
  assert (Forall (λ c, c ≠ 38 ∧ c ≠ 13
                       ∧ (c < 256 ∨ Html.numeric_charref c = [c])) stream) as Hst.
  { unfold stream. apply replace_Forall.
    - lits. repeat (constructor; [repeat split; (discriminate || (left; reflexivity))|]).
      constructor.
    - eapply Forall_impl; [exact Hch|]. unfold stream_char. tauto. }
  assert (Html.unescape content = content) as Hu1.
  { apply unescape_no_amp. eapply Forall_impl; [exact Hch|]. intros c Hc. apply Hc. }
  assert (Html.unescape (charrefs stream) = stream) as Hu2.
  { apply unescape_charrefs. eapply Forall_impl; [exact Hst|].
    intros c Hc. cbn beta in *. tauto. }
  assert (replace (u "\^") PRESERVECIRC stream = content) as Hu3.
  { apply unescape_escape_backslash. eapply Forall_impl; [exact Hch|].
    intros c Hc. apply Hc. }
  subst stream. exists content. split.
  { unfold _format_file. now rewrite Hf. }
  split; [exact Hu1|]. split.
  { rewrite (write_content_Ok new records content).
    - now rewrite Hu1.
    - unfold _format_file. now rewrite Hf. }
  split; [exact Hu2|]. split; [exact Hu3|]. split.
  { apply charrefs_Forall; try discriminate.
    - intros x [?%N.leb_le ?%N.leb_le]%andb_true_iff. lia.
    - eapply Forall_impl; [exact Hst|]. intros c Hc. cbn beta in *. tauto. }
  unfold read_content. cbn [Encoding.decode mbind result_bind]. rewrite Hu2, Hu3.
  unfold content. rewrite split_records.
  - cbn [drop]. exact Hm.
  - eapply Forall_impl; [exact Hb|]. intros b Hb'. cbn beta in *. tauto.
Qed.

Lemma roundtrip_wf records :
  wf_records records = true →
  roundtrip records = Ok (map (fmap scalar_collapse) records).
Proof.
  intros (content & _ & _ & Hw & _ & _ & _ & Hr)%stream_wf.
  unfold roundtrip. now rewrite Hw.
Qed.
End stream_roundtrip.

Section world_roundtrip.
Import Py IDFile.

End world_roundtrip.

(** ** The ampersand *)

Section ampersand.
Import Py IDFile.









Lemma startswith_chars p s : startswith p s = true → Forall (λ c, c ∈ s) p.
Proof.
  revert s. induction p as [|a p IH]; intros [|b s] H; try discriminate; constructor.
  - cbn in H. apply andb_true_iff in H as [->%N.eqb_eq _]. constructor.
  - cbn in H. apply andb_true_iff in H as [_ H].
    eapply Forall_impl; [apply (IH s H)|]. intros c Hc. now constructor.
Qed.

Lemma contains_chars p s : contains p s = true → Forall (λ c, c ∈ s) p.
Proof.
  induction s as [|b s IH]; intros H.
  - destruct p; [constructor|discriminate].
  - rewrite contains_cons in H. apply orb_true_iff in H as [H|H].
    + now apply startswith_chars.
    + eapply Forall_impl; [apply (IH H)|]. intros c Hc. now constructor.
Qed.









End ampersand.

Section escaped_circumflex.
Import Py.

Lemma escaped_as_backslash_circ v :
  contains PRESERVECIRC v = false →
  replace PRESERVECIRC (u "\^") (escape_circ v) = replace (u "^") (u "\^") v.
Proof.
  induction v as [|c v IH]; intros H; [reflexivity|].
  apply contains_false_cons in H as [H1 H2]. rewrite escape_circ_cons.
  destruct (N.eqb_spec c 94) as [->|Hc].
  - rewrite replace_prefix by discriminate.
    change (94 :: v) with (u "^" ++ v). rewrite replace_prefix by discriminate.
    now rewrite IH.
  - rewrite !replace_cons_no; [now rewrite IH|..].
    + lits. now apply startswith_head.
    + rewrite <- H1. unfold PRESERVECIRC. lits. cbn [startswith]. f_equal.
      apply (startswith_escape [80;82;69;83;69;82;86;69;67;73;82;67;93]).
      repeat constructor; discriminate.
Qed.
End escaped_circumflex.

(** * The claims *)

Section claims.
  Import IDFile.

(** C5: [_format_subfields] emits the subfields in the lexicographic order
    of their rendered tokens [^ + code + value], whatever the order in which
    the entries of the dict are listed: the text is the main value followed
    by the tokens, sorted. *)
Theorem C5_subfields_in_token_order
    (d : gmap str subvalue) (items : list (str * subvalue)) :
  items ≡ₚ map_to_list d →
  let tokens := PySort.sorted_str (map token items) in
  _format_subfields d = format_value (main_value d) ++ concat tokens
  ∧ Sorted PySort.str_le tokens
  ∧ tokens ≡ₚ map token items.
Proof.
  intros H tokens. split; [now apply format_subfields_listing|]. split.
  - apply sorted_str_Sorted.
  - apply sorted_str_Permutation.
Qed.

Lemma C5_witness :
  let d : gmap str subvalue := <[u "b" := SStr (u "2")]> {[ u "a" := SStr (u "1") ]} in
  let items := [(u "b", SStr (u "2")); (u "a", SStr (u "1"))] in
  items ≡ₚ map_to_list d ∧ _format_subfields d = u "^a1^b2".
Proof.
  intros d items.
  assert (items ≡ₚ map_to_list d) as H by (vm_compute; reflexivity).
  split; [exact H|].
  rewrite (proj1 (C5_subfields_in_token_order d items H)). reflexivity.
Defined.

(** The order is the order of the whole tokens: [^a9] comes before [^b1]. *)
Example subfields_a9_b1 :
  _format_subfields (<[u "a" := SStr (u "9")]> {[ u "b" := SStr (u "1") ]})
  = u "^a9^b1".
Proof. reflexivity. Qed.





(** C9: the range check of the tag is reached only for an occurrence that
    counts as true.  A record whose out-of-range tags all map to an empty
    string, list or dict, or to a list of such, is serialized without an
    error, and these fields yield no line. *)
Theorem C9_no_range_check_for_void_fields (r : record) :
  record_all (λ k v, canonical_key k
                     && (field_void v
                         || (tag_in_range (key_int k) && field_typed v))) r = true →
  _format_record new r = Ok (record_lines r)
  ∧ _format_file new [r] = Ok (id_line 1 ++ record_lines r)
  ∧ ∀ k v, r !! k = Some v → field_void v = true → field_lines k v = [].
Proof.
  intros H.
  assert (_format_record new r = Ok (record_lines r)) as Hr.
  { apply format_record_lines. intros k v Hkv.
    pose proof (record_all_lookup _ _ _ _ H Hkv) as [Hc Hv]%andb_true_iff.
    split; [exact Hc|]. apply orb_true_iff in Hv as [Hv|[Hi Ht]%andb_true_iff].
    - destruct (tag_data_void k v Hv) as (items & Hi & Hn).
      exists items. split; [exact Hi|]. rewrite Hn. symmetry.
      unfold field_lines. apply concat_all_nil, Forall_forall.
      intros x (o & -> & Ho)%list_elem_of_fmap.
      unfold field_void in Hv. rewrite forallb_forall in Hv.
      specialize (Hv o (proj1 (list_elem_of_In _ _) Ho)).
      apply negb_true_iff in Hv. unfold render. now rewrite Hv.
    - now apply tag_data_in_range. }
  split; [exact Hr|]. split.
  - unfold _format_file. cbn [_format_file_from].
    rewrite format_id_valid by lia. cbn. rewrite Hr. cbn.
    now rewrite app_nil_r.
  - intros k v _ Hv. unfold field_lines. apply concat_all_nil, Forall_forall.
    intros x (o & -> & Ho)%list_elem_of_fmap.
    unfold field_void in Hv. rewrite forallb_forall in Hv.
    specialize (Hv o (proj1 (list_elem_of_In _ _) Ho)).
    apply negb_true_iff in Hv. unfold render. now rewrite Hv.
Qed.

Lemma C9_witness :
  let r : record :=
    <[u "0" := FOcc (OStr [])]>
      (<[u "1000" := FList [OStr []; OStr []]]>
         (<[u "1001" := FOcc (ODict ∅)]> {[ u "245" := FOcc (OStr (u "Title")) ]})) in
  record_all (λ k v, canonical_key k
                     && (field_void v
                         || (tag_in_range (key_int k) && field_typed v))) r = true
  ∧ _format_file new [r] = Ok (u "!ID 000001" ++ [10] ++ u "!v245!Title" ++ [10]).
Proof.
  intros r.
  assert (record_all (λ k v, canonical_key k
                     && (field_void v
                         || (tag_in_range (key_int k) && field_typed v))) r = true)
    as H by (vm_compute; reflexivity).
  split; [exact H|].
  rewrite (proj1 (proj2 (C9_no_range_check_for_void_fields r H))).
  vm_compute. reflexivity.
Defined.

(** C4, as stated, fails: a record that maps the tag 1000 to an empty string
    is serialized, and the file is written. *)
Lemma C4_counterexample :
  let r : record := {[ u "1000" := FOcc (OStr []) ]} in
  tag_in_range (key_int (u "1000")) = false
  ∧ _format_file new [r] = Ok (u "!ID 000001" ++ [10])
  ∧ write new (u "/db/out.id") [r] (OS.World ∅ ∅ [])
    = (Ok (), OS.World {[ u "/db" ]}
                       {[ u "/db/out.id" := u "!ID 000001" ++ [10] ]} []).
Proof. vm_compute. repeat split. Qed.

(** C4, amended: serialization raises whenever there are more than 999999
    records, and whenever a record maps a tag outside 1..999 to a field with
    an occurrence that counts as true.  When the keys are canonical and the
    occurrences are strings or dicts, the exception is one of the two range
    errors ([IndexError] for the record number, [ValueError] for the tag).
    [write] then raises as well, and leaves every file, and the output, as
    they were (the directory of the file may have been made by then). *)
Theorem C4_range_errors (s : self) (records : list record) :
  (999999 < Z.of_nat (length records))%Z
  ∨ (∃ r k v, r ∈ records ∧ r !! k = Some v ∧ canonical_key k = true
              ∧ tag_in_range (key_int k) = false
              ∧ field_typed v = true ∧ field_void v = false) →
  ∃ e, _format_file s records = Raise e
       ∧ (Forall (λ r, record_typed r = true) records → range_error e)
       ∧ ∀ filename w, ∃ e' w',
           write s filename records w = (Raise e', w')
           ∧ OS.files w' = OS.files w ∧ OS.stdout w' = OS.stdout w.
Proof.
  intros H.
  assert (is_ok (_format_file s records) = false) as Hf.
  { rewrite is_ok_format_file. destruct H as [H|(r & k & v & Hr & Hkv & Hc & Ho & Ht & Hv)].
    - apply format_file_from_too_long. lia.
    - apply (format_file_from_raise _ _ _ r Hr).
      apply (format_record_raise _ _ k v Hkv Hc).
      now rewrite tag_data_out_of_range. }
  destruct (_format_file s records) as [|e] eqn:E; [discriminate|].
  exists e. split; [reflexivity|]. split.
  - intros Hty. pose proof (format_file_raises s records Hty) as Hr.
    now rewrite E in Hr.
  - intros filename w. now apply (write_raise s filename records w e).
Qed.

Lemma C4_witness :
  let r : record := {[ u "1000" := FOcc (OStr (u "x")) ]} in
  ((999999 < Z.of_nat (length [r]))%Z
   ∨ (∃ r' k v, r' ∈ [r] ∧ r' !! k = Some v ∧ canonical_key k = true
                ∧ tag_in_range (key_int k) = false
                ∧ field_typed v = true ∧ field_void v = false))
  ∧ ∃ e, _format_file new [r] = Raise e
         ∧ (Forall (λ r, record_typed r = true) [r] → range_error e)
         ∧ ∀ filename w, ∃ e' w',
             write new filename [r] w = (Raise e', w')
             ∧ OS.files w' = OS.files w ∧ OS.stdout w' = OS.stdout w.
Proof.
  intros r.
  assert ((999999 < Z.of_nat (length [r]))%Z
   ∨ (∃ r' k v, r' ∈ [r] ∧ r' !! k = Some v ∧ canonical_key k = true
                ∧ tag_in_range (key_int k) = false
                ∧ field_typed v = true ∧ field_void v = false)) as H.
  { right. exists r, (u "1000"), (FOcc (OStr (u "x"))).
    split; [apply list_elem_of_here|]. repeat split; vm_compute; reflexivity. }
  split; [exact H|]. exact (C4_range_errors new [r] H).
Defined.

(** The record number 1000000 and the tags 1000 and 0 are refused. *)
Example range_checks :
  _format_id 1000000 = Raise IndexError
  ∧ _tag_content (u "1000") (u "x") = Raise ValueError
  ∧ _tag_content (u "0") (u "x") = Raise ValueError
  ∧ _format_file new [ {[ u "0" := FOcc (OStr (u "x")) ]} ] = Raise ValueError.
Proof. vm_compute. repeat split. Qed.

(** C7: [_get_record_data] keeps the occurrences of a tag in the order of the
    stream; a tag with exactly one occurrence is stored as that occurrence,
    a tag with two or more as their list, and a tag without occurrence is
    absent.  It raises exactly when reading one of the fields raises. *)
Theorem C7_one_occurrence_is_scalar (rec : str) :
  match mapM field_tag_and_data (drop 1 (Py.split (10 :: u "!v") rec)) with
  | Ok parsed =>
      ∃ data, _get_record_data rec = Ok data
              ∧ ∀ tag, data !! tag =
                       match occurrences_of tag parsed with
                       | [] => None
                       | [o] => Some (FOcc o)
                       | occs => Some (FList occs)
                       end
  | Raise e => _get_record_data rec = Raise e
  end.
Proof.
  unfold _get_record_data. rewrite get_record_data_loop_spec.
  destruct (mapM field_tag_and_data _) as [parsed|e]; [|reflexivity].
  eexists. split; [reflexivity|]. intros tag. apply collapse_lookup.
Qed.

(** A record read from a stream: one [!v100!] line gives a string, two
    [!v700!] lines give a list. *)
Example one_and_two_occurrences :
  _get_record_data (u "000001" ++ [10] ++ u "!v100!A" ++ [10] ++ u "!v700!B"
                    ++ [10] ++ u "!v700!C^xD" ++ [10])
  = Ok (<[u "100" := FOcc (OStr (u "A"))]>
          {[ u "700" := FList [OStr (u "B");
                               ODict (<[u "_" := SStr (u "C")]> {[ u "x" := SStr (u "D") ]})] ]}).
Proof. vm_compute. reflexivity. Qed.




(** C2, as stated, fails: a value that holds a circumflex and the text of
    the placeholder comes back with two circumflexes. *)
Lemma C2_counterexample :
  let r : record := {[ u "1" := FOcc (OStr (u "^[PRESERVECIRC]")) ]} in
  let r' : record := {[ u "1" := FOcc (OStr (u "^^")) ]} in
  roundtrip [r] = Ok [r'] ∧ r' ≠ r.
Proof.
  intros r r'. split; [vm_compute; reflexivity|].
  intros H. apply (f_equal (λ m : record, m !! u "1")) in H.
  vm_compute in H. discriminate.
Qed.

(** The subfield delimiter behind a backslash is taken for a circumflex. *)
Example backslash_before_delimiter :
  roundtrip [ {[ u "1" := FOcc (ODict (<[u "_" := SStr (u "^\")]>
                                         {[ u "a" := SStr (u "b") ]})) ]} ]
  = Ok [ {[ u "1" := FOcc (OStr (u "^^ab")) ]} ].
Proof. vm_compute. reflexivity. Qed.

(** C2, amended: a record with well-formed values, circumflexes included
    (no backslash, no text of the placeholder), is read back as it was; a
    circumflex of a value is [\^] in the stream, and the reader turns it
    into the circumflex again. *)
Theorem C2_circumflex_preserved (r : record) :
  wf_record r = true →
  roundtrip [r] = Ok [scalar_collapse <$> r]
  ∧ ∀ v, wf_text v = true →
      Py.replace PRESERVECIRC (u "\^") (format_value (SStr v))
      = Py.replace (u "^") (u "\^") v
      ∧ Py.replace PRESERVECIRC (u "^")
          (Py.replace (u "\^") PRESERVECIRC
             (Py.replace PRESERVECIRC (u "\^") (format_value (SStr v))))
        = v.
Proof.
  intros H. split.
  - apply (roundtrip_wf [r]). unfold wf_records. cbn [forallb length].
    now rewrite H.
  - intros v Hv. destruct (wf_text_facts v Hv) as (_ & _ & Hp & Hc & _).
    rewrite format_value_wf by exact Hv. split.
    + now apply escaped_as_backslash_circ.
    + rewrite unescape_escape_backslash; [now apply unescape_escape_circ|].
      apply escape_circ_Forall.
      * unfold PRESERVECIRC. lits. repeat constructor; discriminate.
      * destruct (wf_text_chars v Hv) as (Hch & _).
        eapply Forall_impl; [exact Hch|]. intros c Hvc. apply Hvc.
Qed.

Lemma C2_witness :
  let r : record :=
    <[u "1" := FOcc (OStr (u "a^b"))]>
      {[ u "2" := FOcc (ODict (<[u "_" := SStr (u "^")]>
                                 {[ u "a" := SStr (u "x^^ y") ]})) ]} in
  wf_record r = true ∧ roundtrip [r] = Ok [scalar_collapse <$> r].
Proof.
  intros r. assert (wf_record r = true) as H by (vm_compute; reflexivity).
  split; [exact H|]. exact (proj1 (C2_circumflex_preserved r H)).
Defined.

(** C3, as stated, fails: U+2003 (em space) is outside iso-8859-1 and is a
    blank for [str.split()], so the value comes back with a space. *)
Lemma C3_counterexample :
  let r : record := {[ u "1" := FOcc (OStr (u "a" ++ [8195] ++ u "b")) ]} in
  let r' : record := {[ u "1" := FOcc (OStr (u "a b")) ]} in
  roundtrip [r] = Ok [r'] ∧ r' ≠ r.
Proof.
  intros r r'. split; [vm_compute; reflexivity|].
  intros H. apply (f_equal (λ m : record, m !! u "1")) in H.
  vm_compute in H. discriminate.
Qed.

(** A character whose numeric reference [html.unescape] drops does not come
    back either: U+FFFE. *)
Example noncharacter_lost :
  roundtrip [ {[ u "1" := FOcc (OStr (u "a" ++ [65534])) ]} ]
  = Ok [ {[ u "1" := FOcc (OStr (u "a")) ]} ].
Proof. vm_compute. reflexivity. Qed.

(** C3, amended: [encode] never raises; it returns bytes of iso-8859-1 in
    which every character above 255 is replaced by its decimal reference,
    and [html.unescape] gives the text back when its characters are plain
    ([plain_char]: no ampersand, and above 255 only characters that the
    reference decodes to).  Records with well-formed values, which may hold
    such characters but no blank other than single spaces, are written as
    iso-8859-1 text and read back as they were. *)
Theorem C3_unicode_survives (records : list record) :
  wf_records records = true →
  (∀ s, Encoding.encode (Encoding.PStr s) Encoding.Latin1
        = Ok (Encoding.PBytes (charrefs s))
        ∧ forallb (λ c, c <? 256) (charrefs s) = true)
  ∧ (∀ s, forallb plain_char s = true → Html.unescape (charrefs s) = s)
  ∧ ∃ stream, write_content new records = Ok (Encoding.PStr stream)
              ∧ forallb (λ c, c <? 256) stream = true
              ∧ read_content stream = Ok (map (fmap scalar_collapse) records).
Proof.
  intros H. split; [|split].
  - intros s. split; [apply encode_latin1|apply charrefs_bytes].
  - apply unescape_charrefs_plain.
  - destruct (stream_wf records H) as (content & _ & _ & Hw & _ & _ & _ & Hr).
    eexists. split; [exact Hw|]. split; [apply charrefs_bytes|exact Hr].
Qed.

Lemma C3_witness :
  let records : list record :=
    [ {[ u "245" := FOcc (OStr ([20013; 25991] ++ u " title " ++ [8364])) ]} ] in
  wf_records records = true
  ∧ write_content new records
    = Ok (Encoding.PStr (u "!ID 000001" ++ [10]
                         ++ u "!v245!&#20013;&#25991; title &#8364;" ++ [10]))
  ∧ roundtrip records = Ok records.
Proof.
  intros records.
  assert (wf_records records = true) as H by (vm_compute; reflexivity).
  split; [exact H|].
  destruct (proj2 (proj2 (C3_unicode_survives records H))) as (stream & Hw & _ & Hr).
  split.
  - vm_compute. reflexivity.
  - unfold roundtrip. rewrite Hw. exact Hr.
Defined.




End claims.

(** * Further properties of the code *)

(** ** encoding.py *)

Section encoding_props.
Import Encoding.

Ltac div_lia := zify; Z.to_euclidean_division_equations; lia.

Lemma str_encode_only_encode_error enc err s :
  raises_only (eq UnicodeEncodeError) (str_encode enc err s).
Proof.
  induction s as [|c s IH]; cbn [str_encode]; [exact I|].
  destruct (encodable enc c).
  - destruct (str_encode enc err s); cbn; [exact I|exact IH].
  - destruct err; cbn; [reflexivity|].
    destruct (str_encode enc XmlCharRefReplace s); cbn; [exact I|exact IH].
Qed.

Lemma str_encode_replace_Ok enc s :
  ∃ b, str_encode enc XmlCharRefReplace s = Ok b.
Proof.
  induction s as [|c s [b IH]]; cbn [str_encode]; [now eexists|].
  rewrite IH. destruct (encodable enc c); cbn; now eexists.
Qed.

Lemma utf8_of_bytes c : c < 0x110000 → Forall (λ x, x < 256) (utf8_of c).
Proof.
  intros H. unfold utf8_of.
  destruct (N.ltb_spec c 0x80); [repeat constructor; lia|].
  destruct (N.ltb_spec c 0x800); [repeat constructor; div_lia|].
  destruct (N.ltb_spec c 0x10000); repeat constructor; div_lia.
Qed.

Lemma str_encode_bytes enc err s b :
  Forall (λ c, c < 0x110000) s → str_encode enc err s = Ok b →
  Forall (λ x, x < 256) b.
Proof.
  intros Hs. revert b. induction Hs as [|c s Hc Hs IH]; intros b; cbn [str_encode].
  - intros [= <-]. constructor.
  - assert (∀ pre, Forall (λ x, x < 256) pre →
              (str_encode enc err s ≫= λ b0, Ok (pre ++ b0)) = Ok b →
              Forall (λ x, x < 256) b) as Hpre.
    { intros pre Hp (b0 & Hb0 & [= <-])%bind_Ok.
      apply Forall_app. split; [exact Hp|now apply IH]. }
    destruct (encodable enc c) eqn:E.
    + apply Hpre. destruct enc; cbn.
      * cbn in E. apply N.ltb_lt in E. repeat constructor. exact E.
      * now apply utf8_of_bytes.
    + destruct err; [discriminate|]. apply Hpre.
      eapply Forall_impl; [apply charref_of_chars|].
      intros x [->|[->|[->|Hd]]]; try lia.
      unfold PyInt.is_digit in Hd. apply andb_true_iff in Hd as [_ Hd].
      apply N.leb_le in Hd. lia.
Qed.

Lemma utf8_decode_of c r :
  unicode_scalar c = true →
  utf8_decode (utf8_of c ++ r) = (s ← utf8_decode r; Ok (c :: s)).
Proof.
  intros H. unfold unicode_scalar in H.
  assert (c < 0xD800 ∨ 0xE000 ≤ c < 0x110000) as Hc.
  { apply orb_true_iff in H as [H|[H1 H2]%andb_true_iff].
    - left. now apply N.ltb_lt.
    - right. split; [now apply N.leb_le|now apply N.ltb_lt]. }
  clear H. unfold utf8_of.
  destruct (N.ltb_spec c 0x80) as [H1|H1].
  { cbn [app utf8_decode]. now rewrite (proj2 (N.ltb_lt c 0x80) H1). }
  destruct (N.ltb_spec c 0x800) as [H2|H2].
  { cbn [app utf8_decode].
    rewrite (proj2 (N.ltb_ge _ _)) by div_lia.
    rewrite (proj2 (N.leb_le 0xC2 _)) by div_lia.
    rewrite (proj2 (N.leb_le _ 0xDF)) by div_lia.
    cbn [andb]. unfold is_cont.
    rewrite (proj2 (N.leb_le 0x80 _)) by div_lia.
    rewrite (proj2 (N.leb_le _ 0xBF)) by div_lia.
    cbn [andb].
    replace ((0xC0 + c / 64 - 0xC0) * 64 + (0x80 + c mod 64 - 0x80)) with c
      by div_lia.
    reflexivity. }
  destruct (N.ltb_spec c 0x10000) as [H3|H3].
  { cbn [app utf8_decode].
    rewrite (proj2 (N.ltb_ge _ _)) by div_lia.
    rewrite (proj2 (N.leb_gt _ 0xDF)) by div_lia.
    rewrite andb_false_r.
    rewrite (proj2 (N.leb_le 0xE0 _)) by div_lia.
    rewrite (proj2 (N.leb_le _ 0xEF)) by div_lia.
    cbn [andb]. unfold is_cont.
    rewrite !(proj2 (N.leb_le 0x80 _)) by div_lia.
    rewrite !(proj2 (N.leb_le _ 0xBF)) by div_lia.
    cbn [andb].
    assert (negb ((0xE0 + c / 4096 =? 0xE0)
                  && (0x80 + (c / 64) mod 64 <? 0xA0)) = true) as ->.
    { apply negb_true_iff, andb_false_iff.
      destruct (N.eqb_spec (0xE0 + c / 4096) 0xE0); [right|now left].
      apply N.ltb_ge. div_lia. }
    assert (negb ((0xE0 + c / 4096 =? 0xED)
                  && (0x9F <? 0x80 + (c / 64) mod 64)) = true) as ->.
    { apply negb_true_iff, andb_false_iff.
      destruct (N.eqb_spec (0xE0 + c / 4096) 0xED); [right|now left].
      apply N.ltb_ge. div_lia. }
    cbn [andb].
    replace ((0xE0 + c / 4096 - 0xE0) * 4096
             + (0x80 + (c / 64) mod 64 - 0x80) * 64
             + (0x80 + c mod 64 - 0x80)) with c by div_lia.
    reflexivity. }
  cbn [app utf8_decode].
  rewrite (proj2 (N.ltb_ge _ _)) by div_lia.
  rewrite (proj2 (N.leb_gt _ 0xDF)) by div_lia.
  rewrite andb_false_r.
  rewrite (proj2 (N.leb_gt _ 0xEF)) by div_lia.
  rewrite andb_false_r.
  rewrite (proj2 (N.leb_le 0xF0 _)) by div_lia.
  rewrite (proj2 (N.leb_le _ 0xF4)) by div_lia.
  cbn [andb]. unfold is_cont.
  rewrite !(proj2 (N.leb_le 0x80 _)) by div_lia.
  rewrite !(proj2 (N.leb_le _ 0xBF)) by div_lia.
  cbn [andb].
  assert (negb ((0xF0 + c / 262144 =? 0xF0)
                && (0x80 + (c / 4096) mod 64 <? 0x90)) = true) as ->.
  { apply negb_true_iff, andb_false_iff.
    destruct (N.eqb_spec (0xF0 + c / 262144) 0xF0); [right|now left].
    apply N.ltb_ge. div_lia. }
  assert (negb ((0xF0 + c / 262144 =? 0xF4)
                && (0x8F <? 0x80 + (c / 4096) mod 64)) = true) as ->.
  { apply negb_true_iff, andb_false_iff.
    destruct (N.eqb_spec (0xF0 + c / 262144) 0xF4); [right|now left].
    apply N.ltb_ge. div_lia. }
  cbn [andb].
  replace ((0xF0 + c / 262144 - 0xF0) * 262144
           + (0x80 + (c / 4096) mod 64 - 0x80) * 4096
           + (0x80 + (c / 64) mod 64 - 0x80) * 64
           + (0x80 + c mod 64 - 0x80)) with c by div_lia.
  reflexivity.
Qed.

Lemma unicode_scalar_encodable c : unicode_scalar c = true → encodable Utf8 c = true.
Proof.
  unfold unicode_scalar, encodable. intros H. apply negb_true_iff, andb_false_iff.
  apply orb_true_iff in H as [H|[H1 H2]%andb_true_iff].
  - left. apply N.leb_gt. now apply N.ltb_lt.
  - right. apply N.leb_gt. apply N.leb_le in H1. lia.
Qed.

Lemma str_encode_utf8 s :
  forallb unicode_scalar s = true → str_encode Utf8 Strict s = Ok (utf8_bytes s).
Proof.
  induction s as [|c s IH]; [reflexivity|]. cbn [forallb].
  intros [Hc Hs]%andb_true_iff. cbn [str_encode].
  rewrite (unicode_scalar_encodable c Hc), (IH Hs). reflexivity.
Qed.

Lemma utf8_decode_bytes s :
  forallb unicode_scalar s = true → utf8_decode (utf8_bytes s) = Ok s.
Proof.
  induction s as [|c s IH]; [reflexivity|]. cbn [forallb].
  intros [Hc Hs]%andb_true_iff. unfold utf8_bytes. cbn [map concat].
  rewrite (utf8_decode_of c _ Hc). fold (utf8_bytes s). now rewrite (IH Hs).
Qed.

Lemma charrefs_fixed s : charrefs s = s ↔ forallb (λ c, c <? 256) s = true.
Proof.
  split; [|apply charrefs_latin1].
  induction s as [|c s IH]; [reflexivity|]. rewrite charrefs_cons. cbn [forallb].
  destruct (c <? 256) eqn:E.
  - intros [= H]. now apply IH.
  - unfold charref_of. lits. intros [= H _]. apply N.ltb_ge in E. lia.
Qed.

(** X1: [encode] never raises.  A string is turned into bytes under either
    codec, the second attempt with [xmlcharrefreplace] taking over when the
    first one meets a character that the codec does not have; every byte is
    below 256 when the string holds code points only.  A [bytes] object is
    returned as it is. *)
Theorem encode_never_raises (content : text) (enc : codec) :
  ∃ b, encode content enc = Ok (PBytes b)
       ∧ match content with
         | PBytes b0 => b = b0
         | PStr s => Forall (λ c, c < 0x110000) s → Forall (λ x, x < 256) b
         end.
Proof.
  destruct content as [s|b0]; [|now exists b0].
  unfold encode.
  pose proof (str_encode_only_encode_error enc Strict s) as Hr.
  destruct (str_encode enc Strict s) as [b|e] eqn:E.
  - exists b. split; [reflexivity|]. intros Hs. now apply (str_encode_bytes enc Strict s).
  - cbn in Hr. subst e. destruct (str_encode_replace_Ok enc s) as [b Hb].
    exists b. rewrite Hb. split; [reflexivity|]. intros Hs.
    now apply (str_encode_bytes enc XmlCharRefReplace s).
Qed.

(** X2: under UTF-8, [decode] undoes [encode] on every string of Unicode
    scalar values (code points that are not surrogates). *)
Theorem decode_encode_utf8 (s : str) :
  forallb unicode_scalar s = true →
  encode (PStr s) Utf8 = Ok (PBytes (utf8_bytes s))
  ∧ decode (PBytes (utf8_bytes s)) Utf8 = Ok (PStr s).
Proof.
  intros H. split.
  - unfold encode. now rewrite str_encode_utf8.
  - unfold decode, bytes_decode. now rewrite utf8_decode_bytes.
Qed.

Lemma decode_encode_utf8_witness :
  let s := [97; 233; 8364; 128512] in
  forallb unicode_scalar s = true
  ∧ encode (PStr s) Utf8
    = Ok (PBytes [97; 0xC3; 0xA9; 0xE2; 0x82; 0xAC; 0xF0; 0x9F; 0x98; 0x80])
  ∧ decode (PBytes (utf8_bytes s)) Utf8 = Ok (PStr s).
Proof.
  intros s. assert (forallb unicode_scalar s = true) as H by (vm_compute; reflexivity).
  split; [exact H|]. destruct (decode_encode_utf8 s H) as [H1 H2].
  split; [rewrite H1; vm_compute; reflexivity|exact H2].
Defined.

(** X3: under iso-8859-1, [decode] after [encode] gives the string with its
    characters above 255 written as numeric references; it gives the string
    back exactly when the string has no such character. *)
Theorem decode_encode_latin1 (s : str) :
  (encode (PStr s) Latin1 ≫= λ b, decode b Latin1) = Ok (PStr (charrefs s))
  ∧ (charrefs s = s ↔ forallb (λ c, c <? 256) s = true).
Proof.
  split; [|apply charrefs_fixed]. now rewrite encode_latin1.
Qed.

End encoding_props.

(** ** remove_break_lines_characters and format_value *)

Section normal_form.
Import Py.

Lemma split_ws_word_sep w x rest :
  word w → is_space x = true → split_ws (w ++ x :: rest) = w :: split_ws rest.
Proof.
  intros [Hne Hw] Hx. induction Hw as [|c w Hc Hw IH]; [congruence|].
  rewrite <- app_comm_cons, split_ws_cons, Hc.
  destruct w as [|d w].
  - cbn [app]. rewrite Hx. f_equal. now rewrite split_ws_cons, Hx.
  - cbn [app]. rewrite (Forall_inv Hw). cbn [app] in IH.
    rewrite IH by discriminate. reflexivity.
Qed.

Lemma split_ws_word w : word w → split_ws w = [w].
Proof.
  intros [Hne Hw]. induction Hw as [|c w Hc Hw IH]; [congruence|].
  rewrite split_ws_cons, Hc. destruct w as [|d w]; [reflexivity|].
  rewrite (Forall_inv Hw), IH by discriminate. reflexivity.
Qed.

Lemma split_ws_join ws : Forall word ws → split_ws (join (u " ") ws) = ws.
Proof.
  induction 1 as [|w ws Hw Hws IH]; [reflexivity|].
  rewrite join_cons. destruct ws as [|w' ws]; [now apply split_ws_word|].
  change (u " " ++ join (u " ") (w' :: ws)) with (32 :: join (u " ") (w' :: ws)).
  rewrite split_ws_word_sep by (exact Hw || reflexivity). now rewrite IH.
Qed.

Lemma no_double_space_word w t :
  word w → clean_head t = true → contains (u "  ") t = false →
  contains (u "  ") (w ++ 32 :: t) = false.
Proof.
  intros [_ Hw] Ht Hc. induction Hw as [|c w Hcw Hw IH].
  - cbn [app]. rewrite contains_cons, Hc, orb_false_r.
    destruct t as [|d t]; [reflexivity|]. cbn in Ht.
    change (u "  ") with [32; 32]. cbn [startswith].
    destruct (N.eqb_spec 32 d) as [<-|]; [discriminate|]. reflexivity.
  - rewrite <- app_comm_cons, contains_cons, IH, orb_false_r.
    change (u "  ") with [32; 32]. apply startswith_head.
    intros ->. discriminate.
Qed.

Lemma no_double_space_join ws :
  Forall word ws → contains (u "  ") (join (u " ") ws) = false.
Proof.
  induction 1 as [|w ws Hw Hws IH]; [reflexivity|].
  rewrite join_cons. destruct ws as [|w' ws].
  - destruct Hw as [_ Hw]. apply contains_none.
    eapply Forall_impl; [exact Hw|]. intros c Hc ->. discriminate.
  - change (u " " ++ join (u " ") (w' :: ws)) with (32 :: join (u " ") (w' :: ws)).
    apply no_double_space_word; [exact Hw| |exact IH].
    now destruct (join_words (w' :: ws) Hws) as (_ & ? & _).
Qed.

Lemma escape_circ_fixed v : Forall (λ c, c ≠ 94) v → escape_circ v = v.
Proof.
  induction 1 as [|c v Hc Hv IH]; [apply escape_circ_nil|].
  rewrite escape_circ_cons, IH. now destruct (N.eqb_spec c 94).
Qed.

Lemma escape_circ_word w : word w → word (escape_circ w).
Proof.
  intros [Hne Hw]. split; [now apply escape_circ_nonempty|].
  apply escape_circ_Forall; [|exact Hw].
  unfold PRESERVECIRC. lits. repeat constructor.
Qed.

Lemma escape_circ_join ws :
  escape_circ (join (u " ") ws) = join (u " ") (map escape_circ ws).
Proof.
  induction ws as [|w ws IH]; [apply escape_circ_nil|].
  cbn [map]. rewrite !join_cons. destruct ws as [|w' ws]; [reflexivity|].
  cbn [map] in *. rewrite !escape_circ_app, IH. reflexivity.
Qed.

Lemma format_value_escape v :
  ∃ ws, Forall word ws
        ∧ format_value v = join (u " ") (map escape_circ ws)
        ∧ format_value v = escape_circ (join (u " ") ws).
Proof.
  set (content := match v with SStr s => s | STuple t => join (u ", ") t end).
  exists (split_ws content). split; [apply split_ws_words|].
  assert (format_value v = escape_circ (join (u " ") (split_ws content))) as H.
  { unfold format_value. fold content. fold (escape_circ (strip (remove_break_lines_characters content))).
    now destruct (normalized_facts content) as (-> & _). }
  split; [|exact H]. now rewrite H, escape_circ_join.
Qed.

Lemma format_value_circ_free v : Forall (λ c, c ≠ 94) (format_value v).
Proof.
  destruct (format_value_escape v) as (ws & _ & _ & ->). apply escape_circ_no_circ.
Qed.

(** X4: [remove_break_lines_characters] returns a normal form.  Applying it
    again changes nothing; the result has no blank at either end (so the
    [strip] that [format_value] applies to it changes nothing), its only
    blanks are spaces, and no two spaces are adjacent. *)
Theorem remove_break_lines_characters_normal (s : str) :
  let j := remove_break_lines_characters s in
  remove_break_lines_characters j = j
  ∧ strip j = j
  ∧ Forall (λ c, is_space c = true → c = 32) j
  ∧ contains (u "  ") j = false.
Proof.
  intros j. pose proof (split_ws_words s) as Hw.
  destruct (normalized_facts s) as (Hs & _ & _ & Hc). fold j in Hs, Hc.
  split; [|split; [exact Hs|split]].
  - unfold j, remove_break_lines_characters. now rewrite split_ws_join.
  - eapply Forall_impl; [exact Hc|]. intros c [H|H] Hsp; [congruence|exact H].
  - now apply no_double_space_join.
Qed.

Lemma format_value_blanks v : Forall (λ c, is_space c = true → c = 32) (format_value v).
Proof.
  destruct (format_value_escape v) as (ws & Hws & -> & _).
  assert (Forall word (map escape_circ ws)) as Hws'.
  { apply Forall_fmap. eapply Forall_impl; [exact Hws|]. apply escape_circ_word. }
  destruct (join_words _ Hws') as (_ & _ & _ & Hc).
  eapply Forall_impl; [exact Hc|]. intros c [H|H] Hsp; [congruence|exact H].
Qed.

(** X5: the result of [format_value] holds no circumflex and no blank other
    than the space (so no line feed), for a string and for a tuple alike,
    and formatting it again changes nothing. *)
Theorem format_value_no_circumflex (v : subvalue) :
  Forall (λ c, c ≠ 94) (format_value v)
  ∧ Forall (λ c, is_space c = true → c = 32) (format_value v)
  ∧ format_value (SStr (format_value v)) = format_value v.
Proof.
  destruct (format_value_escape v) as (ws & Hws & Hj & He).
  pose proof (format_value_circ_free v) as Hn.
  split; [exact Hn|]. split; [apply format_value_blanks|].
  assert (Forall word (map escape_circ ws)) as Hws'.
  { apply Forall_fmap. eapply Forall_impl; [exact Hws|]. apply escape_circ_word. }
  unfold format_value at 1.
  fold (escape_circ (strip (remove_break_lines_characters (format_value v)))).
  assert (remove_break_lines_characters (format_value v) = format_value v) as ->.
  { rewrite Hj. unfold remove_break_lines_characters. now rewrite split_ws_join. }
  assert (strip (format_value v) = format_value v) as ->.
  { destruct (normalized_facts (join (u " ") (map escape_circ ws))) as (Hst & _).
    unfold remove_break_lines_characters in Hst.
    rewrite (split_ws_join _ Hws') in Hst. now rewrite Hj. }
  now apply escape_circ_fixed.
Qed.

End normal_form.

(** ** IDFile._format_id *)

Section record_number.
Import Py PyInt IDFile.

Lemma of_uint_acc_lower l acc :
  N.pos acc * 10 ^ N.of_nat (length (uint_digits l)) ≤ N.pos (Pos.of_uint_acc l acc).
Proof.
  revert acc. induction l as [|l IH|l IH|l IH|l IH|l IH|l IH|l IH|l IH|l IH|l IH];
    intros acc; cbn [uint_digits length Pos.of_uint_acc];
    [rewrite N.pow_0_r; lia|..];
    rewrite Nat2N.inj_succ, N.pow_succ_r', N.mul_assoc;
    (etransitivity; [|apply IH]); apply N.mul_le_mono_r; lia.
Qed.

Lemma pos_to_uint_unorm p : Decimal.unorm (Pos.to_uint p) = Pos.to_uint p.
Proof.
  rewrite <- DecimalPos.Unsigned.to_of, DecimalPos.Unsigned.of_to. reflexivity.
Qed.

Lemma pos_digits_bound p n :
  N.pos p < 10 ^ N.of_nat n → (length (uint_digits (Pos.to_uint p)) ≤ n)%nat.
Proof.
  intros Hp.
  pose proof (DecimalPos.Unsigned.of_to p) as Hof.
  pose proof (pos_to_uint_unorm p) as Hn.
  pose proof (DecimalPos.Unsigned.to_uint_nonzero p) as Hz.
  pose proof (DecimalPos.Unsigned.to_uint_nonnil p) as Hnil.
  assert (∀ l k, N.pos (Pos.of_uint_acc l k) = N.pos p →
            (S (length (uint_digits l)) ≤ n)%nat) as Hlead.
  { intros l k E. pose proof (of_uint_acc_lower l k) as Hl. rewrite E in Hl.
    assert (10 ^ N.of_nat (length (uint_digits l)) < 10 ^ N.of_nat n) as Hlt.
    { eapply N.le_lt_trans; [|exact Hp]. etransitivity; [|exact Hl].
      rewrite <- (N.mul_1_l (10 ^ _)) at 1. apply N.mul_le_mono_r. lia. }
    apply N.pow_lt_mono_r_iff in Hlt; lia. }
  destruct (Pos.to_uint p) as [|l|l|l|l|l|l|l|l|l|l];
    [congruence| |cbn [uint_digits length]; cbn [Pos.of_uint] in Hof;
                  exact (Hlead l _ Hof)..].
  exfalso. unfold Decimal.unorm in Hn. cbn [Decimal.nzhead] in Hn.
  pose proof (DecimalFacts.nb_digits_nzhead l) as Hd.
  destruct (Decimal.nzhead l) eqn:E; try discriminate.
  - injection Hn as <-. now apply Hz.
  - injection Hn as ->. cbn in Hd. lia.
Qed.

Lemma str_of_int_length z n :
  (0 ≤ z < 10 ^ Z.of_nat n)%Z → (1 ≤ n)%nat → (length (str_of_int z) ≤ n)%nat.
Proof.
  intros Hz Hn. unfold str_of_int. destruct z as [|p|p]; [exact Hn| |lia].
  cbn [Z.to_int]. apply pos_digits_bound.
  assert (Z.pos p < 10 ^ Z.of_nat n)%Z as H by lia.
  apply N2Z.inj_lt. rewrite N2Z.inj_pow, nat_N_Z. exact H.
Qed.

Lemma zfill_of_digits w s :
  Forall (λ c, is_digit c = true) s →
  zfill w s = repeat 48 (w - length s) ++ s.
Proof.
  intros Hs. unfold zfill.
  destruct Hs as [|c s Hc Hs]; [now rewrite app_nil_r|].
  unfold is_digit in Hc. apply andb_true_iff in Hc as [H1%N.leb_le H2%N.leb_le].
  lits. destruct (N.eqb_spec c 43); [lia|]. destruct (N.eqb_spec c 45); [lia|].
  reflexivity.
Qed.

Lemma literal_digits_zeros k d :
  literal_digits true (repeat 48 k ++ uint_digits d) = Some (Nat.iter k Decimal.D0 d).
Proof.
  induction k as [|k IH]; [apply literal_digits_uint|].
  cbn [repeat app literal_digits Nat.iter]. lits. cbn [N.eqb Pos.eqb].
  unfold digit. lits. cbn [N.eqb Pos.eqb]. now rewrite IH.
Qed.

Lemma of_uint_zeros k d : N.of_uint (Nat.iter k Decimal.D0 d) = N.of_uint d.
Proof. induction k as [|k IH]; [reflexivity|exact IH]. Qed.

Lemma int_of_padded k d :
  d ≠ Decimal.Nil →
  int_of_str (repeat 48 k ++ uint_digits d) = Ok (Z.of_N (N.of_uint d)).
Proof.
  intros Hd. destruct k as [|k]; [now apply int_of_uint_digits|].
  unfold int_of_str. rewrite strip_no_space.
  2:{ apply Forall_app. split.
      - apply Forall_forall. intros c Hc.
        apply list_elem_of_In, repeat_spec in Hc. now subst c.
      - eapply Forall_impl; [apply uint_digits_is_digit|]. apply is_digit_not_space. }
  cbn [repeat app]. lits. cbn [N.eqb Pos.eqb literal_digits].
  unfold digit. lits. cbn [N.eqb Pos.eqb]. rewrite literal_digits_zeros.
  cbn [fmap option_fmap option_map]. f_equal. f_equal. apply (of_uint_zeros (S k)).
Qed.

Lemma int_of_zfill w z :
  (0 ≤ z)%Z → int_of_str (zfill w (str_of_int z)) = Ok z.
Proof.
  intros Hz. rewrite zfill_of_digits by now apply str_of_int_digits.
  unfold str_of_int. destruct z as [|p|p]; [| |lia]; cbn [Z.to_int].
  - now rewrite int_of_padded.
  - rewrite int_of_padded by apply DecimalPos.Unsigned.to_uint_nonnil.
    change (N.of_uint (Pos.to_uint p)) with (Pos.of_uint (Pos.to_uint p)).
    now rewrite DecimalPos.Unsigned.of_to.
Qed.

(** X6: [_format_id] accepts the record numbers 1 to 999999 and no other.
    For a number it accepts, the line is [!ID ], six digits and a line feed,
    and the six digits read back as the number; for any other number it
    raises [IndexError]. *)
Theorem format_id_fixed_width (index : Z) :
  match _format_id index with
  | Ok t =>
      (1 ≤ index ≤ 999999)%Z
      ∧ ∃ d, t = u "!ID " ++ d ++ [10] ∧ length d = 6%nat
             ∧ Forall (λ c, is_digit c = true) d
             ∧ int_of_str d = Ok index
  | Raise e => e = IndexError ∧ ¬ (1 ≤ index ≤ 999999)%Z
  end.
Proof.
  unfold _format_id, VALID_ID_RANGE, MAX_DIGITS_QTD.
  destruct (Z.leb_spec 1 index) as [H1|H1]; cbn [andb]; [|split; [reflexivity|lia]].
  destruct (Z.ltb_spec index (10 ^ Z.of_nat 6)) as [H2|H2];
    [|split; [reflexivity|lia]].
  split; [lia|]. eexists. split; [reflexivity|].
  assert (Forall (λ c, is_digit c = true) (str_of_int index)) as Hd
    by (apply str_of_int_digits; lia).
  split; [|split].
  - rewrite zfill_of_digits, length_app, repeat_length by exact Hd.
    pose proof (str_of_int_length index 6). lia.
  - now apply zfill_digits.
  - apply int_of_zfill. lia.
Qed.

End record_number.

(** ** IDFile._format_subfields *)

Section delimiters.
Import Py IDFile.

Lemma count_circ_app a b : count_circ (a ++ b) = (count_circ a + count_circ b)%nat.
Proof. unfold count_circ. now rewrite filter_app, length_app. Qed.

Lemma count_circ_none a : Forall (λ c, c ≠ 94) a → count_circ a = 0%nat.
Proof.
  unfold count_circ. induction 1 as [|c a Hc Ha IH]; [reflexivity|].
  now rewrite filter_cons_False.
Qed.

Lemma count_circ_concat_perm (l1 l2 : list str) :
  l1 ≡ₚ l2 → count_circ (concat l1) = count_circ (concat l2).
Proof.
  induction 1 as [|x l1 l2 _ IH|x y l|l1 l2 l3 _ IH1 _ IH2]; cbn [concat].
  - reflexivity.
  - now rewrite !count_circ_app, IH.
  - rewrite !count_circ_app. lia.
  - congruence.
Qed.

Lemma count_circ_token kv : count_circ (token kv) = if emitted kv then 1%nat else 0%nat.
Proof.
  unfold token, _format_subfield, emitted. destruct kv as [k v]. cbn [fst snd].
  destruct (subvalue_true v); cbn [andb]; [|reflexivity].
  destruct (contains k _) eqn:E; [|reflexivity].
  change (u "^" ++ k ++ format_value v) with (94 :: k ++ format_value v).
  unfold count_circ. rewrite filter_cons_True by reflexivity. cbn [length]. f_equal.
  fold (count_circ (k ++ format_value v)). rewrite count_circ_app.
  rewrite (count_circ_none (format_value v)) by apply format_value_circ_free.
  rewrite count_circ_none; [reflexivity|].
  eapply Forall_impl; [apply (contains_chars _ _ E)|].
  intros c Hc ->. revert Hc. not_in_literal.
Qed.

(** X7: every circumflex of the text of an occurrence starts a subfield.
    The text that [_format_subfields] returns has as many circumflexes as
    the dict has entries that pass the test of [_format_subfield]; the main
    value and the values of the subfields add none. *)
Theorem format_subfields_delimiters (d : gmap str subvalue) :
  count_circ (_format_subfields d)
  = length (filter (λ kv, emitted kv = true) (map_to_list d)).
Proof.
  rewrite format_subfields_unfold, count_circ_app.
  rewrite count_circ_none by apply format_value_circ_free.
  rewrite (count_circ_concat_perm _ _ (sorted_str_Permutation _)). cbn [Nat.add].
  induction (map_to_list d) as [|kv l IH]; [reflexivity|].
  cbn [map concat]. rewrite count_circ_app, IH, count_circ_token.
  destruct (emitted kv) eqn:E.
  - now rewrite filter_cons_True.
  - rewrite filter_cons_False; [reflexivity|]. congruence.
Qed.

End delimiters.

(** ** IDFile._format_record *)

Section record_keys.
Import Py IDFile.

Lemma mapM_Ok_inputs {A B} (f : A → result B) l r x :
  mapM f l = Ok r → x ∈ l → is_ok (f x) = true.
Proof.
  intros H Hx. destruct (is_ok (f x)) eqn:E; [reflexivity|].
  pose proof (mapM_Raise_elem f l x Hx E) as Hr. now rewrite H in Hr.
Qed.

Lemma mapM_Ok_outputs {A B} (f : A → result B) l r y :
  mapM f l = Ok r → y ∈ r → ∃ x, x ∈ l ∧ f x = Ok y.
Proof.
  revert r. induction l as [|a l IH]; intros r.
  - intros [= <-] Hy. now apply elem_of_nil in Hy.
  - cbn [mapM]. intros (b & Hb & (r' & Hr' & [= <-])%bind_Ok)%bind_Ok Hy.
    apply elem_of_cons in Hy as [->|Hy].
    + exists a. split; [left|exact Hb].
    + destruct (IH r' Hr' Hy) as (x & Hx & Hfx). exists x. split; [now right|exact Hfx].
Qed.


Lemma keys_elem_of (r : record) k : k ∈ map fst (map_to_list r) ↔ is_Some (r !! k).
Proof.
  rewrite list_elem_of_fmap. split.
  - intros ([k' v] & -> & H%elem_of_map_to_list). now exists v.
  - intros [v H]. exists (k, v). split; [reflexivity|now apply elem_of_map_to_list].
Qed.

Lemma format_record_formatter (s : self) (r : record) :
  _format_record s r =
  if bool_decide (r = ∅) then Ok []
  else t ← _format_record new r; Ok (formatted s t).
Proof.
  unfold _format_record, formatted. destruct (bool_decide (r = ∅)); cbn [negb]; [reflexivity|].
  destruct (mapM PyInt.int_of_str _) as [tags|e]; cbn; [|reflexivity].
  destruct (mapM _ (PySort.sorted_int tags)) as [items|e]; reflexivity.
Qed.


(** A key with a leading zero: alone it is a [KeyError]; next to the key
    [1] the field of [1] is written twice and its own field never. *)
Example leading_zero_key :
  _format_record new {[ u "01" := FOcc (OStr (u "x")) ]} = Raise KeyError
  ∧ _format_record new (<[u "01" := FOcc (OStr (u "x"))]>
                          {[ u "1" := FOcc (OStr (u "a")) ]})
    = Ok (u "!v001!a" ++ [10] ++ u "!v001!a" ++ [10]).
Proof. split; vm_compute; reflexivity. Qed.

Lemma Sorted_le_NoDup_lt l : Sorted Z.le l → NoDup l → Sorted Z.lt l.
Proof.
  intros Hs%Sorted_StronglySorted Hn; [|intros x y z; apply Z.le_trans].
  induction Hs as [|x l Hs IH Hx]; [constructor|].
  apply NoDup_cons in Hn as [Hxl Hn]. constructor; [now apply IH|].
  destruct l as [|y l]; constructor.
  apply Forall_inv in Hx. assert (x ≠ y); [|lia].
  intros ->. apply Hxl. left.
Qed.

Lemma serializable_lookup (r : record) k v :
  serializable r = true → r !! k = Some v →
  canonical_key k = true ∧ tag_in_range (key_int k) = true ∧ field_typed v = true.
Proof.
  intros H Hk. pose proof (record_all_lookup _ _ _ _ H Hk) as Hp. cbn beta in Hp.
  apply andb_true_iff in Hp as [[? ?]%andb_true_iff ?]. tauto.
Qed.

Lemma format_record_serializable (r : record) :
  serializable r = true → _format_record new r = Ok (record_lines r).
Proof.
  intros H. apply format_record_lines. intros k v Hk.
  destruct (serializable_lookup r k v H Hk) as (Hc & Hr & Ht).
  split; [exact Hc|]. now apply tag_data_in_range.
Qed.

(** X9: the fields are written in the ascending order of their tags as
    numbers (2 before 10), one tag after the other, whatever the order of
    the keys in the dict: the text of a record with canonical keys, tags of
    1..999 and string or dict occurrences is that of its fields, taken along
    the strictly ascending list of its tags. *)
Theorem format_record_numeric_order (r : record) :
  serializable r = true →
  _format_record new r
  = Ok (concat (map (λ t, field_lines (PyInt.str_of_int t)
                                      (field_of r (PyInt.str_of_int t))) (tags r)))
  ∧ Sorted Z.lt (tags r)
  ∧ ∀ t, t ∈ tags r ↔ is_Some (r !! PyInt.str_of_int t).
Proof.
  intros H. split; [now apply format_record_serializable|].
  assert (record_all (λ k _, canonical_key k) r = true) as Hcan.
  { apply forallb_forall. intros [k v] Hkv%list_elem_of_In%elem_of_map_to_list.
    now destruct (serializable_lookup r k v H Hkv). }
  split.
  - apply Sorted_le_NoDup_lt; [apply sorted_int_Sorted|now apply NoDup_tags].
  - intros t. split.
    + intros (k & v & Hk & <-)%elem_of_tags.
      destruct (serializable_lookup r k v H Hk) as (Hc & _).
      destruct (canonical_key_spec k Hc) as [_ ->]. now exists v.
    + intros [v Hv]. rewrite <- (key_int_str_of_int t). now apply (tags_elem_of r _ v).
Qed.

Lemma format_record_numeric_order_witness :
  let r : record :=
    <[u "10" := FOcc (OStr (u "ten"))]> {[ u "2" := FOcc (OStr (u "two")) ]} in
  serializable r = true
  ∧ _format_record new r = Ok (u "!v002!two" ++ [10] ++ u "!v010!ten" ++ [10]).
Proof.
  intros r. assert (serializable r = true) as H by (vm_compute; reflexivity).
  split; [exact H|].
  rewrite (proj1 (format_record_numeric_order r H)). vm_compute. reflexivity.
Defined.

End record_keys.

(** ** IDFile._format_file and IDFile._tag_data *)

Section record_text.
Import Py IDFile.

Lemma format_file_from_formatted (s : self) index records :
  Forall (λ r, serializable r = true) records →
  (0 ≤ index)%Z → (index + Z.of_nat (length records) ≤ 999999)%Z →
  _format_file_from s index records
  = Ok (imap (λ i r, id_line (index + Z.of_nat (S i))
                     ++ (if bool_decide (r = ∅) then []
                         else formatted s (record_lines r))) records).
Proof.
  intros H. revert index. induction H as [|r records Hr _ IH]; intros index H0 Hn;
    [reflexivity|].
  cbn [length] in Hn. cbn [_format_file_from].
  rewrite format_id_valid by lia. cbn [mbind result_bind].
  rewrite format_record_formatter, (format_record_serializable r Hr).
  rewrite (IH (index + 1)%Z) by lia. cbn [imap].
  replace (index + Z.of_nat 1)%Z with (index + 1)%Z by lia.
  assert (∀ t : str, (if bool_decide (r = ∅) then Ok []
                      else _ ← Ok (record_lines r); Ok t)
                     = Ok (if bool_decide (r = ∅) then [] else t)) as Hif
    by (intros t; now destruct (bool_decide (r = ∅))).
  destruct (bool_decide (r = ∅)); cbn; do 2 f_equal;
    apply imap_ext; intros i x _; cbn; do 2 f_equal; lia.
Qed.

(** X10: the text of a file.  The records are numbered from 1 by their
    place in the list; each gives its [!ID] line followed by the text of
    its fields, which goes through the formatter when there is one.  An
    empty record takes a number, gives its [!ID] line alone, and the
    formatter is not called for it. *)
Theorem format_file_numbered (s : self) (records : list record) :
  Forall (λ r, serializable r = true) records →
  (Z.of_nat (length records) ≤ 999999)%Z →
  _format_file s records
  = Ok (concat (imap (λ i r, id_line (Z.of_nat (S i))
                             ++ (if bool_decide (r = ∅) then []
                                 else formatted s (record_lines r))) records)).
Proof.
  intros H Hn. unfold _format_file.
  rewrite (format_file_from_formatted s 0 records H) by lia. reflexivity.
Qed.

Lemma format_file_numbered_witness :
  let s := {| content_formatter := Some (λ t, u "<" ++ t ++ u ">") |} in
  let records : list record := [ {[ u "1" := FOcc (OStr (u "a")) ]}; ∅ ] in
  Forall (λ r, serializable r = true) records
  ∧ (Z.of_nat (length records) ≤ 999999)%Z
  ∧ _format_file s records
    = Ok (u "!ID 000001" ++ [10] ++ u "<!v001!a" ++ [10] ++ u ">"
          ++ u "!ID 000002" ++ [10]).
Proof.
  intros s records.
  assert (Forall (λ r, serializable r = true) records) as H
    by (repeat constructor).
  assert (Z.of_nat (length records) ≤ 999999)%Z as Hn by (cbn; lia).
  split; [exact H|]. split; [exact Hn|].
  rewrite (format_file_numbered s records H Hn). vm_compute. reflexivity.
Defined.

Lemma same_text_refl a : same_text a a.
Proof. now destruct a. Qed.

Lemma tag_data_singleton tag o :
  same_text (_tag_data tag (FOcc o)) (_tag_data tag (FList [o])).
Proof.
  unfold _tag_data. cbn [field_true]. destruct (occurrence_true o) eqn:E; cbn [negb].
  - apply same_text_refl.
  - cbn [mapM]. rewrite (tag_occ_falsy tag o E). reflexivity.
Qed.

Lemma mapM_same_text {A} (f g : A → result (list str)) l :
  (∀ x, same_text (f x) (g x)) →
  match mapM f l, mapM g l with
  | Ok x, Ok y => concat (concat x) = concat (concat y)
  | Raise e, Raise e' => e = e'
  | _, _ => False
  end.
Proof.
  intros H. induction l as [|a l IH]; [reflexivity|]. cbn [mapM].
  specialize (H a). destruct (f a) as [x|e], (g a) as [y|e']; cbn in H |- *;
    try contradiction; [|exact H].
  destruct (mapM f l) as [xs|e], (mapM g l) as [ys|e']; cbn in IH |- *;
    try contradiction; [|exact IH].
  cbn [concat]. now rewrite !concat_app, H, IH.
Qed.

Lemma mapM_int_of_str_perm l l' :
  l ≡ₚ l' →
  match mapM PyInt.int_of_str l, mapM PyInt.int_of_str l' with
  | Ok a, Ok b => a ≡ₚ b
  | Raise e, Raise e' => e = e'
  | _, _ => False
  end.
Proof.
  intros Hp.
  assert (∀ l1 l2 a, l1 ≡ₚ l2 → mapM PyInt.int_of_str l1 = Ok a →
            mapM PyInt.int_of_str l2 = Ok (map key_int l2)) as Hok.
  { intros l1 l2 a H12 Ha.
    pose proof (mapM_is_ok PyInt.int_of_str l2) as H2.
    destruct (mapM PyInt.int_of_str l2) as [b|e] eqn:E.
    - now rewrite (mapM_int_of_str _ _ E).
    - exfalso. assert (false = true); [|discriminate]. apply H2.
      intros x Hx. apply (mapM_Ok_inputs _ _ _ x Ha). now rewrite H12. }
  pose proof (raises_only_mapM (eq ValueError) PyInt.int_of_str l
                (λ x _, int_of_str_raises x)) as Hr.
  pose proof (raises_only_mapM (eq ValueError) PyInt.int_of_str l'
                (λ x _, int_of_str_raises x)) as Hr'.
  destruct (mapM PyInt.int_of_str l) as [a|e] eqn:E.
  - rewrite (Hok l l' a Hp E). rewrite (mapM_int_of_str _ _ E). now rewrite Hp.
  - destruct (mapM PyInt.int_of_str l') as [b|e'] eqn:E'.
    + rewrite (Hok l' l b (symmetry Hp) E') in E. discriminate.
    + cbn in Hr, Hr'. congruence.
Qed.

Lemma keys_insert_perm (r : record) k v v' :
  map fst (map_to_list (<[k:=v]> r)) ≡ₚ map fst (map_to_list (<[k:=v']> r)).
Proof.
  apply NoDup_Permutation; [apply NoDup_fst_map_to_list..|].
  intros x. rewrite !keys_elem_of, !lookup_insert_is_Some. reflexivity.
Qed.

(** X11: a field given as one occurrence and the field given as the list of
    that one occurrence are written alike: [_format_record] returns the
    same text for both, or raises the same exception. *)
Theorem format_record_singleton (s : self) (r : record) (k : str) (o : occurrence) :
  _format_record s (<[k := FOcc o]> r) = _format_record s (<[k := FList [o]]> r).
Proof.
  unfold _format_record.
  rewrite !bool_decide_eq_false_2 by apply insert_non_empty. cbn [negb].
  pose proof (mapM_int_of_str_perm _ _ (keys_insert_perm r k (FOcc o) (FList [o]))) as Ht.
  destruct (mapM PyInt.int_of_str (map fst (map_to_list (<[k:=FOcc o]> r)))) as [a|e],
           (mapM PyInt.int_of_str (map fst (map_to_list (<[k:=FList [o]]> r)))) as [b|e'];
    try contradiction; [|now subst].
  cbn [mbind result_bind]. rewrite (sorted_int_proper a b Ht).
  match goal with
  | |- (mapM ?f ?l ≫= _) = (mapM ?g _ ≫= _) =>
      pose proof (mapM_same_text f g l) as Hm
  end.
  cbn beta zeta in Hm.
  lapply Hm.
  2:{ intros t. destruct (decide (PyInt.str_of_int t = k)) as [<-|Hne].
      - rewrite !lookup_insert_eq. apply tag_data_singleton.
      - rewrite !lookup_insert_ne by congruence. apply same_text_refl. }
  clear Hm. intros Hm.
  match type of Hm with
  | match ?x with _ => _ end => destruct x as [xs|e]
  end;
  match type of Hm with
  | match ?y with _ => _ end => destruct y as [ys|e']
  end; try contradiction; cbn; [now rewrite Hm|now subst].
Qed.

End record_text.

(** ** IDFile._get_field_data *)

Section field_data.
Import Py IDFile.

Lemma split_circ_cons c t :
  split (u "^") (c :: t) =
  if c =? 94 then [] :: split (u "^") t
  else match split (u "^") t with
       | w :: ws => (c :: w) :: ws
       | [] => [[c]]
       end.
Proof.
  destruct (N.eqb_spec c 94) as [->|Hc].
  - apply (split_prefix (u "^") t). discriminate.
  - apply split_cons_no. change (u "^") with [94]. now apply startswith_head.
Qed.

Lemma split_circ_tail_nil s :
  tail (split (u "^") s) = [] ↔ Forall (λ c, c ≠ 94) s.
Proof.
  induction s as [|c s IH]; [now split|]. rewrite split_circ_cons.
  destruct (N.eqb_spec c 94) as [->|Hc].
  - cbn [tail]. split.
    + intros H. now apply (split_from_nonempty (u "^") 0 s) in H.
    + intros H. apply Forall_inv in H. congruence.
  - pose proof (split_from_nonempty (u "^") 0 s) as Hne. fold (split (u "^") s) in Hne.
    destruct (split (u "^") s) as [|w ws]; [congruence|]. cbn [tail] in *.
    rewrite IH. split; [now constructor|apply Forall_inv_tail].
Qed.

Lemma split_circ_head_empty s :
  [] ∈ split (u "^") s
  ↔ (s = [] ∨ startswith [94] s = true ∨ [] ∈ tail (split (u "^") s)).
Proof.
  destruct s as [|c s].
  - cbn. split; [now left|intros _; left].
  - rewrite split_circ_cons.
    pose proof (split_from_nonempty (u "^") 0 s) as Hne. fold (split (u "^") s) in Hne.
    destruct (N.eqb_spec c 94) as [->|Hc].
    + split; [intros _; right; now left|intros _; left].
    + rewrite (startswith_head 94 [] c s) by congruence.
      destruct (split (u "^") s) as [|w ws]; [congruence|]. cbn [tail].
      rewrite elem_of_cons. split.
      * intros [?|?]; [discriminate|tauto].
      * intros [?|[?|?]]; [discriminate..|tauto].
Qed.

Lemma split_circ_tail_empty s :
  [] ∈ tail (split (u "^") s) ↔ (last s = Some 94 ∨ contains (u "^^") s = true).
Proof.
  induction s as [|c s IH].
  - cbn. split; [intros H; now apply elem_of_nil in H|intros [?|?]; discriminate].
  - rewrite split_circ_cons, contains_cons. change (u "^^") with [94; 94] in *.
    destruct (N.eqb_spec c 94) as [->|Hc].
    + cbn [tail]. rewrite split_circ_head_empty, IH.
      change (startswith [94; 94] (94 :: s)) with (startswith [94] s).
      rewrite orb_true_iff. destruct s as [|d s].
      * cbn. split; [now left|intros _; now left].
      * cbn [last]. split.
        -- intros [?|[?|[?|?]]]; [discriminate|tauto..].
        -- intros [?|[?|?]]; tauto.
    + rewrite (startswith_head 94 [94] c s) by congruence. cbn [orb].
      pose proof (split_from_nonempty (u "^") 0 s) as Hne.
      fold (split (u "^") s) in Hne.
      destruct (split (u "^") s) as [|w ws]; [congruence|]. cbn [tail] in *.
      rewrite IH. destruct s as [|d s]; [|reflexivity].
      cbn. split; intros [H|H]; try discriminate. congruence.
Qed.

Lemma replace_nil_inv old new x :
  old ≠ [] → new ≠ [] → replace old new x = [] → x = [].
Proof.
  intros Ho Hn H.
  destruct (replace_cases old new x Ho) as [->|[(s' & -> & E)|(c & s' & -> & _ & E)]];
    [reflexivity|..]; rewrite E in H.
  - now destruct new.
  - discriminate.
Qed.

Lemma get_field_data_loop_cases d l :
  match _get_field_data_loop d l with
  | Ok d' => ([] ∉ l) ∧ (l ≠ [] ∨ d ≠ ∅ → d' ≠ ∅)
  | Raise e => e = IndexError ∧ [] ∈ l
  end.
Proof.
  revert d. induction l as [|x l IH]; intros d.
  - cbn. split; [apply not_elem_of_nil|]. intros [?|?]; congruence.
  - destruct x as [|c v]; cbn [_get_field_data_loop]; [split; [reflexivity|left]|].
    specialize (IH (<[ [c] := SStr v ]> d)).
    destruct (_get_field_data_loop _ l) as [d'|e].
    + destruct IH as [Hl Hd]. split.
      * intros [?|?]%elem_of_cons; [discriminate|contradiction].
      * intros _. apply Hd. right. apply insert_non_empty.
    + destruct IH as [-> Hl]. split; [reflexivity|now right].
Qed.

(** X12: what [_get_field_data] makes of the text of a field.  Without a
    circumflex the text is returned as a string, the placeholder replaced.
    With a circumflex the result is a dict that is not empty, unless a
    circumflex ends the text or two of them are adjacent: then, and only
    then, the function raises [IndexError]. *)
Theorem get_field_data_cases (s : str) :
  match _get_field_data s with
  | Ok (OStr x) => Forall (λ c, c ≠ 94) s ∧ x = replace PRESERVECIRC (u "^") s
  | Ok (ODict d) =>
      94 ∈ s ∧ d ≠ ∅ ∧ last s ≠ Some 94 ∧ contains (u "^^") s = false
  | Ok (OTuple _) => False
  | Raise e => e = IndexError ∧ (last s = Some 94 ∨ contains (u "^^") s = true)
  end.
Proof.
  unfold _get_field_data.
  pose proof (split_circ_tail_nil s) as Hnil.
  pose proof (split_circ_tail_empty s) as Hemp.
  pose proof (split_circ_free s) as Hfree.
  destruct (split (u "^") s) as [|first rest] eqn:E;
    [now apply (split_from_nonempty (u "^") 0 s) in E|].
  cbn [tail map] in *. destruct rest as [|p rest].
  - pose proof (proj1 Hnil eq_refl) as Hs. split; [exact Hs|].
    specialize (Hfree Hs). congruence.
  - cbn [map].
    set (d0 := match replace PRESERVECIRC (u "^") first with
               | [] => ∅
               | _ => {[ u "_" := SStr (replace PRESERVECIRC (u "^") first) ]}
               end : gmap str subvalue).
    pose proof (get_field_data_loop_cases d0
                  (replace PRESERVECIRC (u "^") p
                   :: map (replace PRESERVECIRC (u "^")) rest)) as Hl.
    assert ([] ∈ replace PRESERVECIRC (u "^") p
                 :: map (replace PRESERVECIRC (u "^")) rest
            ↔ [] ∈ p :: rest) as Hrep.
    { change ([] ∈ map (replace PRESERVECIRC (u "^")) (p :: rest) ↔ [] ∈ p :: rest).
      rewrite list_elem_of_fmap. split.
      - intros (x & Hx & Hin). symmetry in Hx.
        apply replace_nil_inv in Hx; [now subst|discriminate..].
      - intros H. exists []. split; [reflexivity|exact H]. }
    destruct (_get_field_data_loop d0 _) as [d|e]; cbn [mbind result_bind].
    + destruct Hl as [Hno Hd]. split; [|split; [apply Hd; now left|]].
      * destruct (decide (94 ∈ s)) as [|Hn]; [assumption|].
        assert (Forall (λ c, c ≠ 94) s) as Hs.
        { apply Forall_forall. intros c Hc ->. contradiction. }
        apply Hnil in Hs. discriminate.
      * rewrite Hrep, Hemp in Hno.
        split; [tauto|]. destruct (contains (u "^^") s); [tauto|reflexivity].
    + destruct Hl as [-> Hin]. split; [reflexivity|]. now apply Hemp, Hrep.
Qed.

End field_data.

(** ** IDFile._get_record_data and IDFile.read *)

Section parsed_records.
Import Py IDFile.

Lemma occurrences_of_elem tag parsed o :
  o ∈ occurrences_of tag parsed → (tag, o) ∈ parsed.
Proof.
  unfold occurrences_of. intros ([k o'] & -> & [Hk Hin]%list_elem_of_filter)%list_elem_of_fmap.
  cbn in Hk. now subst.
Qed.

Lemma field_tag_and_data_canonical field k o :
  field_tag_and_data field = Ok (k, o) → canonical_key k = true.
Proof.
  unfold field_tag_and_data.
  intros (t & _ & (fd & _ & [= <- _])%bind_Ok)%bind_Ok.
  apply canonical_key_str_of_int.
Qed.

(** X13: the keys of a record that [_get_record_data] returns are canonical:
    each is the decimal writing of the int that the three characters of the
    tag stand for ([007] gives the key [7]), whatever that int is; and a
    field is never a list of fewer than two occurrences. *)
Theorem get_record_data_keys (rec : str) (data : record) :
  _get_record_data rec = Ok data →
  ∀ k f, data !! k = Some f →
         canonical_key k = true
         ∧ match f with
           | FOcc _ => True
           | FList l => (2 ≤ length l)%nat
           end.
Proof.
  unfold _get_record_data. rewrite get_record_data_loop_spec.
  destruct (mapM field_tag_and_data _) as [parsed|e] eqn:E; [|discriminate].
  intros [= <-] k f. rewrite collapse_lookup.
  destruct (occurrences_of k parsed) as [|o occs] eqn:Eo; [discriminate|].
  assert ((k, o) ∈ parsed) as Hin.
  { apply occurrences_of_elem. rewrite Eo. left. }
  destruct (mapM_Ok_outputs _ _ _ _ E Hin) as (field & _ & Hf).
  intros Hf'. split; [now apply (field_tag_and_data_canonical field k o)|].
  destruct occs as [|o' occs]; injection Hf' as <-; [exact I|cbn; lia].
Qed.

Lemma get_record_data_keys_witness :
  let rec := u "000001" ++ [10] ++ u "!v007!a" ++ [10] ++ u "!v-12!b" ++ [10] in
  let data : record :=
    <[u "7" := FOcc (OStr (u "a"))]> {[ u "-12" := FOcc (OStr (u "b")) ]} in
  _get_record_data rec = Ok data
  ∧ canonical_key (u "7") = true ∧ canonical_key (u "-12") = true.
Proof.
  intros rec data.
  assert (_get_record_data rec = Ok data) as H by (vm_compute; reflexivity).
  split; [exact H|]. split.
  - refine (proj1 (get_record_data_keys rec data H (u "7") (FOcc (OStr (u "a"))) _)).
    vm_compute. reflexivity.
  - refine (proj1 (get_record_data_keys rec data H (u "-12") (FOcc (OStr (u "b"))) _)).
    vm_compute. reflexivity.
Defined.







End parsed_records.

(** ** IDFile.write *)

Section written_text.
Import Py IDFile.








Lemma dirname_bare filename : (47 ∉ filename) → OS.dirname filename = [].
Proof.
  intros H. unfold OS.dirname.
  assert (OS.upto_slash (rev filename) = []) as ->; [|reflexivity].
  assert (47 ∉ rev filename) as Hr.
  { intros Hr. apply H. now apply list_elem_of_In, in_rev, list_elem_of_In. }
  induction (rev filename) as [|c l IH]; [reflexivity|]. cbn [OS.upto_slash]. lits.
  destruct (N.eqb_spec c 47) as [->|_]; [exfalso; apply Hr; left|].
  apply IH. intros Hl. apply Hr. now right.
Qed.

(** X16: [write] needs a file name with a directory part.  For a name
    without a slash, [os.path.dirname] is the empty string, which is not a
    directory, and [os.makedirs] of the empty string raises
    [FileNotFoundError]: [write] raises it before anything is serialized,
    and the world is as it was. *)
Theorem write_bare_filename (s : self) (filename : str) (records : list record)
    (w : OS.world) :
  (47 ∉ filename) → ([] ∉ OS.dirs w) →
  write s filename records w = (Raise FileNotFoundError, w).
Proof.
  intros Hf Hw. unfold write. rewrite (dirname_bare filename Hf).
  unfold OS.isdir. now rewrite bool_decide_eq_false_2 by exact Hw.
Qed.

Lemma write_bare_filename_witness :
  let w := OS.World {[ u "/db" ]} ∅ [] in
  (47 ∉ u "out.id") ∧ ([] ∉ OS.dirs w)
  ∧ write new (u "out.id") [ {[ u "1" := FOcc (OStr (u "a")) ]} ] w
    = (Raise FileNotFoundError, w).
Proof.
  intros w.
  assert (47 ∉ u "out.id") as H1 by not_in_literal.
  assert ([] ∉ OS.dirs w) as H2 by (cbn; intros H%elem_of_singleton; discriminate).
  split; [exact H1|]. split; [exact H2|].
  exact (write_bare_filename new (u "out.id") _ w H1 H2).
Defined.

(** X17: a failure to open the file is printed, not raised.  When the name
    is that of a directory inside an existing directory and the records are
    serialized without error, [write] returns normally, the line of the
    failure is added to what was printed, and no file is made or changed. *)
Theorem write_open_failure (s : self) (filename : str) (records : list record)
    (w : OS.world) :
  filename ∈ OS.dirs w → OS.dirname filename ∈ OS.dirs w →
  is_ok (write_content s records) = true →
  write s filename records w
  = (Ok (), OS.World (OS.dirs w) (OS.files w)
                     (OS.stdout w ++ [(filename, IsADirectoryError)])).
Proof.
  intros Hf Hd Hok. unfold write, OS.isdir.
  rewrite bool_decide_eq_true_2 by exact Hd.
  destruct (write_content s records) as [content|e]; [|discriminate].
  unfold OS.open_w. now rewrite bool_decide_eq_true_2 by exact Hf.
Qed.

Lemma write_open_failure_witness :
  let w := OS.World ({[ u "/db" ]} ∪ {[ u "/db/out.id" ]}) ∅ [] in
  let records : list record := [ {[ u "1" := FOcc (OStr (u "a")) ]} ] in
  u "/db/out.id" ∈ OS.dirs w ∧ OS.dirname (u "/db/out.id") ∈ OS.dirs w
  ∧ is_ok (write_content new records) = true
  ∧ write new (u "/db/out.id") records w
    = (Ok (), OS.World (OS.dirs w) ∅ [(u "/db/out.id", IsADirectoryError)]).
Proof.
  intros w records.
  assert (u "/db/out.id" ∈ OS.dirs w) as H1
    by (apply elem_of_union_r, elem_of_singleton; reflexivity).
  assert (OS.dirname (u "/db/out.id") ∈ OS.dirs w) as H2
    by (apply elem_of_union_l, elem_of_singleton; vm_compute; reflexivity).
  assert (is_ok (write_content new records) = true) as H3 by (vm_compute; reflexivity).
  split; [exact H1|]. split; [exact H2|]. split; [exact H3|].
  exact (write_open_failure new (u "/db/out.id") records w H1 H2 H3).
Defined.



End written_text.

(** ** Round trips again, and the record number *)

Section fixed_point.
Import Py IDFile.

Lemma record_all_spec (P : str → field → bool) (r : record) :
  record_all P r = true ↔ ∀ k v, r !! k = Some v → P k v = true.
Proof.
  split; [intros H k v; now apply record_all_lookup|].
  intros H. apply forallb_forall.
  intros [k v] Hkv%list_elem_of_In%elem_of_map_to_list. now apply H.
Qed.

Lemma scalar_collapse_idemp f : scalar_collapse (scalar_collapse f) = scalar_collapse f.
Proof. destruct f as [o|[|o [|o' l]]]; reflexivity. Qed.

Lemma wf_field_collapse f : wf_field f = true → wf_field (scalar_collapse f) = true.
Proof.
  destruct f as [o|[|o [|o' l]]]; try (intros H; exact H).
  cbn. now rewrite andb_true_r.
Qed.

Lemma wf_record_collapse (r : record) :
  wf_record r = true → wf_record (scalar_collapse <$> r) = true.
Proof.
  unfold wf_record. rewrite !record_all_spec. intros H k v'.
  rewrite lookup_fmap. destruct (r !! k) as [v|] eqn:E; [|discriminate].
  intros [= <-]. specialize (H k v E).
  apply andb_true_iff in H as [-> Hf]. cbn [andb]. now apply wf_field_collapse.
Qed.

(** X19: one round trip reaches a fixed point.  What [read] returns for
    well-formed records is well formed again, and writing and reading it
    once more returns it unchanged. *)
Theorem roundtrip_fixed_point (records : list record) :
  wf_records records = true →
  let back := map (fmap scalar_collapse) records in
  roundtrip records = Ok back
  ∧ wf_records back = true
  ∧ roundtrip back = Ok back.
Proof.
  intros H back.
  assert (wf_records back = true) as Hb.
  { unfold wf_records in *. apply andb_true_iff in H as [Hr Hl].
    apply andb_true_iff. split.
    - unfold back. rewrite forallb_forall in *. intros r' Hr'%in_map_iff.
      destruct Hr' as (r & <- & Hin). apply wf_record_collapse. now apply Hr.
    - unfold back. now rewrite length_map. }
  split; [now apply roundtrip_wf|]. split; [exact Hb|].
  rewrite (roundtrip_wf back Hb). f_equal. unfold back.
  rewrite map_map. apply map_ext. intros r.
  apply map_eq. intros k. rewrite !lookup_fmap.
  destruct (r !! k); cbn; [|reflexivity]. now rewrite scalar_collapse_idemp.
Qed.

Lemma roundtrip_fixed_point_witness :
  let records : list record :=
    [ {[ u "100" := FList [OStr (u "Author A")] ]};
      {[ u "10" := FList [OStr (u "x^y"); OStr (u "z")] ]} ] in
  wf_records records = true
  ∧ roundtrip (map (fmap scalar_collapse) records)
    = Ok (map (fmap scalar_collapse) records).
Proof.
  intros records.
  assert (wf_records records = true) as H by (vm_compute; reflexivity).
  split; [exact H|]. exact (proj2 (proj2 (roundtrip_fixed_point records H))).
Defined.

(** X20: the parser does not look at the record number.  Whatever precedes
    the first line feed of the text of a record has no part in what
    [_get_record_data] returns. *)
Theorem get_record_data_ignores_number (idx s : str) :
  Forall (λ c, c ≠ 10) idx → _get_record_data (idx ++ s) = _get_record_data s.
Proof.
  intros H. unfold _get_record_data. f_equal.
  rewrite (split_app_free (10 :: u "!v") idx s).
  - pose proof (split_from_nonempty (10 :: u "!v") 0 s) as Hne.
    fold (split (10 :: u "!v") s) in Hne.
    now destruct (split (10 :: u "!v") s).
  - now apply free_head.
Qed.

Lemma get_record_data_ignores_number_witness :
  let s := [10] ++ u "!v100!A" ++ [10] in
  Forall (λ c, c ≠ 10) (u "not a number")
  ∧ _get_record_data (u "not a number" ++ s)
    = Ok {[ u "100" := FOcc (OStr (u "A")) ]}.
Proof.
  intros s.
  assert (Forall (λ c, c ≠ 10) (u "not a number")) as H
    by (lits; repeat constructor; discriminate).
  split; [exact H|].
  rewrite (get_record_data_ignores_number (u "not a number") s H).
  vm_compute. reflexivity.
Defined.

End fixed_point.

(** ** main.py *)

Section validations.
Import Py Main.

Lemma lstrip_nil s : lstrip s = [] ↔ forallb is_space s = true.
Proof.
  induction s as [|c s IH]; [now split|]. cbn [lstrip forallb].
  destruct (is_space c); cbn [andb]; [exact IH|]. now split.
Qed.

Lemma forallb_rev {A} (f : A → bool) l : forallb f (rev l) = forallb f l.
Proof.
  induction l as [|x l IH]; [reflexivity|]. cbn [rev forallb].
  rewrite forallb_app, IH. cbn. rewrite andb_true_r. apply andb_comm.
Qed.

Lemma lstrip_suffix s : ∃ p, s = p ++ lstrip s ∧ forallb is_space p = true.
Proof.
  induction s as [|c s (p & Hs & Hp)]; [now exists []|]. cbn [lstrip].
  destruct (is_space c) eqn:E.
  - exists (c :: p). cbn [forallb app]. rewrite E, Hp. split; [now f_equal|reflexivity].
  - now exists [].
Qed.

Lemma strip_nil s : strip s = [] ↔ forallb is_space s = true.
Proof.
  unfold strip, rstrip. destruct (lstrip_suffix s) as (p & Hs & Hp). split.
  - intros H. apply (f_equal (@rev N)) in H. rewrite rev_involutive in H. cbn in H.
    apply lstrip_nil in H. rewrite forallb_rev in H.
    rewrite Hs, forallb_app, Hp, H. reflexivity.
  - intros H. apply lstrip_nil in H. rewrite H. reflexivity.
Qed.

(** X21: [ArticleTitleValidation.check] fails (with the severity
    [Blocking]) exactly for a title that is absent, empty or made of
    whitespace only, and returns [None] for every other string. *)
Theorem title_check_blank (kw : kwargs) (title : str) :
  kw !! u "title" = Some (VItem (IStr title)) ∨ (kw !! u "title" = None ∧ title = []) →
  ArticleTitleValidation_check kw
  = Ok (if forallb is_space title
        then Some {| failed := true;
                     reason := u "Title cannot be blank";
                     severity := Blocking |}
        else None).
Proof.
  intros H. unfold ArticleTitleValidation_check.
  assert (default (VItem (IStr [])) (kw !! u "title") = VItem (IStr title)) as ->.
  { destruct H as [->|[-> ->]]; reflexivity. }
  pose proof (strip_nil title) as Hs.
  destruct (forallb is_space title).
  - now rewrite (proj2 Hs eq_refl).
  - destruct (strip title); [|reflexivity].
    pose proof (proj1 Hs eq_refl). discriminate.
Qed.

Lemma title_check_blank_witness :
  let kw : kwargs := {[ u "title" := VItem (IStr [32; 160; 9]) ]} in
  (kw !! u "title" = Some (VItem (IStr [32; 160; 9]))
   ∨ (kw !! u "title" = None ∧ [32; 160; 9] = []))
  ∧ ArticleTitleValidation_check kw
    = Ok (Some {| failed := true;
                  reason := u "Title cannot be blank";
                  severity := Blocking |}).
Proof.
  intros kw.
  assert (kw !! u "title" = Some (VItem (IStr [32; 160; 9]))
          ∨ (kw !! u "title" = None ∧ [32; 160; 9] = [])) as H
    by (left; vm_compute; reflexivity).
  split; [exact H|]. exact (title_check_blank kw [32; 160; 9] H).
Defined.

End validations.

Section authors.
Import Main.

(** X22: [ArticleAuthorsValidation.check] fails (with the severity
    [Blocking]) exactly when there is no author: the article is absent, it
    has no list of authors, or the list is empty. *)
Theorem authors_check_empty (kw : kwargs) (article : gmap str item)
    (authors : list str) :
  kw !! u "article" = Some (VDict article)
  ∨ (kw !! u "article" = None ∧ article = ∅) →
  article !! u "authors" = Some (IList authors)
  ∨ (article !! u "authors" = None ∧ authors = []) →
  ArticleAuthorsValidation_check kw
  = Ok (match authors with
        | [] => Some {| failed := true;
                        reason := u "The article shoud have at least one author";
                        severity := Blocking |}
        | _ => None
        end).
Proof.
  intros Ha Hl. unfold ArticleAuthorsValidation_check.
  assert (default (VDict ∅) (kw !! u "article") = VDict article) as ->.
  { destruct Ha as [->|[-> ->]]; reflexivity. }
  assert (default (IList []) (article !! u "authors") = IList authors) as ->.
  { destruct Hl as [->|[-> ->]]; reflexivity. }
  now destruct authors.
Qed.

Lemma authors_check_empty_witness :
  let article : gmap str item := {[ u "title" := IStr (u "T") ]} in
  let kw : kwargs := {[ u "article" := VDict article ]} in
  (kw !! u "article" = Some (VDict article)
   ∨ (kw !! u "article" = None ∧ article = ∅))
  ∧ (article !! u "authors" = Some (IList [])
     ∨ (article !! u "authors" = None ∧ @nil str = []))
  ∧ ArticleAuthorsValidation_check kw
    = Ok (Some {| failed := true;
                  reason := u "The article shoud have at least one author";
                  severity := Blocking |}).
Proof.
  intros article kw.
  assert (kw !! u "article" = Some (VDict article)
          ∨ (kw !! u "article" = None ∧ article = ∅)) as H1
    by (left; vm_compute; reflexivity).
  assert (article !! u "authors" = Some (IList [])
          ∨ (article !! u "authors" = None ∧ @nil str = [])) as H2
    by (right; split; [vm_compute|]; reflexivity).
  split; [exact H1|]. split; [exact H2|].
  exact (authors_check_empty kw article [] H1 H2).
Defined.

End authors.

(** ** UCISIS.create_id_file *)

Section id_files.
Import Py IDFile.

Lemma format_file_numbered_text (s : self) (records : list record) :
  Forall (λ r, serializable r = true) records →
  (Z.of_nat (length records) ≤ 999999)%Z →
  _format_file s records = Ok (numbered s records).
Proof.
  intros H Hn. unfold _format_file, numbered.
  rewrite (format_file_from_formatted s 0 records H) by lia. reflexivity.
Qed.




End id_files.

(** ** Files without a record, and files in UTF-8 *)

Section reading.
Import Py IDFile.




(** X25: [read_file] with its default encoding reads back what
    [encoding.encode] makes of a string of Unicode scalar values: the
    string, each carriage return or carriage return and line feed turned
    into a line feed. *)
Theorem read_file_utf8 (filename s : str) (w : OS.world) :
  forallb unicode_scalar s = true →
  (filename ∉ OS.dirs w) →
  Encoding.encode (Encoding.PStr s) Encoding.Utf8
  = Ok (Encoding.PBytes (utf8_bytes s))
  ∧ (OS.files w !! filename = Some (utf8_bytes s) →
     read_file filename Encoding.Utf8 w = Ok (OS.universal_newlines s)).
Proof.
  intros Hs Hd. split.
  - unfold Encoding.encode. now rewrite str_encode_utf8.
  - intros Hf. unfold read_file. rewrite bool_decide_eq_false_2 by exact Hd.
    rewrite Hf. cbn [Encoding.bytes_decode]. now rewrite utf8_decode_bytes.
Qed.

Lemma read_file_utf8_witness :
  let s := [233; 13; 10; 8364] in
  let w := OS.World ∅ {[ u "/f" := utf8_bytes s ]} [] in
  forallb unicode_scalar s = true ∧ (u "/f" ∉ OS.dirs w)
  ∧ read_file (u "/f") Encoding.Utf8 w = Ok [233; 10; 8364].
Proof.
  intros s w.
  assert (forallb unicode_scalar s = true) as H1 by (vm_compute; reflexivity).
  assert (u "/f" ∉ OS.dirs w) as H2 by (cbn; apply not_elem_of_empty).
  split; [exact H1|]. split; [exact H2|].
  rewrite (proj2 (read_file_utf8 (u "/f") s w H1 H2)); [reflexivity|].
  vm_compute. reflexivity.
Defined.

End reading.

(** ** The lines of a file *)

Section file_lines.
Import Py IDFile.

Lemma terminated_app a b : terminated (a ++ b) = terminated a ++ terminated b.
Proof. unfold terminated. now rewrite map_app, concat_app. Qed.

Lemma line_terminated k o : line k (render o) = terminated (occurrence_line k o).
Proof.
  unfold line, occurrence_line, terminated. destruct (render o) as [|c v]; [reflexivity|].
  cbn [map concat]. rewrite app_nil_r. now rewrite <- !app_assoc.
Qed.

Lemma field_lines_terminated k f :
  field_lines k f = terminated (flat_map (occurrence_line k) (occurrences f)).
Proof.
  unfold field_lines, terminated. rewrite concat_map_flat_map. f_equal.
  apply map_ext. intros o. apply line_terminated.
Qed.

Lemma record_lines_terminated (r : record) :
  record_lines r = terminated (record_line_list r).
Proof.
  unfold record_lines, record_line_list, terminated. rewrite concat_map_flat_map.
  f_equal. apply map_ext. intros t. apply field_lines_terminated.
Qed.

Lemma record_lines_empty : record_lines ∅ = [].
Proof. reflexivity. Qed.

Lemma concat_imap_terminated {A} (f : nat → A → str) (g : nat → A → list str) l :
  (∀ i x, f i x = terminated (g i x)) →
  concat (imap f l) = terminated (concat (imap g l)).
Proof.
  revert f g. induction l as [|x l IH]; intros f g H; [reflexivity|].
  cbn [imap concat]. rewrite terminated_app, H. f_equal.
  apply IH. intros i y. apply H.
Qed.

Lemma numbered_lines records : numbered new records = terminated (file_lines records).
Proof.
  unfold numbered, file_lines. apply concat_imap_terminated. intros i r.
  assert ((if bool_decide (r = ∅) then [] else formatted new (record_lines r))
          = record_lines r) as ->.
  { case_bool_decide as E; [|reflexivity]. now rewrite E, record_lines_empty. }
  rewrite record_lines_terminated. unfold id_line, MAX_DIGITS_QTD, terminated.
  cbn [map concat]. now rewrite <- !app_assoc.
Qed.

Lemma Forall_concat_imap {A} (P : str → Prop) (g : nat → A → list str) l :
  (∀ i x, x ∈ l → Forall P (g i x)) → Forall P (concat (imap g l)).
Proof.
  revert g. induction l as [|x l IH]; intros g H; [constructor|].
  cbn [imap concat]. apply Forall_app. split; [apply H; left|].
  apply IH. intros i y Hy. apply H. now right.
Qed.

Lemma Forall_flat_map {A} (P : str → Prop) (g : A → list str) l :
  (∀ x, x ∈ l → Forall P (g x)) → Forall P (flat_map g l).
Proof.
  induction l as [|x l IH]; intros H; [constructor|].
  cbn [flat_map]. apply Forall_app. split; [apply H; left|].
  apply IH. intros y Hy. apply H. now right.
Qed.

Lemma token_no_newline kv : Forall (λ c, c ≠ 10) (token kv).
Proof.
  unfold token, _format_subfield. destruct kv as [k v]. cbn [fst snd].
  destruct (subvalue_true v); cbn [andb]; [|constructor].
  destruct (contains k _) eqn:E; [|constructor].
  change (u "^" ++ k ++ format_value v) with (94 :: k ++ format_value v).
  constructor; [discriminate|]. apply Forall_app. split.
  - eapply Forall_impl; [apply (contains_chars _ _ E)|].
    intros c Hc ->. revert Hc. not_in_literal.
  - eapply Forall_impl; [apply format_value_blanks|].
    intros c Hc ->. now specialize (Hc eq_refl).
Qed.

Lemma render_no_newline o : Forall (λ c, c ≠ 10) (render o).
Proof.
  unfold render. destruct (occurrence_true o); [|constructor].
  assert (∀ v, Forall (λ c, c ≠ 10) (format_value v)) as Hv.
  { intros v. eapply Forall_impl; [apply format_value_blanks|].
    intros c Hc ->. now specialize (Hc eq_refl). }
  destruct o as [s|d|t]; [apply Hv| |constructor].
  rewrite format_subfields_unfold. apply Forall_app. split; [apply Hv|].
  apply Forall_concat. rewrite sorted_str_Permutation.
  apply Forall_fmap, Forall_forall. intros kv _. apply token_no_newline.
Qed.

(** X26: the text of a file is made of lines.  For records with canonical
    keys, tags of 1..999 and string or dict occurrences, and no formatter,
    [_format_file] returns the lines of the records, each ended by one line
    feed; no line holds a line feed of its own, and each starts with [!ID ]
    or with [!v]: no value runs over the end of its line. *)
Theorem format_file_lines (records : list record) :
  Forall (λ r, serializable r = true) records →
  (Z.of_nat (length records) ≤ 999999)%Z →
  _format_file new records = Ok (terminated (file_lines records))
  ∧ Forall (λ l, (10 ∉ l)
                 ∧ (startswith (u "!ID ") l = true ∨ startswith (u "!v") l = true))
           (file_lines records).
Proof.
  intros H Hn. split.
  - rewrite (format_file_numbered_text new records H Hn). f_equal.
    apply numbered_lines.
  - unfold file_lines. apply Forall_concat_imap. intros i r Hr.
    rewrite Forall_forall in H. specialize (H r Hr). constructor.
    + split; [|left; apply startswith_app].
      intros Hin. apply elem_of_app in Hin as [Hin|Hin]; [revert Hin; not_in_literal|].
      assert (Forall (λ c, PyInt.is_digit c = true)
                (zfill 6 (PyInt.str_of_int (Z.of_nat (S i))))) as Hd
        by (apply zfill_digits, str_of_int_digits; lia).
      rewrite Forall_forall in Hd. now specialize (Hd 10 Hin).
    + unfold record_line_list. apply Forall_flat_map. intros t Ht.
      destruct (elem_of_tags r t Ht) as (k & v & Hk & <-).
      destruct (serializable_lookup r k v H Hk) as (Hc & Hrg & _).
      destruct (canonical_key_spec k Hc) as [_ ->].
      apply Forall_flat_map. intros o _. unfold occurrence_line.
      pose proof (render_no_newline o) as Ho.
      destruct (render o) as [|c x]; constructor; [|constructor].
      split; [|right; apply startswith_app].
      destruct (tag_facts k Hc Hrg) as (_ & Hd & _).
      intros Hin. apply elem_of_app in Hin as [Hin|Hin]; [revert Hin; not_in_literal|].
      apply elem_of_app in Hin as [Hin|Hin].
      { rewrite Forall_forall in Hd. now specialize (Hd 10 Hin). }
      apply elem_of_app in Hin as [Hin|Hin]; [revert Hin; not_in_literal|].
      rewrite Forall_forall in Ho. now apply (Ho 10 Hin).
Qed.

Lemma format_file_lines_witness :
  let records : list record :=
    [ {[ u "10" := FList [OStr (u "a" ++ [10] ++ u "b"); OStr []] ]}; ∅ ] in
  Forall (λ r, serializable r = true) records
  ∧ (Z.of_nat (length records) ≤ 999999)%Z
  ∧ file_lines records = [u "!ID 000001"; u "!v010!a b"; u "!ID 000002"]
  ∧ _format_file new records = Ok (terminated (file_lines records)).
Proof.
  intros records.
  assert (Forall (λ r, serializable r = true) records) as H1 by (repeat constructor).
  assert (Z.of_nat (length records) ≤ 999999)%Z as H2 by (cbn; lia).
  split; [exact H1|]. split; [exact H2|]. split; [vm_compute; reflexivity|].
  exact (proj1 (format_file_lines records H1 H2)).
Defined.

End file_lines.

(** ** Writing what was read *)

Section reserialize.
Import Py IDFile.

Lemma get_field_data_typed s o : _get_field_data s = Ok o → occurrence_typed o = true.
Proof.
  unfold _get_field_data.
  destruct (map _ (split (u "^") s)) as [|first [|p rest]]; [discriminate|now intros [= <-]|].
  intros (d & _ & [= <-])%bind_Ok. reflexivity.
Qed.

Lemma get_record_data_fields (rec : str) (data : record) :
  _get_record_data rec = Ok data →
  ∀ k f, data !! k = Some f → canonical_key k = true ∧ field_typed f = true.
Proof.
  unfold _get_record_data. rewrite get_record_data_loop_spec.
  destruct (mapM field_tag_and_data _) as [parsed|e] eqn:E; [|discriminate].
  intros [= <-] k f. rewrite collapse_lookup.
  assert (∀ o, o ∈ occurrences_of k parsed →
               canonical_key k = true ∧ occurrence_typed o = true) as Ho.
  { intros o Hin%occurrences_of_elem.
    destruct (mapM_Ok_outputs _ _ _ _ E Hin) as (field & _ & Hf).
    split; [now apply (field_tag_and_data_canonical field k o)|].
    unfold field_tag_and_data in Hf.
    apply bind_Ok in Hf as (t & _ & (fd & Hfd & [= _ <-])%bind_Ok).
    now apply (get_field_data_typed _ _ Hfd). }
  destruct (occurrences_of k parsed) as [|o occs] eqn:Eo; [discriminate|].
  intros Hf. split; [apply (Ho o); left|].
  assert (occurrences f = o :: occs) as Hocc.
  { destruct occs; injection Hf as <-; reflexivity. }
  unfold field_typed. rewrite Hocc. apply forallb_forall.
  intros x Hx%list_elem_of_In. now apply Ho.
Qed.

(** X27: what [read] returns can be written again, but for the range of the
    tags.  The records read from any text have canonical keys and string or
    dict occurrences; when their tags are in 1..999 and they are at most
    999999, serializing them raises nothing. *)
Theorem read_content_serializable (s : str) (records : list record) :
  read_content s = Ok records →
  Forall (λ r, record_all (λ k _, tag_in_range (key_int k)) r = true) records →
  (Z.of_nat (length records) ≤ 999999)%Z →
  Forall (λ r, serializable r = true) records
  ∧ ∃ t, write_content new records = Ok (Encoding.PStr t).
Proof.
  intros Hr Ht Hn.
  assert (Forall (λ r, serializable r = true) records) as Hs.
  { unfold read_content in Hr. cbn [Encoding.decode mbind result_bind] in Hr.
    rewrite Forall_forall in Ht |- *. intros r Hin.
    destruct (mapM_Ok_outputs _ _ _ _ Hr Hin) as (rec & _ & Hrec).
    unfold serializable. apply record_all_spec. intros k f Hk.
    destruct (get_record_data_fields rec r Hrec k f Hk) as [-> ->].
    specialize (Ht r Hin). rewrite record_all_spec in Ht.
    now rewrite (Ht k f Hk). }
  split; [exact Hs|]. eexists. apply write_content_Ok.
  now apply format_file_numbered_text.
Qed.

Lemma read_content_serializable_witness :
  let s := u "!ID 000009" ++ [10] ++ u "!v007!a^bc" ++ [10] ++ u "!v007!d" ++ [10] in
  let records : list record :=
    [ {[ u "7" := FList [ODict (<[u "_" := SStr (u "a")]> {[ u "b" := SStr (u "c") ]});
                         OStr (u "d")] ]} ] in
  read_content s = Ok records
  ∧ ∃ t, write_content new records = Ok (Encoding.PStr t).
Proof.
  intros s records.
  assert (read_content s = Ok records) as H1 by (vm_compute; reflexivity).
  split; [exact H1|].
  refine (proj2 (read_content_serializable s records H1 _ _)).
  - repeat constructor.
  - cbn. lia.
Defined.

End reserialize.
